(** * MicroCost: dependency graph engine and cost attribution engine

    A shallow embedding of

      - [internal/graph]       (Graph, HasCycle, TopologicalSort, FindAllPaths)
      - [pkg/models]           (cost, metrics and service records)
      - [internal/costengine]  (Calculator.CalculateCosts and its helpers,
                                on the values behind Go's pointers and, in
                                [Ptr], on pointers that can be nil)
      - [internal/analyzer]    (the graph builder, the scanner's registry, the
                                file filters and the endpoint of a URL)
      - [internal/visualizer]  (the dependency tree and the top endpoints)
      - [pkg/config]           (Validate)

    Go's [float64] is Rocq's primitive binary64 [float]: every sum and
    product below is written in the order in which the Go code evaluates
    it.  Go maps that are only looked up are [gmap]s, sets of visited keys
    are [gset]s, and a Go map that is ranged over is a list of bindings
    with distinct keys: a map that the caller hands over in the order in
    which [range] visits it, a map that the code fills in the order in
    which it was filled.  Where a sum of [float64]s depends on the order
    in which [range] visits a map that the code has filled, that order is
    [rangeOrder] of the list, which can be any arrangement of it. *)

From Stdlib Require Import Floats.PrimFloat Floats.SpecFloat Floats.FloatOps Floats.FloatAxioms.
From Stdlib Require Import ZArith Lia Uint63 Sorted Ascii.
From stdpp Require Import gmap strings list.

#[local] Set Warnings "-clear-no-such-hyp,-inexact-float".
Local Open Scope Z_scope.

(** ** Go maps that are ranged over *)

Definition smap (V : Type) : Type := list (string * V).

Fixpoint sm_get {V} (m : smap V) (k : string) : option V :=
  match m with
  | [] => None
  | (k', v) :: m' => if String.eqb k k' then Some v else sm_get m' k
  end.

(** [m[k] = v]: the binding is replaced in place, or added. *)
Fixpoint sm_set {V} (m : smap V) (k : string) (v : V) : smap V :=
  match m with
  | [] => [(k, v)]
  | (k', v') :: m' =>
      if String.eqb k k' then (k, v) :: m' else (k', v') :: sm_set m' k v
  end.

Definition sm_keys {V} (m : smap V) : list string := map fst m.
Definition sm_values {V} (m : smap V) : list V := map snd m.

(** [fmt.Sprintf("%s:%s", a, b)] *)
Definition colonKey (a b : string) : string := a +:+ ":" +:+ b.

(** ** internal/graph *)

(** The opaque [Data] payloads of nodes and edges are left out. *)
Record Node := {
  ID : string;
  nd_Service : string;
  nd_Endpoint : string;
  nd_Method : string
}.

Record Edge := {
  From : Node;
  To : Node;
  Weight : float
}.

Record Graph := {
  nodes : smap Node;
  edges : list Edge
}.

(** What a call of the graph engine can come to: a value, the nil
    dereference of the Go runtime, or the end of the model's fuel. *)
Inductive result (A : Type) : Type :=
  | Ok (a : A)
  | Panic
  | OutOfFuel.
Arguments Ok {A} a.
Arguments Panic {A}.
Arguments OutOfFuel {A}.

Definition NewGraph : Graph := {| nodes := []; edges := [] |}.

Definition AddNode (g : Graph) (id service endpoint method : string) : Graph * Node :=
  match sm_get (nodes g) id with
  | Some node => (g, node)
  | None =>
      let node := {| ID := id; nd_Service := service; nd_Endpoint := endpoint; nd_Method := method |} in
      ({| nodes := sm_set (nodes g) id node; edges := edges g |}, node)
  end.

Definition AddEdge (g : Graph) (from to : Node) (weight : float) : Graph * Edge :=
  let edge := {| From := from; To := to; Weight := weight |} in
  ({| nodes := nodes g; edges := edges g ++ [edge] |}, edge).

Definition GetNode (g : Graph) (id : string) : option Node := sm_get (nodes g) id.

Definition GetOutgoingEdges (g : Graph) (node : Node) : list Edge :=
  filter (fun edge => ID (From edge) = ID node) (edges g).


(** [visited] and [recStack]: the keys mapped to [true]. *)
Record dfsState := { visited : gset string; recStack : gset string }.

(** The loop of [hasCycleDFS] over the outgoing edges, followed by
    [recStack[nodeID] = false; return false]; [recur] is the recursive call. *)
Fixpoint cycleLoop (recur : string -> dfsState -> result (bool * dfsState))
    (nodeID : string) (es : list Edge) (st : dfsState) : result (bool * dfsState) :=
  match es with
  | [] => Ok (false, {| visited := visited st; recStack := recStack st ∖ {[nodeID]} |})
  | edge :: es' =>
      if decide (ID (To edge) ∈ visited st) then
        if decide (ID (To edge) ∈ recStack st) then Ok (true, st)
        else cycleLoop recur nodeID es' st
      else
        match recur (ID (To edge)) st with
        | Ok (true, st') => Ok (true, st')
        | Ok (false, st') => cycleLoop recur nodeID es' st'
        | Panic => Panic
        | OutOfFuel => OutOfFuel
        end
  end.

(** [GetOutgoingEdges] reads [node.ID] once per edge of the graph: with
    a nil [node] it panics unless the graph has no edge at all. *)
Fixpoint hasCycleDFS (fuel : nat) (g : Graph) (nodeID : string) (st : dfsState)
    : result (bool * dfsState) :=
  match fuel with
  | O => OutOfFuel
  | S fuel' =>
      let st := {| visited := {[nodeID]} ∪ visited st; recStack := {[nodeID]} ∪ recStack st |} in
      match GetNode g nodeID with
      | Some node => cycleLoop (hasCycleDFS fuel' g) nodeID (GetOutgoingEdges g node) st
      | None =>
          match edges g with
          | [] => cycleLoop (hasCycleDFS fuel' g) nodeID [] st
          | _ :: _ => Panic
          end
      end
  end.

(** [for id := range g.nodes] of [HasCycle]. *)
Fixpoint cycleScan (fuel : nat) (g : Graph) (ids : list string) (st : dfsState) : result bool :=
  match ids with
  | [] => Ok false
  | id :: ids' =>
      if decide (id ∈ visited st) then cycleScan fuel g ids' st
      else
        match hasCycleDFS fuel g id st with
        | Ok (true, _) => Ok true
        | Ok (false, st') => cycleScan fuel g ids' st'
        | Panic => Panic
        | OutOfFuel => OutOfFuel
        end
  end.

(** The calls of [hasCycleDFS] that are nested in one another are on
    different IDs, and a call on an ID that is no key of [g.nodes] makes no
    further call; so the nesting exceeds the number of nodes by one at
    most, and the fuel is never used up ([HasCycle_fuel]). *)
Definition HasCycle (g : Graph) : result bool :=
  cycleScan (S (length (nodes g))) g (sm_keys (nodes g)) {| visited := ∅; recStack := ∅ |}.

Definition CyclicGraph : string := "graph contains cycles, cannot perform topological sort".

(** [inDegree[id]]: a missing key reads as 0. *)
Definition degree (inDegree : smap Z) (id : string) : Z :=
  match sm_get inDegree id with Some d => d | None => 0 end.

(** [for _, edge := range g.edges { inDegree[edge.To.ID]++ }] *)
Definition countIncoming (es : list Edge) (inDegree : smap Z) : smap Z :=
  fold_left (fun inDegree edge =>
    sm_set inDegree (ID (To edge)) (degree inDegree (ID (To edge)) + 1)) es inDegree.

(** [for id, degree := range inDegree]: the initial queue. *)
Fixpoint initialQueue (g : Graph) (inDegree : smap Z) : result (list Node) :=
  match inDegree with
  | [] => Ok []
  | (id, d) :: inDegree' =>
      match initialQueue g inDegree' with
      | Ok queue =>
          if d =? 0 then
            match GetNode g id with
            | Some node => Ok (node :: queue)
            | None => Panic
            end
          else Ok queue
      | Panic => Panic
      | OutOfFuel => OutOfFuel
      end
  end.

(** The loop over the outgoing edges of the node taken from the queue. *)
Fixpoint relaxEdges (es : list Edge) (inDegree : smap Z) (queue : list Node)
    : smap Z * list Node :=
  match es with
  | [] => (inDegree, queue)
  | edge :: es' =>
      let d := degree inDegree (ID (To edge)) - 1 in
      let inDegree := sm_set inDegree (ID (To edge)) d in
      relaxEdges es' inDegree (if d =? 0 then queue ++ [To edge] else queue)
  end.

(** [for len(queue) > 0]. *)
Fixpoint kahnLoop (fuel : nat) (g : Graph) (queue sorted : list Node) (inDegree : smap Z)
    : result (list Node) :=
  match queue with
  | [] => Ok sorted
  | node :: queue' =>
      match fuel with
      | O => OutOfFuel
      | S fuel' =>
          let '(inDegree, queue') := relaxEdges (GetOutgoingEdges g node) inDegree queue' in
          kahnLoop fuel' g queue' (sorted ++ [node]) inDegree
      end
  end.

(** The pair is Go's [([]*Node, error)]; [None] is the nil error. *)
Definition TopologicalSort (g : Graph) : result (list Node * option string) :=
  match HasCycle g with
  | Ok true => Ok ([], Some CyclicGraph)
  | Ok false =>
      let inDegree := fold_left (fun inDegree id => sm_set inDegree id 0) (sm_keys (nodes g)) [] in
      let inDegree := countIncoming (edges g) inDegree in
      match initialQueue g inDegree with
      | Ok queue =>
          match kahnLoop (length inDegree) g queue [] inDegree with
          | Ok sorted => Ok (sorted, None)
          | Panic => Panic
          | OutOfFuel => OutOfFuel
          end
      | Panic => Panic
      | OutOfFuel => OutOfFuel
      end
  | Panic => Panic
  | OutOfFuel => OutOfFuel
  end.

(** The shared [visited] map and the [*paths] accumulator. *)
Definition pathState : Type := gset string * list (list Node).

(** The loop of [findPathsDFS] over the outgoing edges. *)
Fixpoint pathsLoop (recur : Node -> pathState -> result pathState)
    (es : list Edge) (st : pathState) : result pathState :=
  match es with
  | [] => Ok st
  | edge :: es' =>
      if decide (ID (To edge) ∈ st.1) then pathsLoop recur es' st
      else
        match recur (To edge) st with
        | Ok st' => pathsLoop recur es' st'
        | Panic => Panic
        | OutOfFuel => OutOfFuel
        end
  end.

Fixpoint findPathsDFS (fuel : nat) (g : Graph) (current : Node) (endID : string)
    (maxDepth : Z) (currentPath : list Node) (st : pathState) : result pathState :=
  match fuel with
  | O => OutOfFuel
  | S fuel' =>
      if maxDepth <? Z.of_nat (length currentPath) then Ok st
      else
        let currentPath := currentPath ++ [current] in
        let visited := {[ID current]} ∪ st.1 in
        let after :=
          if String.eqb (ID current) endID then Ok (visited, st.2 ++ [currentPath])
          else
            pathsLoop (fun next st' => findPathsDFS fuel' g next endID maxDepth currentPath st')
              (GetOutgoingEdges g current) (visited, st.2) in
        match after with
        | Ok (visited, paths) => Ok (visited ∖ {[ID current]}, paths)
        | Panic => Panic
        | OutOfFuel => OutOfFuel
        end
  end.

(** A call that passes the length test nests at most [maxDepth + 1] further
    calls. *)
Definition FindAllPaths (g : Graph) (startID endID : string) (maxDepth : Z)
    : result (list (list Node)) :=
  match GetNode g startID with
  | None => Ok []
  | Some start =>
      match findPathsDFS (S (Z.to_nat (maxDepth + 1))) g start endID maxDepth [] (∅, []) with
      | Ok (_, paths) => Ok paths
      | Panic => Panic
      | OutOfFuel => OutOfFuel
      end
  end.

Definition GetAllNodes (g : Graph) : list Node := sm_values (nodes g).
Definition GetAllEdges (g : Graph) : list Edge := edges g.
Definition NodeCount (g : Graph) : Z := Z.of_nat (length (nodes g)).

(** ** pkg/models *)

Record CostModel := {
  CPUCostPerCoreHour : float;
  MemoryCostPerGBHour : float;
  NetworkCostPerGB : float;
  DiskCostPerGBHour : float;
  cm_RequestCost : float;
  Provider : string;
  Region : string
}.

Record DownstreamCost := {
  dc_Service : string;
  dc_Endpoint : string;
  dc_Cost : float;
  CallsPerRequest : float;
  Depth : Z
}.

(** The [Details] map of the Go struct is created empty and never written. *)
Record CostBreakdown := {
  CPUCost : float;
  MemoryCost : float;
  NetworkCost : float;
  DiskCost : float;
  cb_RequestCost : float;
  DownstreamTotal : float;
  cb_Total : float
}.

(** [CostBreakdown] is a pointer in Go: [None] is [nil]. *)
Record EndpointCost := {
  ec_Service : string;
  ec_Endpoint : string;
  ec_Method : string;
  ec_DirectCost : float;
  DownstreamCosts : list DownstreamCost;
  ec_TotalCost : float;
  CostPerRequest : float;
  RequestCount : float;
  ec_CostBreakdown : option CostBreakdown
}.

Record ServiceCost := {
  sc_ServiceName : string;
  sc_Endpoints : smap EndpointCost;
  sc_TotalCost : float;
  sc_DirectCost : float;
  AttributedCost : float
}.

Record TimeRange := { Start : Z; End_ : Z }.

(** [GeneratedAt] (the wall clock) is left out. *)
Record CostReport := {
  cr_Services : smap ServiceCost;
  cr_TotalCost : float;
  cr_TimeRange : TimeRange;
  cr_CostModel : CostModel;
  TopCostly : list EndpointCost;
  Recommendations : list string
}.

Record ResourceMetrics := {
  CPUCores : float;
  MemoryMB : float;
  NetworkInMB : float;
  NetworkOutMB : float;
  DiskReadMB : float;
  DiskWriteMB : float
}.

Record PerformanceMetrics := {
  RequestRate : float;
  ErrorRate : float
}.

(** [Resource] and [Performance] are pointers: [None] is [nil]. *)
Record EndpointMetrics := {
  em_Service : string;
  em_Endpoint : string;
  em_Method : string;
  Resource : option ResourceMetrics;
  Performance : option PerformanceMetrics
}.

Record ServiceMetrics := {
  sm_ServiceName : string;
  sm_Endpoints : gmap string EndpointMetrics
}.

Record MetricsSnapshot := {
  ms_Services : gmap string ServiceMetrics;
  ms_TimeRange : TimeRange
}.

(** [ep_Service] is the [Name] of the service the endpoint points back to
    (the Go field is a [*Service] set by [AddEndpoint]; the engine reads
    [endpoint.Service.Name] only).  An endpoint whose [Service] is nil is
    an endpoint of [Ptr] below. *)
Record Endpoint := {
  ep_Path : string;
  ep_Method : string;
  ep_Service : string
}.

Record Service := {
  Name : string;
  Path : string;
  Endpoints : list Endpoint
}.

Record Dependency := {
  FromService : string;
  FromEndpoint : string;
  ToService : string;
  ToEndpoint : string;
  CallType : string;
  dep_Weight : float
}.

Record CallGraph := {
  cg_Services : smap Service;
  Dependencies : list Dependency
}.

(** What the engine takes from Go's libraries and runtime: the ["%.4f"]
    verb of [fmt.Sprintf], [timeRange.End.Sub(timeRange.Start).Hours()],
    and the order in which a [range] loop visits the entries of a map that
    the engine has filled.  Go leaves that order open: it is some
    arrangement of the entries. *)
Class GoLib := {
  Sprintf4f : float -> string;
  Hours : TimeRange -> float;
  rangeOrder : ∀ V : Type, smap V -> smap V;
  rangeOrder_perm : ∀ (V : Type) (m : smap V), rangeOrder V m ≡ₚ m
}.
Arguments rangeOrder {_ V} m.

Definition NewCostReport (costModel : CostModel) (timeRange : TimeRange) : CostReport :=
  {| cr_Services := [];
     cr_TotalCost := 0;
     cr_TimeRange := timeRange;
     cr_CostModel := costModel;
     TopCostly := [];
     Recommendations := [] |}.

Definition AddServiceCost (cr : CostReport) (sc : ServiceCost) : CostReport :=
  {| cr_Services := sm_set (cr_Services cr) (sc_ServiceName sc) sc;
     cr_TotalCost := (cr_TotalCost cr + sc_TotalCost sc)%float;
     cr_TimeRange := cr_TimeRange cr;
     cr_CostModel := cr_CostModel cr;
     TopCostly := TopCostly cr;
     Recommendations := Recommendations cr |}.

(** [total := 0.0; for _, sc := range cr.Services { total += sc.TotalCost }],
    the service costs in the order of the visit. *)
Definition sumServiceTotals (scs : smap ServiceCost) : float :=
  fold_left (fun total kv => (total + sc_TotalCost (snd kv))%float) scs 0%float.

Definition CalculateTotalCost `{GoLib} (cr : CostReport) : CostReport :=
  {| cr_Services := cr_Services cr;
     cr_TotalCost := sumServiceTotals (rangeOrder (cr_Services cr));
     cr_TimeRange := cr_TimeRange cr;
     cr_CostModel := cr_CostModel cr;
     TopCostly := TopCostly cr;
     Recommendations := Recommendations cr |}.

Definition NewCostBreakdown (metrics : option ResourceMetrics)
    (perfMetrics : option PerformanceMetrics) (model : option CostModel)
    (durationHours : float) : CostBreakdown :=
  let '(cpu, mem, net, disk) :=
    match metrics, model with
    | Some metrics, Some model =>
        ((CPUCores metrics * CPUCostPerCoreHour model * durationHours)%float,
         ((MemoryMB metrics / 1024) * MemoryCostPerGBHour model * durationHours)%float,
         (((NetworkInMB metrics + NetworkOutMB metrics) / 1024) * NetworkCostPerGB model)%float,
         (((DiskReadMB metrics + DiskWriteMB metrics) / 1024) * DiskCostPerGBHour model * durationHours)%float)
    | _, _ => (0%float, 0%float, 0%float, 0%float)
    end in
  let req :=
    match perfMetrics, model with
    | Some perfMetrics, Some model =>
        (RequestRate perfMetrics * cm_RequestCost model * durationHours * 3600)%float
    | _, _ => 0%float
    end in
  {| CPUCost := cpu;
     MemoryCost := mem;
     NetworkCost := net;
     DiskCost := disk;
     cb_RequestCost := req;
     DownstreamTotal := 0;
     cb_Total := (cpu + mem + net + disk + req)%float |}.

Definition GetService (cg : CallGraph) (name : string) : option Service :=
  sm_get (cg_Services cg) name.

Fixpoint findEndpoint (eps : list Endpoint) (path method : string) : option Endpoint :=
  match eps with
  | [] => None
  | ep :: eps' =>
      if String.eqb (ep_Path ep) path && String.eqb (ep_Method ep) method
      then Some ep else findEndpoint eps' path method
  end.

Definition GetEndpoint (s : Service) (path method : string) : option Endpoint :=
  findEndpoint (Endpoints s) path method.

(** [endpoint.Service = s; s.Endpoints = append(s.Endpoints, endpoint)] *)
Definition AddEndpoint (s : Service) (endpoint : Endpoint) : Service :=
  {| Name := Name s;
     Path := Path s;
     Endpoints := Endpoints s ++
       [ {| ep_Path := ep_Path endpoint; ep_Method := ep_Method endpoint; ep_Service := Name s |} ] |}.

Definition GetServiceMetrics (ms : MetricsSnapshot) (serviceName : string) : option ServiceMetrics :=
  ms_Services ms !! serviceName.

(** ** internal/costengine *)

(** The logger, the configuration and the graph handle of the Go struct
    play no part in the results. *)
Record Calculator := { costModel : CostModel }.

Definition maxDepth : Z := 10.

Definition calculateEndpointCost (c : Calculator) (endpoint : Endpoint)
    (serviceMetrics : option ServiceMetrics) (durationHours : float) : EndpointCost :=
  let ec :=
    {| ec_Service := ep_Service endpoint;
       ec_Endpoint := ep_Path endpoint;
       ec_Method := ep_Method endpoint;
       ec_DirectCost := 0;
       DownstreamCosts := [];
       ec_TotalCost := 0;
       CostPerRequest := 0;
       RequestCount := 0;
       ec_CostBreakdown := None |} in
  match serviceMetrics with
  | None => ec
  | Some serviceMetrics =>
      let key := colonKey (ep_Path endpoint) (ep_Method endpoint) in
      match sm_Endpoints serviceMetrics !! key with
      | None => ec
      | Some endpointMetrics =>
          match Resource endpointMetrics with
          | None => ec
          | Some _ =>
              let costBreakdown :=
                NewCostBreakdown (Resource endpointMetrics) (Performance endpointMetrics)
                  (Some (costModel c)) durationHours in
              {| ec_Service := ep_Service endpoint;
                 ec_Endpoint := ep_Path endpoint;
                 ec_Method := ep_Method endpoint;
                 ec_DirectCost := cb_Total costBreakdown;
                 DownstreamCosts := [];
                 ec_TotalCost := 0;
                 CostPerRequest := 0;
                 RequestCount :=
                   match Performance endpointMetrics with
                   | Some perf => (RequestRate perf * durationHours * 3600)%float
                   | None => 0%float
                   end;
                 ec_CostBreakdown := Some costBreakdown |}
          end
      end
  end.

(** [nc.Cost *= dep.Weight] *)
Definition scaleCost (w : float) (nc : DownstreamCost) : DownstreamCost :=
  {| dc_Service := dc_Service nc;
     dc_Endpoint := dc_Endpoint nc;
     dc_Cost := (dc_Cost nc * w)%float;
     CallsPerRequest := CallsPerRequest nc;
     Depth := Depth nc |}.

(** The state of the walk: the entries appended so far and the shared
    [visited] map. *)
Definition walk : Type := list DownstreamCost * gset string.

(** The body of [for _, dep := range callGraph.Dependencies] in
    [calculateDownstreamCosts]; [recur] is the recursive call. *)
Fixpoint downstreamLoop (recur : Endpoint -> Z -> gset string -> option walk)
    (endpoint : Endpoint) (callGraph : CallGraph) (endpointCosts : smap EndpointCost)
    (depth : Z) (deps : list Dependency)
    (downstreamCosts : list DownstreamCost) (visited : gset string) : option walk :=
  match deps with
  | [] => Some (downstreamCosts, visited)
  | dep :: deps' =>
      let continue := downstreamLoop recur endpoint callGraph endpointCosts depth deps' in
      if String.eqb (FromService dep) (ep_Service endpoint)
         && String.eqb (FromEndpoint dep) (ep_Path endpoint)
      then
        let depKey := colonKey (ToService dep) (ToEndpoint dep) in
        if decide (depKey ∈ visited) then continue downstreamCosts visited
        else
          let targetKey := colonKey (ToEndpoint dep) "GET" in
          let targetCost :=
            match sm_get endpointCosts targetKey with
            | Some ec => ec_DirectCost ec
            | None => 0%float
            end in
          let weightedCost := (targetCost * dep_Weight dep)%float in
          let dc :=
            {| dc_Service := ToService dep;
               dc_Endpoint := ToEndpoint dep;
               dc_Cost := weightedCost;
               CallsPerRequest := dep_Weight dep;
               Depth := depth + 1 |} in
          let downstreamCosts := downstreamCosts ++ [dc] in
          match GetService callGraph (ToService dep) with
          | Some targetService =>
              match GetEndpoint targetService (ToEndpoint dep) "GET" with
              | Some targetEndpoint =>
                  match recur targetEndpoint (depth + 1) ({[depKey]} ∪ visited) with
                  | Some (nestedCosts, visited) =>
                      continue (downstreamCosts ++ map (scaleCost (dep_Weight dep)) nestedCosts)
                               (visited ∖ {[depKey]})
                  | None => None
                  end
              | None => continue downstreamCosts visited
              end
          | None => continue downstreamCosts visited
          end
      else continue downstreamCosts visited
  end.

(** [fuel] bounds the nesting of calls; [None] is "out of fuel".  The
    depth test of the Go code stops the recursion at depth 11, so twelve
    units always suffice from depth 0 ([calculateDownstreamCosts_fuel]). *)
Fixpoint calculateDownstreamCosts (fuel : nat) (endpoint : Endpoint)
    (callGraph : CallGraph) (endpointCosts : smap EndpointCost)
    (depth : Z) (visited : gset string) : option walk :=
  match fuel with
  | O => None
  | S fuel' =>
      if maxDepth <? depth then Some ([], visited)
      else
        downstreamLoop
          (fun ep d v => calculateDownstreamCosts fuel' ep callGraph endpointCosts d v)
          endpoint callGraph endpointCosts depth (Dependencies callGraph) [] visited
  end.

(** [downstreamTotal := 0.0; for _, dc := range costs { downstreamTotal += dc.Cost }] *)
Definition sumDownstream (costs : list DownstreamCost) : float :=
  fold_left (fun total dc => (total + dc_Cost dc)%float) costs 0%float.

Definition emptyServiceCost (serviceName : string) : ServiceCost :=
  {| sc_ServiceName := serviceName;
     sc_Endpoints := [];
     sc_TotalCost := 0;
     sc_DirectCost := 0;
     AttributedCost := 0 |}.

(** First loop over [service.Endpoints]: direct costs. *)
Definition directStep (c : Calculator) (serviceMetrics : option ServiceMetrics)
    (durationHours : float) (serviceCost : ServiceCost) (endpoint : Endpoint) : ServiceCost :=
  let endpointCost := calculateEndpointCost c endpoint serviceMetrics durationHours in
  let key := colonKey (ep_Path endpoint) (ep_Method endpoint) in
  {| sc_ServiceName := sc_ServiceName serviceCost;
     sc_Endpoints := sm_set (sc_Endpoints serviceCost) key endpointCost;
     sc_TotalCost := sc_TotalCost serviceCost;
     sc_DirectCost := (sc_DirectCost serviceCost + ec_DirectCost endpointCost)%float;
     AttributedCost := AttributedCost serviceCost |}.

Definition directLoop (c : Calculator) (serviceMetrics : option ServiceMetrics)
    (durationHours : float) (eps : list Endpoint) (serviceCost : ServiceCost) : ServiceCost :=
  fold_left (directStep c serviceMetrics durationHours) eps serviceCost.

(** What the second loop writes into the endpoint cost it looked up. *)
Definition finalizeEndpointCost (endpointCost : EndpointCost)
    (downstreamCosts : list DownstreamCost) : EndpointCost :=
  let downstreamTotal := sumDownstream downstreamCosts in
  let totalCost := (ec_DirectCost endpointCost + downstreamTotal)%float in
  {| ec_Service := ec_Service endpointCost;
     ec_Endpoint := ec_Endpoint endpointCost;
     ec_Method := ec_Method endpointCost;
     ec_DirectCost := ec_DirectCost endpointCost;
     DownstreamCosts := downstreamCosts;
     ec_TotalCost := totalCost;
     CostPerRequest :=
       if (0 <? RequestCount endpointCost)%float
       then (totalCost / RequestCount endpointCost)%float
       else CostPerRequest endpointCost;
     RequestCount := RequestCount endpointCost;
     ec_CostBreakdown :=
       match ec_CostBreakdown endpointCost with
       | Some cb =>
           Some {| CPUCost := CPUCost cb;
                   MemoryCost := MemoryCost cb;
                   NetworkCost := NetworkCost cb;
                   DiskCost := DiskCost cb;
                   cb_RequestCost := cb_RequestCost cb;
                   DownstreamTotal := downstreamTotal;
                   cb_Total := totalCost |}
       | None => None
       end |}.

(** Second loop over [service.Endpoints]: attributed costs.  [None] is
    "out of fuel" or the nil dereference Go would make of a key that the
    first loop did not store; neither happens ([attributeLoop_spec]). *)
Fixpoint attributeLoop (callGraph : CallGraph) (eps : list Endpoint)
    (endpoints : smap EndpointCost) : option (smap EndpointCost) :=
  match eps with
  | [] => Some endpoints
  | endpoint :: eps' =>
      let key := colonKey (ep_Path endpoint) (ep_Method endpoint) in
      match sm_get endpoints key with
      | None => None
      | Some endpointCost =>
          match calculateDownstreamCosts 12 endpoint callGraph endpoints 0 ∅ with
          | None => None
          | Some (downstreamCosts, _) =>
              attributeLoop callGraph eps'
                (sm_set endpoints key (finalizeEndpointCost endpointCost downstreamCosts))
          end
      end
  end.

(** Third loop: [serviceCost.AttributedCost += downstreamTotal] over
    [range serviceCost.Endpoints], the endpoint costs in the order of the
    visit. *)
Definition sumAttributed (endpoints : smap EndpointCost) : float :=
  fold_left (fun attributed kv => (attributed + sumDownstream (DownstreamCosts (snd kv)))%float)
    endpoints 0%float.

Definition calculateServiceCost `{GoLib} (c : Calculator) (callGraph : CallGraph)
    (metricsSnapshot : MetricsSnapshot) (durationHours : float)
    (serviceName : string) (service : Service) : option ServiceCost :=
  let serviceMetrics := GetServiceMetrics metricsSnapshot serviceName in
  let serviceCost :=
    directLoop c serviceMetrics durationHours (Endpoints service) (emptyServiceCost serviceName) in
  match attributeLoop callGraph (Endpoints service) (sc_Endpoints serviceCost) with
  | None => None
  | Some endpoints =>
      let attributed := sumAttributed (rangeOrder endpoints) in
      Some {| sc_ServiceName := serviceName;
              sc_Endpoints := endpoints;
              sc_TotalCost := (sc_DirectCost serviceCost + attributed)%float;
              sc_DirectCost := sc_DirectCost serviceCost;
              AttributedCost := attributed |}
  end.

(** [for serviceName, service := range callGraph.Services] *)
Fixpoint servicesLoop `{GoLib} (c : Calculator) (callGraph : CallGraph)
    (metricsSnapshot : MetricsSnapshot) (durationHours : float)
    (services : smap Service) (report : CostReport) : option CostReport :=
  match services with
  | [] => Some report
  | (serviceName, service) :: services' =>
      match calculateServiceCost c callGraph metricsSnapshot durationHours serviceName service with
      | None => None
      | Some serviceCost =>
          servicesLoop c callGraph metricsSnapshot durationHours services'
            (AddServiceCost report serviceCost)
      end
  end.

Definition allEndpointCosts (report : CostReport) : list EndpointCost :=
  flat_map (fun sc => sm_values (sc_Endpoints sc)) (sm_values (cr_Services report)).

(** Inner loop of the sort for a fixed [i]: [x] is [allEndpoints[i]], the
    list is [allEndpoints[i+1:]]; a larger later element is swapped in. *)
Fixpoint swapPass (x : EndpointCost) (rest : list EndpointCost) : EndpointCost * list EndpointCost :=
  match rest with
  | [] => (x, [])
  | y :: rest' =>
      if (ec_TotalCost x <? ec_TotalCost y)%float
      then let '(m, r) := swapPass y rest' in (m, x :: r)
      else let '(m, r) := swapPass x rest' in (m, y :: r)
  end.

(** Outer loop, [n] iterations left. *)
Fixpoint bubbleSort (n : nat) (l : list EndpointCost) : list EndpointCost :=
  match n, l with
  | S n', x :: rest => let '(m, r) := swapPass x rest in m :: bubbleSort n' r
  | _, _ => l
  end.

Definition findTopCostlyEndpoints (report : CostReport) (n : nat) : list EndpointCost :=
  let allEndpoints := allEndpointCosts report in
  let sorted := bubbleSort (length allEndpoints - 1) allEndpoints in
  if (n <? length sorted)%nat then take n sorted else sorted.

(** The test of the second rule of [generateRecommendations]. *)
Definition highDownstream (ec : EndpointCost) : bool :=
  match ec_CostBreakdown ec with
  | Some cb =>
      (0 <? ec_DirectCost ec)%float
      && (5 <? DownstreamTotal cb / ec_DirectCost ec)%float
  | None => false
  end.

Definition reviewMessage (ec : EndpointCost) : string :=
  ec_Service ec +:+ ec_Endpoint ec
  +:+ " has 5x more downstream cost than direct cost - review dependency chain".

Definition optimizeMessage `{GoLib} (ec : EndpointCost) : string :=
  "Consider optimizing " +:+ ec_Service ec +:+ ec_Endpoint ec
  +:+ " - highest cost endpoint at $" +:+ Sprintf4f (CostPerRequest ec) +:+ " per request".

Definition reviewRecommendations (report : CostReport) : list string :=
  map reviewMessage (filter (fun ec => highDownstream ec = true) (allEndpointCosts report)).

Definition generateRecommendations `{GoLib} (report : CostReport) : list string :=
  match TopCostly report with
  | topEndpoint :: _ => [optimizeMessage topEndpoint]
  | [] => []
  end ++ reviewRecommendations report.

(** The second component is Go's [error]; [None] is [nil]. *)
Definition CalculateCosts `{GoLib} (c : Calculator) (callGraph : CallGraph)
    (metricsSnapshot : MetricsSnapshot) (timeRange : TimeRange)
    : option (CostReport * option string) :=
  let report := NewCostReport (costModel c) timeRange in
  let durationHours := Hours timeRange in
  match servicesLoop c callGraph metricsSnapshot durationHours (cg_Services callGraph) report with
  | None => None
  | Some report =>
      let report :=
        {| cr_Services := cr_Services report;
           cr_TotalCost := cr_TotalCost report;
           cr_TimeRange := cr_TimeRange report;
           cr_CostModel := cr_CostModel report;
           TopCostly := findTopCostlyEndpoints report 10;
           Recommendations := Recommendations report |} in
      let report :=
        {| cr_Services := cr_Services report;
           cr_TotalCost := cr_TotalCost report;
           cr_TimeRange := cr_TimeRange report;
           cr_CostModel := cr_CostModel report;
           TopCostly := TopCostly report;
           Recommendations := generateRecommendations report |} in
      Some (report, None)
  end.

(** ** Nil pointers *)

(** The records of [pkg/models] above stand for the values behind Go's
    pointers: a service of [callGraph.Services], an endpoint of
    [service.Endpoints], the service an endpoint points back to, a
    dependency, the metrics of a service and of an endpoint.  In Go each
    of these pointers can be nil.  The [Service] of an endpoint is nil
    until [AddEndpoint] sets it, and it is left out of JSON and YAML (tag
    ["-"]), so it is nil in every call graph that is read from a file, as
    [cmd/calculate.go] does before it calls [CalculateCosts].

    [Ptr] holds the same data with the pointers as Go has them ([None] is
    nil) and the functions of the engine that follow these pointers.  A
    nil pointer that is dereferenced is a [Panic]. *)

(** A panic and the end of the fuel pass through the calls that follow. *)
#[global] Instance result_ret : MRet result := fun A a => Ok a.
#[global] Instance result_bind : MBind result := fun A B f r =>
  match r with
  | Ok a => f a
  | Panic => Panic
  | OutOfFuel => OutOfFuel
  end.

Module Ptr.

(** [ep_Service] is the [Name] of the service that [Service] points to. *)
Record Endpoint := {
  ep_Path : string;
  ep_Method : string;
  ep_Service : option string
}.

Record Service := {
  Name : string;
  Path : string;
  Endpoints : list (option Endpoint)
}.

Record CallGraph := {
  cg_Services : smap (option Service);
  Dependencies : list (option Dependency)
}.

Record ServiceMetrics := {
  sm_ServiceName : string;
  sm_Endpoints : gmap string (option EndpointMetrics)
}.

Record MetricsSnapshot := {
  ms_Services : gmap string (option ServiceMetrics);
  ms_TimeRange : TimeRange
}.

(** [service, exists := cg.Services[name]]: [Some None] is a nil pointer
    that is stored under [name]. *)
Definition GetService (cg : CallGraph) (name : string) : option (option Service) :=
  sm_get (cg_Services cg) name.

(** The loop of [GetEndpoint] reads [ep.Path] of every entry it comes to. *)
Fixpoint findEndpoint (eps : list (option Endpoint)) (path method : string)
    : result (option Endpoint) :=
  match eps with
  | [] => Ok None
  | None :: _ => Panic
  | Some ep :: eps' =>
      if String.eqb (ep_Path ep) path && String.eqb (ep_Method ep) method
      then Ok (Some ep) else findEndpoint eps' path method
  end.

(** [s.Endpoints] dereferences the receiver. *)
Definition GetEndpoint (s : option Service) (path method : string) : result (option Endpoint) :=
  match s with
  | None => Panic
  | Some s => findEndpoint (Endpoints s) path method
  end.

(** The caller drops [exists]: a nil pointer under [serviceName] and no
    entry at all both give nil. *)
Definition GetServiceMetrics (ms : MetricsSnapshot) (serviceName : string)
    : option ServiceMetrics :=
  match ms_Services ms !! serviceName with
  | Some serviceMetrics => serviceMetrics
  | None => None
  end.

(** [endpoint.Service.Name] comes first and dereferences both pointers;
    [endpointMetrics.Resource] dereferences the pointer found under the
    key. *)
Definition calculateEndpointCost (c : Calculator) (endpoint : option Endpoint)
    (serviceMetrics : option ServiceMetrics) (durationHours : float) : result EndpointCost :=
  match endpoint with
  | None => Panic
  | Some endpoint =>
      match ep_Service endpoint with
      | None => Panic
      | Some serviceName =>
          let ec :=
            {| ec_Service := serviceName;
               ec_Endpoint := ep_Path endpoint;
               ec_Method := ep_Method endpoint;
               ec_DirectCost := 0;
               DownstreamCosts := [];
               ec_TotalCost := 0;
               CostPerRequest := 0;
               RequestCount := 0;
               ec_CostBreakdown := None |} in
          match serviceMetrics with
          | None => Ok ec
          | Some serviceMetrics =>
              let key := colonKey (ep_Path endpoint) (ep_Method endpoint) in
              match sm_Endpoints serviceMetrics !! key with
              | None => Ok ec
              | Some None => Panic
              | Some (Some endpointMetrics) =>
                  match Resource endpointMetrics with
                  | None => Ok ec
                  | Some _ =>
                      let costBreakdown :=
                        NewCostBreakdown (Resource endpointMetrics) (Performance endpointMetrics)
                          (Some (costModel c)) durationHours in
                      Ok {| ec_Service := serviceName;
                            ec_Endpoint := ep_Path endpoint;
                            ec_Method := ep_Method endpoint;
                            ec_DirectCost := cb_Total costBreakdown;
                            DownstreamCosts := [];
                            ec_TotalCost := 0;
                            CostPerRequest := 0;
                            RequestCount :=
                              match Performance endpointMetrics with
                              | Some perf => (RequestRate perf * durationHours * 3600)%float
                              | None => 0%float
                              end;
                            ec_CostBreakdown := Some costBreakdown |}
                  end
              end
          end
      end
  end.

(** The body of [for _, dep := range callGraph.Dependencies]: the test
    reads [dep.FromService] and [endpoint.Service.Name]. *)
Fixpoint downstreamLoop (recur : Endpoint -> Z -> gset string -> result walk)
    (endpoint : Endpoint) (callGraph : CallGraph) (endpointCosts : smap EndpointCost)
    (depth : Z) (deps : list (option Dependency))
    (downstreamCosts : list DownstreamCost) (visited : gset string) : result walk :=
  match deps with
  | [] => Ok (downstreamCosts, visited)
  | None :: _ => Panic
  | Some dep :: deps' =>
      let continue := downstreamLoop recur endpoint callGraph endpointCosts depth deps' in
      match ep_Service endpoint with
      | None => Panic
      | Some serviceName =>
          if String.eqb (FromService dep) serviceName
             && String.eqb (FromEndpoint dep) (ep_Path endpoint)
          then
            let depKey := colonKey (ToService dep) (ToEndpoint dep) in
            if decide (depKey ∈ visited) then continue downstreamCosts visited
            else
              let targetKey := colonKey (ToEndpoint dep) "GET" in
              let targetCost :=
                match sm_get endpointCosts targetKey with
                | Some ec => ec_DirectCost ec
                | None => 0%float
                end in
              let weightedCost := (targetCost * dep_Weight dep)%float in
              let dc :=
                {| dc_Service := ToService dep;
                   dc_Endpoint := ToEndpoint dep;
                   dc_Cost := weightedCost;
                   CallsPerRequest := dep_Weight dep;
                   Depth := depth + 1 |} in
              let downstreamCosts := downstreamCosts ++ [dc] in
              match GetService callGraph (ToService dep) with
              | Some targetService =>
                  match GetEndpoint targetService (ToEndpoint dep) "GET" with
                  | Ok (Some targetEndpoint) =>
                      match recur targetEndpoint (depth + 1) ({[depKey]} ∪ visited) with
                      | Ok (nestedCosts, visited) =>
                          continue
                            (downstreamCosts ++ map (scaleCost (dep_Weight dep)) nestedCosts)
                            (visited ∖ {[depKey]})
                      | Panic => Panic
                      | OutOfFuel => OutOfFuel
                      end
                  | Ok None => continue downstreamCosts visited
                  | Panic => Panic
                  | OutOfFuel => OutOfFuel
                  end
              | None => continue downstreamCosts visited
              end
          else continue downstreamCosts visited
      end
  end.

Fixpoint calculateDownstreamCosts (fuel : nat) (endpoint : Endpoint)
    (callGraph : CallGraph) (endpointCosts : smap EndpointCost)
    (depth : Z) (visited : gset string) : result walk :=
  match fuel with
  | O => OutOfFuel
  | S fuel' =>
      if maxDepth <? depth then Ok ([], visited)
      else
        downstreamLoop
          (fun ep d v => calculateDownstreamCosts fuel' ep callGraph endpointCosts d v)
          endpoint callGraph endpointCosts depth (Dependencies callGraph) [] visited
  end.

(** First loop over [service.Endpoints]; [endpoint.Path] of the key comes
    after the call. *)
Fixpoint directLoop (c : Calculator) (serviceMetrics : option ServiceMetrics)
    (durationHours : float) (eps : list (option Endpoint)) (serviceCost : ServiceCost)
    : result ServiceCost :=
  match eps with
  | [] => Ok serviceCost
  | endpoint :: eps' =>
      endpointCost ← calculateEndpointCost c endpoint serviceMetrics durationHours;
      match endpoint with
      | None => Panic
      | Some endpoint =>
          let key := colonKey (ep_Path endpoint) (ep_Method endpoint) in
          directLoop c serviceMetrics durationHours eps'
            {| sc_ServiceName := sc_ServiceName serviceCost;
               sc_Endpoints := sm_set (sc_Endpoints serviceCost) key endpointCost;
               sc_TotalCost := sc_TotalCost serviceCost;
               sc_DirectCost := (sc_DirectCost serviceCost + ec_DirectCost endpointCost)%float;
               AttributedCost := AttributedCost serviceCost |}
      end
  end.

(** Second loop over [service.Endpoints]: the key reads [endpoint.Path],
    the walk is made, and then the endpoint cost found under the key is
    written to; it is nil when the key is missing. *)
Fixpoint attributeLoop (callGraph : CallGraph) (eps : list (option Endpoint))
    (endpoints : smap EndpointCost) : result (smap EndpointCost) :=
  match eps with
  | [] => Ok endpoints
  | None :: _ => Panic
  | Some endpoint :: eps' =>
      let key := colonKey (ep_Path endpoint) (ep_Method endpoint) in
      '(downstreamCosts, _) ← calculateDownstreamCosts 12 endpoint callGraph endpoints 0 ∅;
      match sm_get endpoints key with
      | None => Panic
      | Some endpointCost =>
          attributeLoop callGraph eps'
            (sm_set endpoints key (finalizeEndpointCost endpointCost downstreamCosts))
      end
  end.

(** The body of the loop over [callGraph.Services]; [service.Endpoints]
    dereferences the service. *)
Definition calculateServiceCost `{GoLib} (c : Calculator) (callGraph : CallGraph)
    (metricsSnapshot : MetricsSnapshot) (durationHours : float)
    (serviceName : string) (service : option Service) : result ServiceCost :=
  let serviceMetrics := GetServiceMetrics metricsSnapshot serviceName in
  match service with
  | None => Panic
  | Some service =>
      serviceCost ←
        directLoop c serviceMetrics durationHours (Endpoints service)
          (emptyServiceCost serviceName);
      endpoints ← attributeLoop callGraph (Endpoints service) (sc_Endpoints serviceCost);
      let attributed := sumAttributed (rangeOrder endpoints) in
      Ok {| sc_ServiceName := serviceName;
            sc_Endpoints := endpoints;
            sc_TotalCost := (sc_DirectCost serviceCost + attributed)%float;
            sc_DirectCost := sc_DirectCost serviceCost;
            AttributedCost := attributed |}
  end.

Fixpoint servicesLoop `{GoLib} (c : Calculator) (callGraph : CallGraph)
    (metricsSnapshot : MetricsSnapshot) (durationHours : float)
    (services : smap (option Service)) (report : CostReport) : result CostReport :=
  match services with
  | [] => Ok report
  | (serviceName, service) :: services' =>
      serviceCost ←
        calculateServiceCost c callGraph metricsSnapshot durationHours serviceName service;
      servicesLoop c callGraph metricsSnapshot durationHours services'
        (AddServiceCost report serviceCost)
  end.

(** The second component is Go's [error]; [None] is [nil]. *)
Definition CalculateCosts `{GoLib} (c : Calculator) (callGraph : CallGraph)
    (metricsSnapshot : MetricsSnapshot) (timeRange : TimeRange)
    : result (CostReport * option string) :=
  let report := NewCostReport (costModel c) timeRange in
  let durationHours := Hours timeRange in
  report ←
    servicesLoop c callGraph metricsSnapshot durationHours (cg_Services callGraph) report;
  let report :=
    {| cr_Services := cr_Services report;
       cr_TotalCost := cr_TotalCost report;
       cr_TimeRange := cr_TimeRange report;
       cr_CostModel := cr_CostModel report;
       TopCostly := findTopCostlyEndpoints report 10;
       Recommendations := Recommendations report |} in
  let report :=
    {| cr_Services := cr_Services report;
       cr_TotalCost := cr_TotalCost report;
       cr_TimeRange := cr_TimeRange report;
       cr_CostModel := cr_CostModel report;
       TopCostly := TopCostly report;
       Recommendations := generateRecommendations report |} in
  Ok (report, None).

End Ptr.

(** The data of a call graph and of a metrics snapshot with every pointer
    set. *)
Definition ptrEndpoint (endpoint : Endpoint) : Ptr.Endpoint :=
  {| Ptr.ep_Path := ep_Path endpoint;
     Ptr.ep_Method := ep_Method endpoint;
     Ptr.ep_Service := Some (ep_Service endpoint) |}.

Definition ptrService (service : Service) : Ptr.Service :=
  {| Ptr.Name := Name service;
     Ptr.Path := Path service;
     Ptr.Endpoints := map (fun endpoint => Some (ptrEndpoint endpoint)) (Endpoints service) |}.

Definition ptrCallGraph (callGraph : CallGraph) : Ptr.CallGraph :=
  {| Ptr.cg_Services := map (fun kv => (kv.1, Some (ptrService kv.2))) (cg_Services callGraph);
     Ptr.Dependencies := map Some (Dependencies callGraph) |}.

Definition ptrServiceMetrics (serviceMetrics : ServiceMetrics) : Ptr.ServiceMetrics :=
  {| Ptr.sm_ServiceName := sm_ServiceName serviceMetrics;
     Ptr.sm_Endpoints := Some <$> sm_Endpoints serviceMetrics |}.

Definition ptrMetricsSnapshot (metricsSnapshot : MetricsSnapshot) : Ptr.MetricsSnapshot :=
  {| Ptr.ms_Services := (fun sm => Some (ptrServiceMetrics sm)) <$> ms_Services metricsSnapshot;
     Ptr.ms_TimeRange := ms_TimeRange metricsSnapshot |}.

(** A walk with fuel that has not run out. *)
Definition fuelled {A} (r : option A) : result A :=
  match r with
  | Some a => Ok a
  | None => OutOfFuel
  end.

(** A walk that has returned with [visited] as it was, or panicked, and
    has not used up its fuel. *)
Definition restores {A} (visited : gset string) (r : result (A * gset string)) : Prop :=
  match r with
  | Ok (_, visited') => visited' = visited
  | Panic => True
  | OutOfFuel => False
  end.

(** ** Specification vocabulary for the graph engine *)

(** [b] follows [a] on a path: some edge leaves a node with the ID of [a]
    and arrives at [b]. *)
Definition hop (g : Graph) (a b : Node) : Prop :=
  ∃ edge, edge ∈ edges g ∧ ID (From edge) = ID a ∧ To edge = b.

Fixpoint isWalk (g : Graph) (p : list Node) : Prop :=
  match p with
  | a :: p' =>
      match p' with
      | b :: _ => hop g a b ∧ isWalk g p'
      | [] => True
      end
  | [] => True
  end.

(** [q] leads from [current] to a node with ID [endID] without repeating
    an ID, without touching [avoid], and with [budget] nodes at most. *)
Definition pathFrom (g : Graph) (endID : string) (avoid : gset string) (budget : Z)
    (current : Node) (q : list Node) : Prop :=
  head q = Some current
  ∧ isWalk g q
  ∧ NoDup (map ID q)
  ∧ (∀ n, n ∈ q → ID n ∉ avoid)
  ∧ ID <$> last q = Some endID
  ∧ Z.of_nat (length q) ≤ budget.

(** A simple path from the node [start] to a node with ID [endID], of at
    most [maxDepth] hops: it begins with [start], each of its nodes is
    joined to the next by an edge, no ID occurs twice, and it ends at
    [endID]. *)
Definition simplePath (g : Graph) (start : Node) (endID : string) (maxDepth : Z)
    (p : list Node) : Prop :=
  head p = Some start
  ∧ isWalk g p
  ∧ NoDup (map ID p)
  ∧ ID <$> last p = Some endID
  ∧ Z.of_nat (length p) - 1 ≤ maxDepth.

(** The edge relation on IDs, and cycles. *)
Definition adj (g : Graph) (u v : string) : Prop :=
  ∃ edge, edge ∈ edges g ∧ ID (From edge) = u ∧ ID (To edge) = v.

Definition cyclic (g : Graph) : Prop := ∃ u, tc (adj g) u u.
Definition acyclic (g : Graph) : Prop := ∀ u, ¬ tc (adj g) u u.

(** What [AddNode] and [AddEdge] maintain when edges are drawn between
    nodes that [AddNode] returned: the keys of [g.nodes] are distinct, a
    node is stored under its own ID, and both ends of an edge are nodes of
    the graph. *)
Record graph_wf (g : Graph) : Prop := {
  wf_keys : NoDup (sm_keys (nodes g));
  wf_ids : ∀ id node, (id, node) ∈ nodes g → ID node = id;
  wf_edges : ∀ edge, edge ∈ edges g →
    (ID (From edge), From edge) ∈ nodes g ∧ (ID (To edge), To edge) ∈ nodes g
}.

(** [u] stands strictly before [v] in [l]. *)
Definition before {A} (l : list A) (u v : A) : Prop :=
  ∃ i j, l !! i = Some u ∧ l !! j = Some v ∧ (i < j)%nat.

(** The IDs of the nodes of the graph. *)
Definition nodeIDs (g : Graph) : gset string := list_to_set (sm_keys (nodes g)).

#[global] Instance Node_eq_dec : EqDecision Node.
Proof. solve_decision. Defined.

#[global] Instance graph_wf_dec (g : Graph) : Decision (graph_wf g).
Proof.
  refine (cast_if (decide
    (NoDup (sm_keys (nodes g))
     ∧ Forall (fun kv => ID kv.2 = kv.1) (nodes g)
     ∧ Forall (fun edge => (ID (From edge), From edge) ∈ nodes g
                           ∧ (ID (To edge), To edge) ∈ nodes g) (edges g)))).
  - destruct a as (Hkeys & Hids & Hedges). split; [done| |].
    + intros id node Hin. exact (proj1 (Forall_forall _ _) Hids (id, node) Hin).
    + intros edge Hin. exact (proj1 (Forall_forall _ _) Hedges edge Hin).
  - intros [Hkeys Hids Hedges]. apply n. split_and!; [done| |].
    + apply Forall_forall. intros [id node] Hin. by apply Hids.
    + apply Forall_forall. intros edge Hin. by apply Hedges.
Defined.

(** The invariant of the finished ("black") nodes of the cycle search:
    their successors are finished, and none of them lies on a cycle. *)
Definition blackInv (g : Graph) (B : gset string) : Prop :=
  (∀ x y, x ∈ B → adj g x y → y ∈ B) ∧ (∀ x, x ∈ B → ¬ tc (adj g) x x).

(** Precondition and postcondition of a call [hasCycleDFS(w)] in state
    [st] with [fuel] levels of nesting left. *)
Definition dfsPre (g : Graph) (fuel : nat) (w : string) (st : dfsState) : Prop :=
  visited st ⊆ nodeIDs g
  ∧ recStack st ⊆ visited st
  ∧ w ∈ nodeIDs g
  ∧ (w ∉ visited st)
  ∧ (size (nodeIDs g ∖ visited st) ≤ fuel)%nat
  ∧ blackInv g (visited st ∖ recStack st)
  ∧ ∀ r, r ∈ recStack st → rtc (adj g) r w.

Definition dfsPost (g : Graph) (w : string) (st : dfsState) (b : bool) (st' : dfsState) : Prop :=
  (b = true → cyclic g)
  ∧ (b = false →
     visited st ⊆ visited st'
     ∧ w ∈ visited st'
     ∧ visited st' ⊆ nodeIDs g
     ∧ recStack st' = recStack st
     ∧ blackInv g (visited st' ∖ recStack st')).

(** What a call of the cycle search comes to on a graph of any shape: it
    panics, or it returns and has forgotten no visited ID; it never runs
    out of fuel. *)
Definition returnsOrPanics {A} (V : gset string) (visitedOf : A → gset string)
    (r : result A) : Prop :=
  match r with
  | Ok a => V ⊆ visitedOf a
  | Panic => True
  | OutOfFuel => False
  end.

(** A list of IDs in which each one has an edge to the next. *)
Fixpoint chained (g : Graph) (c : list string) : Prop :=
  match c with
  | a :: c' =>
      match c' with
      | b :: _ => adj g a b ∧ chained g c'
      | [] => True
      end
  | [] => True
  end.

(** The number of edges into [v]; the number of those that leave a node
    outside [done]. *)
Definition indeg (es : list Edge) (v : string) : Z :=
  Z.of_nat (length (filter (fun e => ID (To e) = v) es)).

Definition pending (g : Graph) (done : list string) (v : string) : Z :=
  Z.of_nat (length (filter (fun e => ID (To e) = v ∧ ID (From e) ∉ done) (edges g))).

(** In a list of IDs, the source of every edge stands before its target. *)
Definition orderedIDs (g : Graph) (l : list string) : Prop :=
  ∀ e i, e ∈ edges g → l !! i = Some (ID (To e)) →
    ∃ j, (j < i)%nat ∧ l !! j = Some (ID (From e)).

(** The invariant of Kahn's loop; [rest] are the edges that the inner
    loop has still to take off (none between two rounds). *)
Definition kahnInv (g : Graph) (sorted queue : list Node) (rest : list Edge)
    (inDegree : smap Z) : Prop :=
  NoDup (map ID (sorted ++ queue))
  ∧ (∀ n, n ∈ sorted ++ queue → (ID n, n) ∈ nodes g)
  ∧ (∀ v, v ∈ nodeIDs g → degree inDegree v = pending g (map ID sorted) v + indeg rest v)
  ∧ (∀ v, v ∈ nodeIDs g → v ∈ map ID (sorted ++ queue) ↔ degree inDegree v = 0)
  ∧ orderedIDs g (map ID (sorted ++ queue)).

(** ** Specification vocabulary for the cost engine *)

(** [cpu + memory + network + disk + request], as Go adds them. *)
Definition breakdownSum (cb : CostBreakdown) : float :=
  (CPUCost cb + MemoryCost cb + NetworkCost cb + DiskCost cb + cb_RequestCost cb)%float.

(** The key under which the engine files an endpoint. *)
Definition endpointKey (endpoint : Endpoint) : string :=
  colonKey (ep_Path endpoint) (ep_Method endpoint).


(** What the first loop establishes for an endpoint cost. *)
Definition directConsistent (ec : EndpointCost) : Prop :=
  match ec_CostBreakdown ec with
  | Some cb => ec_DirectCost ec = breakdownSum cb
  | None => ec_DirectCost ec = 0%float
  end.

(** What the second loop establishes for an endpoint cost. *)
Definition finalized (ec : EndpointCost) : Prop :=
  ec_TotalCost ec = (ec_DirectCost ec + sumDownstream (DownstreamCosts ec))%float
  ∧ match ec_CostBreakdown ec with
    | Some cb =>
        DownstreamTotal cb = sumDownstream (DownstreamCosts ec)
        ∧ cb_Total cb = ec_TotalCost ec
    | None => True
    end.

(** Every endpoint cost filed under every service cost is finished. *)
Definition allFinalized (services : smap ServiceCost) : Prop :=
  ∀ name sc key ec,
    (name, sc) ∈ services → (key, ec) ∈ sc_Endpoints sc →
    directConsistent ec ∧ finalized ec.

(** The direct cost filed under a key, 0 when there is none. *)
Definition directCostAt (endpointCosts : smap EndpointCost) (key : string) : float :=
  match sm_get endpointCosts key with
  | Some ec => ec_DirectCost ec
  | None => 0%float
  end.

(** The direct cost that the walk reads for the target of [dep]: the one
    filed under the target path with method GET. *)
Definition targetDirectCost (endpointCosts : smap EndpointCost) (dep : Dependency) : float :=
  directCostAt endpointCosts (colonKey (ToEndpoint dep) "GET").

(** The cost of the entry for the chain [d1; ...; dk]: the direct cost
    read for the target of [dk], times [wk], ..., times [w1]. *)
Fixpoint chainCost (endpointCosts : smap EndpointCost) (chain : list Dependency) : float :=
  match chain with
  | [] => 0%float
  | dep :: rest =>
      match rest with
      | [] => (targetDirectCost endpointCosts dep * dep_Weight dep)%float
      | _ :: _ => (chainCost endpointCosts rest * dep_Weight dep)%float
      end
  end.

(** [chain] is a dependency chain that leaves the endpoint [path] of
    [service]: each dependency leaves the GET endpoint found at the target
    of the one before. *)
Fixpoint chainFrom (callGraph : CallGraph) (service path : string) (chain : list Dependency)
    : Prop :=
  match chain with
  | [] => False
  | dep :: rest =>
      dep ∈ Dependencies callGraph
      ∧ FromService dep = service
      ∧ FromEndpoint dep = path
      ∧ match rest with
        | [] => True
        | _ :: _ =>
            ∃ targetService targetEndpoint,
              GetService callGraph (ToService dep) = Some targetService
              ∧ GetEndpoint targetService (ToEndpoint dep) "GET" = Some targetEndpoint
              ∧ chainFrom callGraph (ep_Service targetEndpoint) (ep_Path targetEndpoint) rest
        end
  end.

(** [entry] is the entry of a chain that leaves [service]/[path], found by
    a walk that started at depth [depth]. *)
Definition entryFor (callGraph : CallGraph) (endpointCosts : smap EndpointCost)
    (service path : string) (depth : Z) (entry : DownstreamCost) : Prop :=
  ∃ chain final,
    chainFrom callGraph service path chain
    ∧ last chain = Some final
    ∧ Depth entry = depth + Z.of_nat (length chain)
    ∧ Depth entry ≤ maxDepth + 1
    ∧ dc_Service entry = ToService final
    ∧ dc_Endpoint entry = ToEndpoint final
    ∧ CallsPerRequest entry = dep_Weight final
    ∧ dc_Cost entry = chainCost endpointCosts chain.

(** Every downstream entry of [ec], filed under [key], is the entry of a
    chain that leaves one of [eps] with that key. *)
Definition chainsOf (callGraph : CallGraph) (endpointCosts : smap EndpointCost)
    (eps : list Endpoint) (key : string) (ec : EndpointCost) : Prop :=
  ∀ entry, entry ∈ DownstreamCosts ec →
    ∃ endpoint,
      endpoint ∈ eps ∧ endpointKey endpoint = key
      ∧ entryFor callGraph endpointCosts (ep_Service endpoint) (ep_Path endpoint) 0 entry.

(** ** Worked examples *)

(** [float64] of an [int64] below 2^53 in absolute value. *)
Definition floatOfZ (z : Z) : float :=
  if z <? 0 then (- of_uint63 (Uint63.of_Z (- z)))%float else of_uint63 (Uint63.of_Z z).

(** [End.Sub(Start).Hours()] with the instants in nanoseconds: [Sub]
    gives an [int64] of nanoseconds and stops at its largest and smallest
    value; [Hours] adds the whole hours and the fraction of the rest. *)
Definition hoursBetween (tr : TimeRange) : float :=
  let d := Z.max (- 2 ^ 63) (Z.min (2 ^ 63 - 1) (End_ tr - Start tr)) in
  (floatOfZ (Z.quot d 3600000000000) + floatOfZ (Z.rem d 3600000000000) / 3600000000000)%float.

(** Stand-ins in the examples: the number format is not spelled out, and
    [range] visits a map in the order in which it was filled. *)
Definition exampleLib : GoLib :=
  {| Sprintf4f := fun _ => "%.4f";
     Hours := hoursBetween;
     rangeOrder := fun _ m => m;
     rangeOrder_perm := fun _ m => Permutation_refl m |}.

Definition oneHour : TimeRange := {| Start := 0; End_ := 3600000000000 |}.

(** The figures of [TestNewCostBreakdown]. *)
Definition testResource : ResourceMetrics :=
  {| CPUCores := 2; MemoryMB := 2048; NetworkInMB := 100; NetworkOutMB := 50;
     DiskReadMB := 0; DiskWriteMB := 0 |}.
Definition testPerformance : PerformanceMetrics := {| RequestRate := 100; ErrorRate := 0 |}.
Definition testModel : CostModel :=
  {| CPUCostPerCoreHour := 0.05; MemoryCostPerGBHour := 0.01; NetworkCostPerGB := 0.09;
     DiskCostPerGBHour := 0; cm_RequestCost := 0.0000002; Provider := "aws"; Region := "" |}.
Definition testCalculator : Calculator := {| costModel := testModel |}.
Definition testEndpoint : Endpoint :=
  {| ep_Path := "/api/test"; ep_Method := "GET"; ep_Service := "test-service" |}.
Definition testServiceMetrics : ServiceMetrics :=
  {| sm_ServiceName := "test-service";
     sm_Endpoints :=
       {[ "/api/test:GET" :=
            {| em_Service := "test-service"; em_Endpoint := "/api/test"; em_Method := "GET";
               Resource := Some testResource; Performance := Some testPerformance |} ]} |}.

(** A price list that charges one unit per core-hour and nothing else, and
    metrics that use [cores] cores. *)
Definition cpuOnlyModel : CostModel :=
  {| CPUCostPerCoreHour := 1; MemoryCostPerGBHour := 0; NetworkCostPerGB := 0;
     DiskCostPerGBHour := 0; cm_RequestCost := 0; Provider := "aws"; Region := "" |}.
Definition cpuOnlyCalculator : Calculator := {| costModel := cpuOnlyModel |}.
Definition coresMetrics (service path : string) (cores : float) : EndpointMetrics :=
  {| em_Service := service; em_Endpoint := path; em_Method := "GET";
     Resource := Some {| CPUCores := cores; MemoryMB := 0; NetworkInMB := 0; NetworkOutMB := 0;
                         DiskReadMB := 0; DiskWriteMB := 0 |};
     Performance := None |}.
Definition getEndpoint (service path : string) : Endpoint :=
  {| ep_Path := path; ep_Method := "GET"; ep_Service := service |}.
Definition dependency (fromService fromEndpoint toService toEndpoint : string) (w : float)
    : Dependency :=
  {| FromService := fromService; FromEndpoint := fromEndpoint;
     ToService := toService; ToEndpoint := toEndpoint; CallType := "http"; dep_Weight := w |}.

(** Three services of one endpoint each, costing 10, 20 and 15.5. *)
Definition threeServices : CallGraph :=
  {| cg_Services :=
       [("service-1", {| Name := "service-1"; Path := ""; Endpoints := [getEndpoint "service-1" "/"] |});
        ("service-2", {| Name := "service-2"; Path := ""; Endpoints := [getEndpoint "service-2" "/"] |});
        ("service-3", {| Name := "service-3"; Path := ""; Endpoints := [getEndpoint "service-3" "/"] |})];
     Dependencies := [] |}.
Definition threeServicesMetrics : MetricsSnapshot :=
  {| ms_Services :=
       {[ "service-1" := {| sm_ServiceName := "service-1";
                            sm_Endpoints := {[ "/:GET" := coresMetrics "service-1" "/" 10 ]} |};
          "service-2" := {| sm_ServiceName := "service-2";
                            sm_Endpoints := {[ "/:GET" := coresMetrics "service-2" "/" 20 ]} |};
          "service-3" := {| sm_ServiceName := "service-3";
                            sm_Endpoints := {[ "/:GET" := coresMetrics "service-3" "/" 15.5 ]} |} ]};
     ms_TimeRange := oneHour |}.

(** One service: [/a] calls [/b] five times, [/c] calls [/b] six times;
    every endpoint costs 1 by itself. *)
Definition fanOut : CallGraph :=
  {| cg_Services :=
       [("api", {| Name := "api"; Path := "";
                   Endpoints := [getEndpoint "api" "/a"; getEndpoint "api" "/b"; getEndpoint "api" "/c"] |})];
     Dependencies := [dependency "api" "/a" "api" "/b" 5; dependency "api" "/c" "api" "/b" 6] |}.
Definition fanOutMetrics : MetricsSnapshot :=
  {| ms_Services :=
       {[ "api" := {| sm_ServiceName := "api";
                      sm_Endpoints := {[ "/a:GET" := coresMetrics "api" "/a" 1;
                                         "/b:GET" := coresMetrics "api" "/b" 1;
                                         "/c:GET" := coresMetrics "api" "/c" 1 ]} |} ]};
     ms_TimeRange := oneHour |}.

(** Two services: [frontend:/home] calls [backend:/api] three times per
    request; [/home] costs 1 and [/api] costs 2 by itself. *)
Definition crossService : CallGraph :=
  {| cg_Services :=
       [("backend", {| Name := "backend"; Path := ""; Endpoints := [getEndpoint "backend" "/api"] |});
        ("frontend", {| Name := "frontend"; Path := ""; Endpoints := [getEndpoint "frontend" "/home"] |})];
     Dependencies := [dependency "frontend" "/home" "backend" "/api" 3] |}.
Definition crossServiceMetrics : MetricsSnapshot :=
  {| ms_Services :=
       {[ "backend" := {| sm_ServiceName := "backend";
                          sm_Endpoints := {[ "/api:GET" := coresMetrics "backend" "/api" 2 ]} |};
          "frontend" := {| sm_ServiceName := "frontend";
                           sm_Endpoints := {[ "/home:GET" := coresMetrics "frontend" "/home" 1 ]} |} ]};
     ms_TimeRange := oneHour |}.

(** One service with the chain [/a -> /b -> /c], weights 2 and 3; [/b]
    costs 5 and [/c] costs 7 by itself. *)
Definition chain : CallGraph :=
  {| cg_Services :=
       [("api", {| Name := "api"; Path := "";
                   Endpoints := [getEndpoint "api" "/a"; getEndpoint "api" "/b"; getEndpoint "api" "/c"] |})];
     Dependencies := [dependency "api" "/a" "api" "/b" 2; dependency "api" "/b" "api" "/c" 3] |}.
Definition chainMetrics : MetricsSnapshot :=
  {| ms_Services :=
       {[ "api" := {| sm_ServiceName := "api";
                      sm_Endpoints := {[ "/a:GET" := coresMetrics "api" "/a" 1;
                                         "/b:GET" := coresMetrics "api" "/b" 5;
                                         "/c:GET" := coresMetrics "api" "/c" 7 ]} |} ]};
     ms_TimeRange := oneHour |}.

(** One service: [GET /a] calls [/b] twice, and [/b] is served by POST
    only; [/b] costs 5 by itself. *)
Definition postTarget : CallGraph :=
  {| cg_Services :=
       [("api", {| Name := "api"; Path := "";
                   Endpoints := [getEndpoint "api" "/a";
                                 {| ep_Path := "/b"; ep_Method := "POST"; ep_Service := "api" |}] |})];
     Dependencies := [dependency "api" "/a" "api" "/b" 2] |}.
Definition postTargetMetrics : MetricsSnapshot :=
  {| ms_Services :=
       {[ "api" := {| sm_ServiceName := "api";
                      sm_Endpoints := {[ "/a:GET" := coresMetrics "api" "/a" 1;
                                         "/b:POST" := coresMetrics "api" "/b" 5 ]} |} ]};
     ms_TimeRange := oneHour |}.

(** [a:/x] and [b:/y] call each other, and [a:/x] also calls [c:/z]. *)
Definition pingPong : CallGraph :=
  {| cg_Services :=
       [("a", {| Name := "a"; Path := ""; Endpoints := [getEndpoint "a" "/x"] |});
        ("b", {| Name := "b"; Path := ""; Endpoints := [getEndpoint "b" "/y"] |})];
     Dependencies :=
       [dependency "a" "/x" "b" "/y" 1; dependency "b" "/y" "a" "/x" 1;
        dependency "a" "/x" "c" "/z" 1] |}.

(** The graph of the integration test: frontend -> api-gateway ->
    {auth, user, payment}, payment -> {inventory, notification}. *)
Definition microservices : Graph :=
  let '(g, frontend) := AddNode NewGraph "frontend" "frontend" "/" "GET" in
  let '(g, apiGateway) := AddNode g "api-gateway" "api-gateway" "/api" "GET" in
  let '(g, auth) := AddNode g "auth" "auth" "/verify" "POST" in
  let '(g, user) := AddNode g "user" "user" "/profile" "GET" in
  let '(g, payment) := AddNode g "payment" "payment" "/pay" "POST" in
  let '(g, inventory) := AddNode g "inventory" "inventory" "/check" "GET" in
  let '(g, notification) := AddNode g "notification" "notification" "/send" "POST" in
  let '(g, _) := AddEdge g frontend apiGateway 1 in
  let '(g, _) := AddEdge g apiGateway auth 1 in
  let '(g, _) := AddEdge g apiGateway user 1 in
  let '(g, _) := AddEdge g apiGateway payment 1 in
  let '(g, _) := AddEdge g payment inventory 1 in
  let '(g, _) := AddEdge g payment notification 1 in
  g.

(** The graph of [TestTopologicalSortWithCycle]. *)
Definition twoCycle : Graph :=
  let '(g, node1) := AddNode NewGraph "node1" "service1" "/api/test" "GET" in
  let '(g, node2) := AddNode g "node2" "service2" "/api/other" "GET" in
  let '(g, _) := AddEdge g node1 node2 1 in
  let '(g, _) := AddEdge g node2 node1 1 in
  g.

(** The graph of [TestFindAllPaths]: two paths from node1 to node4. *)
Definition diamond : Graph :=
  let '(g, node1) := AddNode NewGraph "node1" "service1" "/api/test" "GET" in
  let '(g, node2) := AddNode g "node2" "service2" "/api/other" "GET" in
  let '(g, node3) := AddNode g "node3" "service3" "/api/third" "GET" in
  let '(g, node4) := AddNode g "node4" "service4" "/api/fourth" "GET" in
  let '(g, _) := AddEdge g node1 node2 1 in
  let '(g, _) := AddEdge g node2 node4 1 in
  let '(g, _) := AddEdge g node1 node3 1 in
  let '(g, _) := AddEdge g node3 node4 1 in
  g.

(** A graph with one node and an edge that arrives at it from a node that
    was never added: [AddEdge] takes any two node pointers. *)
Definition danglingEdge : Graph :=
  let '(g, target) := AddNode NewGraph "target" "service1" "/api/test" "GET" in
  let stray := {| ID := "stray"; nd_Service := "service2"; nd_Endpoint := "/api/other";
                  nd_Method := "GET" |} in
  let '(g, _) := AddEdge g stray target 1 in
  g.

(** A call graph as [loadCallGraph] decodes it: one service with one
    endpoint, whose [Service] is nil. *)
Definition decodedCallGraph : Ptr.CallGraph :=
  {| Ptr.cg_Services :=
       [("api", Some {| Ptr.Name := "api"; Ptr.Path := "./api";
                        Ptr.Endpoints :=
                          [Some {| Ptr.ep_Path := "/a"; Ptr.ep_Method := "GET";
                                   Ptr.ep_Service := None |}] |})];
     Ptr.Dependencies := [] |}.

Definition noMetrics : Ptr.MetricsSnapshot :=
  {| Ptr.ms_Services := ∅; Ptr.ms_TimeRange := oneHour |}.

(** ** internal/analyzer: the graph builder *)

(** [fmt.Sprintf("%s:%s:%s", service, path, method)] *)
Definition nodeKey (service path method : string) : string :=
  service +:+ ":" +:+ path +:+ ":" +:+ method.

(** The inner loop of the first part of [buildGraphStructure]: one node
    per endpoint of [service]. *)
Definition addEndpointNodes (g : Graph) (service : Service) : Graph :=
  fold_left
    (fun g endpoint =>
       (AddNode g (nodeKey (Name service) (ep_Path endpoint) (ep_Method endpoint))
          (Name service) (ep_Path endpoint) (ep_Method endpoint)).1)
    (Endpoints service) g.

(** The body of the loop over the dependencies: both ends are looked up
    first, a missing end is added as a virtual node, and the edge is
    drawn. *)
Definition addDependencyEdge (g : Graph) (dep : Dependency) : Graph :=
  let fromID := nodeKey (FromService dep) (FromEndpoint dep) "GET" in
  let toID := nodeKey (ToService dep) (ToEndpoint dep) "GET" in
  let fromFound := GetNode g fromID in
  let toFound := GetNode g toID in
  let '(g, fromNode) :=
    match fromFound with
    | Some node => (g, node)
    | None => AddNode g fromID (FromService dep) (FromEndpoint dep) "GET"
    end in
  let '(g, toNode) :=
    match toFound with
    | Some node => (g, node)
    | None => AddNode g toID (ToService dep) (ToEndpoint dep) "GET"
    end in
  (AddEdge g fromNode toNode (dep_Weight dep)).1.

(** [buildGraphStructure] on the builder's call graph and graph; the
    answer of [HasCycle] only decides whether a warning is logged. *)
Definition buildGraphStructure (callGraph : CallGraph) (g : Graph) : result Graph :=
  let g := fold_left addEndpointNodes (sm_values (cg_Services callGraph)) g in
  let g := fold_left addDependencyEdge (Dependencies callGraph) g in
  match HasCycle g with
  | Ok _ => Ok g
  | Panic => Panic
  | OutOfFuel => OutOfFuel
  end.

(** The ends and the weight of an edge, and those that
    [buildGraphStructure] gives the edge of a dependency. *)
Definition edgeEnds (edge : Edge) : string * string * float :=
  (ID (From edge), ID (To edge), Weight edge).

Definition dependencyEnds (dep : Dependency) : string * string * float :=
  (nodeKey (FromService dep) (FromEndpoint dep) "GET",
   nodeKey (ToService dep) (ToEndpoint dep) "GET",
   dep_Weight dep).



(** The IDs of the two ends of an edge: two edges with the same pair are
    parallel. *)
Definition edgeIDs (edge : Edge) : string * string := (ID (From edge), ID (To edge)).

(** ** Go's [strings] package, as far as the analyzer uses it *)

(** [strings.Split(s, sep)] for a separator of one byte. *)
Fixpoint Split (s : string) (sep : Ascii.ascii) : list string :=
  match s with
  | EmptyString => [EmptyString]
  | String c s' =>
      if Ascii.eqb c sep then EmptyString :: Split s' sep
      else
        match Split s' sep with
        | part :: parts => String c part :: parts
        | [] => [String c EmptyString]
        end
  end.

(** [strings.Join(elems, sep)] *)
Fixpoint Join (elems : list string) (sep : string) : string :=
  match elems with
  | [] => EmptyString
  | [elem] => elem
  | elem :: elems' => elem +:+ sep +:+ Join elems' sep
  end.

(** [strings.HasSuffix(s, suffix)]:
    [len(s) >= len(suffix) && s[len(s)-len(suffix):] == suffix] *)
Definition HasSuffix (s suffix : string) : bool :=
  (String.length suffix <=? String.length s)%nat
  && String.eqb (String.substring (String.length s - String.length suffix) (String.length suffix) s)
       suffix.

(** The number of bytes [c] in [s]: used to state how many parts [Split]
    returns; the source does not call it. *)
Fixpoint Count (s : string) (c : Ascii.ascii) : nat :=
  match s with
  | EmptyString => 0
  | String c' s' => (if Ascii.eqb c' c then 1 else 0) + Count s' c
  end.

(** ** internal/analyzer: the HTTP detector *)

(** No byte of [s] is a slash. *)
Fixpoint slashFree (s : string) : bool :=
  match s with
  | EmptyString => true
  | String c s' => negb (Ascii.eqb c "/") && slashFree s'
  end.

Definition extractEndpointFromURL (url : string) : string :=
  let parts := Split url "/"%char in
  if (3 <? length parts)%nat then "/" +:+ Join (drop 3 parts) "/" else "/".

(** ** internal/analyzer: which files are read *)

(** [Scanner.shouldIncludeFile] on [info.Name()]. *)
Definition shouldIncludeFile (includeTests : bool) (name : string) : bool :=
  if negb includeTests && HasSuffix name "_test.go" then false else true.

(** The test of the walk of [detectDependencies] on [base = filepath.Base(path)]:
    [!IncludeTests && base == base[:len(base)-3]+"_test.go"].  The slice
    expression panics on a name of fewer than three bytes; the walk only
    gets here with a name that ends in [.go]. *)
Definition skipsTestFile (includeTests : bool) (base : string) : result bool :=
  if negb includeTests then
    if (String.length base <? 3)%nat then Panic
    else Ok (String.eqb base (String.substring 0 (String.length base - 3) base +:+ "_test.go"))
  else Ok false.

(** ** internal/analyzer: the scanner *)

(** What the scanner takes from Go's libraries: [strings.ToLower],
    [filepath.Dir] and [filepath.Base]. *)
Class ScanLib := {
  ToLower : string -> string;
  Dir : string -> string;
  Base : string -> string
}.

Definition extractServiceName `{ScanLib} (fileName basePath : string) : string :=
  let dir := Dir fileName in
  let serviceName := Base dir in
  if String.eqb serviceName "." || String.eqb serviceName "/" then Base basePath
  else serviceName.

(** [s.services] is the state; the [Dependencies] and [Metadata] of a
    service are left out. *)
Definition registerService `{ScanLib} (services : smap Service)
    (name fileName basePath : string) : smap Service :=
  let serviceName := extractServiceName fileName basePath in
  match sm_get services serviceName with
  | Some _ => services
  | None =>
      sm_set services serviceName {| Name := serviceName; Path := basePath; Endpoints := [] |}
  end.

(** [service := s.services[serviceName]] is nil when the key is missing,
    and [service.AddEndpoint] then writes through nil. *)
Definition registerEndpoint `{ScanLib} (services : smap Service)
    (funcName endpointType fileName basePath : string) : result (smap Service) :=
  let serviceName := extractServiceName fileName basePath in
  let services :=
    match sm_get services serviceName with
    | Some _ => services
    | None => registerService services serviceName fileName basePath
    end in
  match sm_get services serviceName with
  | Some service =>
      let endpoint :=
        {| ep_Path := "/" +:+ ToLower funcName; ep_Method := "GET"; ep_Service := Name service |} in
      Ok (sm_set services serviceName (AddEndpoint service endpoint))
  | None => Panic
  end.

(** What holds of the services that the scanner has registered: each is
    filed under its name, and each of its endpoints is a [GET] endpoint
    whose path starts with a slash and which points back to the service. *)
Definition scanned (services : smap Service) : Prop :=
  NoDup (sm_keys services)
  ∧ ∀ name service, (name, service) ∈ services →
      Name service = name
      ∧ ∀ endpoint, endpoint ∈ Endpoints service →
          ep_Method endpoint = "GET"
          ∧ ep_Service endpoint = name
          ∧ String.prefix "/" (ep_Path endpoint) = true.

(** ** pkg/config *)

(** The durations and the custom queries of [PrometheusConfig] and the
    AWS, server and logging sections are left out. *)
Record AnalysisConfig := {
  Paths : list string;
  Excludes : list string;
  IncludeTests : bool;
  FollowImports : bool;
  MaxDepth : Z;
  ServicePatterns : list string
}.

Record PrometheusConfig := { URL : string }.

Record CostModelConfig := {
  cfg_Provider : string;
  cfg_Region : string;
  cfg_CPUCostPerCoreHour : float;
  cfg_MemoryCostPerGBHour : float;
  cfg_NetworkCostPerGB : float;
  cfg_DiskCostPerGBHour : float;
  cfg_RequestCost : float
}.

Record OutputConfig := {
  Format : string;
  OutputPath : string;
  IncludeMetrics : bool;
  IncludeCosts : bool;
  TopN : Z;
  ColorEnabled : bool
}.

Record Config := {
  Analysis : AnalysisConfig;
  Prometheus : PrometheusConfig;
  cfg_CostModel : CostModelConfig;
  Output : OutputConfig
}.

Definition DefaultConfig : Config :=
  {| Analysis :=
       {| Paths := ["./"];
          Excludes := ["vendor"; "node_modules"; ".git"];
          IncludeTests := false;
          FollowImports := true;
          MaxDepth := 10;
          ServicePatterns := ["*service*"; "*handler*"; "*controller*"] |};
     Prometheus := {| URL := "http://localhost:9090" |};
     cfg_CostModel :=
       {| cfg_Provider := "aws";
          cfg_Region := "us-east-1";
          cfg_CPUCostPerCoreHour := 0.0416;
          cfg_MemoryCostPerGBHour := 0.0052;
          cfg_NetworkCostPerGB := 0.09;
          cfg_DiskCostPerGBHour := 0.10;
          cfg_RequestCost := 0.0000002 |};
     Output :=
       {| Format := "ascii";
          OutputPath := "./output";
          IncludeMetrics := true;
          IncludeCosts := true;
          TopN := 10;
          ColorEnabled := true |} |}.

(** [Validate] writes into the configuration it is called on: the first
    component is the configuration after the call, the second the error
    ([None] is nil). *)
Definition Validate (c : Config) : Config * option string :=
  if (length (Paths (Analysis c)) =? 0)%nat then (c, Some "analysis paths cannot be empty")
  else if String.eqb (URL (Prometheus c)) "" then (c, Some "prometheus URL is required")
  else if String.eqb (cfg_Provider (cfg_CostModel c)) ""
  then (c, Some "cost model provider is required")
  else
    let output :=
      if TopN (Output c) <? 1 then
        {| Format := Format (Output c);
           OutputPath := OutputPath (Output c);
           IncludeMetrics := IncludeMetrics (Output c);
           IncludeCosts := IncludeCosts (Output c);
           TopN := 10;
           ColorEnabled := ColorEnabled (Output c) |}
      else Output c in
    let analysis :=
      if MaxDepth (Analysis c) <? 1 then
        {| Paths := Paths (Analysis c);
           Excludes := Excludes (Analysis c);
           IncludeTests := IncludeTests (Analysis c);
           FollowImports := FollowImports (Analysis c);
           MaxDepth := 10;
           ServicePatterns := ServicePatterns (Analysis c) |}
      else Analysis c in
    ({| Analysis := analysis;
        Prometheus := Prometheus c;
        cfg_CostModel := cfg_CostModel c;
        Output := output |}, None).

(** ** pkg/models: building a call graph *)

(** [GeneratedAt] and [Metadata] are left out. *)
Definition NewCallGraph : CallGraph := {| cg_Services := []; Dependencies := [] |}.

Definition AddService (cg : CallGraph) (service : Service) : CallGraph :=
  {| cg_Services := sm_set (cg_Services cg) (Name service) service;
     Dependencies := Dependencies cg |}.

(** The first loop of [GraphBuilder.Build]:
    [for _, service := range services { gb.callGraph.AddService(service) }] *)
Definition addServices (services : smap Service) (cg : CallGraph) : CallGraph :=
  fold_left AddService (sm_values services) cg.

(** Stand-ins for the library functions of the scanner on the paths of the
    examples: the last element of a slash-separated path, what stands
    before it, and no change of case. *)
Definition exampleScanLib : ScanLib :=
  {| ToLower := fun s => s;
     Dir := fun path => Join (removelast (Split path "/")) "/";
     Base := fun path => List.last (Split path "/") "" |}.

(** ** internal/visualizer: the dependency tree *)

(** What the renderer takes from libraries: the lipgloss styles of the
    header and of a service name (used when colours are on), and the
    ["%.1f"] verb of [fmt.Sprintf]. *)
Class RenderLib := {
  headerStyle : string -> string;
  serviceNameStyle : string -> string;
  Sprintf1f : float -> string
}.

Record ASCIIRenderer := { colorEnabled : bool }.

Definition renderHeader `{RenderLib} (ar : ASCIIRenderer) (title : string) : string :=
  if negb (colorEnabled ar) then "=== " +:+ title +:+ " ===" else headerStyle title.

Definition styleServiceName `{RenderLib} (ar : ASCIIRenderer) (name : string) : string :=
  if negb (colorEnabled ar) then "▶ " +:+ name else serviceNameStyle ("▶ " +:+ name).

(** [fmt.Sprintf("%s (%s, weight: %.1f)\n", dep.ToEndpoint, dep.CallType, dep.Weight)] *)
Definition dependencyLine `{RenderLib} (dep : Dependency) : string :=
  ToEndpoint dep +:+ " (" +:+ CallType dep +:+ ", weight: " +:+ Sprintf1f (dep_Weight dep)
  +:+ ")" +:+ String "010" "".

(** The text written so far and the [visited] map. *)
Definition treeState : Type := string * gset string.

(** The loop of [renderTreeNode] over [deps]; [recur] is the recursive
    call. *)
Fixpoint treeLoop `{RenderLib} (recur : string -> string -> treeState -> option treeState)
    (prefix : string) (deps : list Dependency) (st : treeState) : option treeState :=
  match deps with
  | [] => Some st
  | dep :: deps' =>
      let isLast := match deps' with [] => true | _ :: _ => false end in
      let branch := if isLast then prefix +:+ "  └─ " else prefix +:+ "  ├─ " in
      let newPrefix := if isLast then prefix +:+ "     " else prefix +:+ "  │  " in
      match recur (ToService dep) newPrefix (st.1 +:+ branch +:+ dependencyLine dep, st.2) with
      | Some st' => treeLoop recur prefix deps' st'
      | None => None
      end
  end.

(** [None] is "out of fuel"; the deferred [visited[serviceName] = false]
    runs when the loop is over. *)
Fixpoint renderTreeNode `{RenderLib} (fuel : nat) (ar : ASCIIRenderer) (cg : CallGraph)
    (serviceName prefix : string) (depth maxDepth : Z) (st : treeState) : option treeState :=
  match fuel with
  | O => None
  | S fuel' =>
      if (maxDepth <? depth) || bool_decide (serviceName ∈ st.2) then
        if bool_decide (serviceName ∈ st.2)
        then Some (st.1 +:+ prefix +:+ "  (circular reference)" +:+ String "010" "", st.2)
        else Some st
      else
        let visited := {[serviceName]} ∪ st.2 in
        let sb := st.1 +:+ prefix +:+ styleServiceName ar serviceName +:+ String "010" "" in
        let deps := filter (fun dep => FromService dep = serviceName) (Dependencies cg) in
        match
          treeLoop
            (fun service newPrefix st' =>
               renderTreeNode fuel' ar cg service newPrefix (depth + 1) maxDepth st')
            prefix deps (sb, visited)
        with
        | Some (sb, visited) => Some (sb, visited ∖ {[serviceName]})
        | None => None
        end
  end.

(** The recursion stops at depth 6, so seven units of fuel suffice. *)
Definition RenderDependencyTree `{RenderLib} (ar : ASCIIRenderer) (callGraph : CallGraph)
    (rootService : string) : option string :=
  let sb := renderHeader ar ("DEPENDENCY TREE: " +:+ rootService) +:+ String "010" (String "010" "") in
  match renderTreeNode 7 ar callGraph rootService "" 0 5 (sb, ∅) with
  | Some (sb, _) => Some sb
  | None => None
  end.

(** Stand-ins for the styles and the number format in the examples. *)
Definition exampleRenderLib : RenderLib :=
  {| headerStyle := fun title => title;
     serviceNameStyle := fun name => name;
     Sprintf1f := fun _ => "%.1f" |}.

Definition plainRenderer : ASCIIRenderer := {| colorEnabled := false |}.

(** The lines of the dependencies [deps] of a service that is drawn with
    [prefix]: for each dependency, in the order of the list, its branch
    line and then the text of its target, which [subtree] gives for the
    target service and the prefix of the target's lines. *)
Fixpoint branches `{RenderLib} (subtree : string -> string -> string) (prefix : string)
    (deps : list Dependency) : string :=
  match deps with
  | [] => ""
  | dep :: deps' =>
      let isLast := match deps' with [] => true | _ :: _ => false end in
      (if isLast then prefix +:+ "  └─ " else prefix +:+ "  ├─ ")
      +:+ dependencyLine dep
      +:+ subtree (ToService dep) (if isLast then prefix +:+ "     " else prefix +:+ "  │  ")
      +:+ branches subtree prefix deps'
  end.

(** A text from its lines. *)
Definition unlines (lines : list string) : string :=
  fold_right (fun line text => line +:+ String "010" text) "" lines.

(** [a] does not cost less than [b]: Go's [b.TotalCost > a.TotalCost] is
    false. *)
Definition costlierFirst (a b : EndpointCost) : Prop :=
  (ec_TotalCost a <? ec_TotalCost b)%float = false.

(** ** internal/visualizer: the top endpoints of a service *)

(** [getTopNEndpoints]: the loops are those of [findTopCostlyEndpoints],
    over the endpoint costs of one service.  [list[:n]] panics when [n] is
    negative. *)
Definition getTopNEndpoints (endpoints : smap EndpointCost) (n : Z)
    : result (list EndpointCost) :=
  let list := sm_values endpoints in
  let sorted := bubbleSort (length list - 1) list in
  if n <? Z.of_nat (length sorted) then
    if n <? 0 then Panic else Ok (take (Z.to_nat n) sorted)
  else Ok sorted.

(** The direct costs of the endpoints of a service, added in the order of
    the first loop of [CalculateCosts]. *)
Definition sumDirect (c : Calculator) (serviceMetrics : option ServiceMetrics)
    (durationHours : float) (eps : list Endpoint) : float :=
  fold_left
    (fun total endpoint =>
       (total + ec_DirectCost (calculateEndpointCost c endpoint serviceMetrics durationHours))%float)
    eps 0%float.

(** What the two loops over the endpoints leave in [CostPerRequest]: the
    total cost per request, or 0 when there was no request. *)
Definition perRequest (ec : EndpointCost) : Prop :=
  CostPerRequest ec
  = if (0 <? RequestCount ec)%float then (ec_TotalCost ec / RequestCount ec)%float
    else 0%float.

(** The report of the fan-out example. *)
Definition fanOutReport : CostReport :=
  match CalculateCosts (H := exampleLib) cpuOnlyCalculator fanOut fanOutMetrics oneHour with
  | Some (report, _) => report
  | None => NewCostReport cpuOnlyModel oneHour
  end.

(** One service with the endpoint and the metrics of [TestNewCostBreakdown]. *)
Definition testCallGraph : CallGraph :=
  {| cg_Services :=
       [("test-service",
         {| Name := "test-service"; Path := ""; Endpoints := [testEndpoint] |})];
     Dependencies := [] |}.
Definition testSnapshot : MetricsSnapshot :=
  {| ms_Services := {[ "test-service" := testServiceMetrics ]}; ms_TimeRange := oneHour |}.

(** The entry that the walk at [depth] writes for a dependency that
    leaves its endpoint. *)
Definition directEntry (endpointCosts : smap EndpointCost) (depth : Z) (dep : Dependency)
    : DownstreamCost :=
  {| dc_Service := ToService dep;
     dc_Endpoint := ToEndpoint dep;
     dc_Cost := (targetDirectCost endpointCosts dep * dep_Weight dep)%float;
     CallsPerRequest := dep_Weight dep;
     Depth := depth + 1 |}.

(** * Properties *)

(** ** Ranged maps *)

Section smap_facts.
Context {V : Type}.
Implicit Types (m : smap V) (k : string) (v : V).

Lemma sm_get_set_eq m k v : sm_get (sm_set m k v) k = Some v.
Proof.
  induction m as [|[k' v'] m IH]; simpl.
  - by rewrite String.eqb_refl.
  - destruct (String.eqb k k') eqn:E; simpl; [by rewrite String.eqb_refl | by rewrite E].
Qed.

Lemma sm_get_set_ne m k k' v : k ≠ k' → sm_get (sm_set m k v) k' = sm_get m k'.
Proof.
  intros Hne. induction m as [|[k0 v0] m IH]; simpl.
  - destruct (String.eqb k' k) eqn:E; [|done].
    apply String.eqb_eq in E. congruence.
  - destruct (String.eqb k k0) eqn:E; simpl.
    + apply String.eqb_eq in E. subst k0.
      destruct (String.eqb k' k) eqn:E'; [|done].
      apply String.eqb_eq in E'. congruence.
    + by rewrite IH.
Qed.

Lemma sm_get_Some_elem m k v : sm_get m k = Some v → (k, v) ∈ m.
Proof.
  induction m as [|[k' v'] m IH]; simpl; [done|].
  destruct (String.eqb k k') eqn:E.
  - apply String.eqb_eq in E. intros [= ->]. subst. left.
  - intros. right. auto.
Qed.

Lemma sm_get_None_keys m k : sm_get m k = None ↔ k ∉ sm_keys m.
Proof.
  unfold sm_keys. induction m as [|[k' v'] m IH]; simpl.
  - split; [intros _; apply not_elem_of_nil | done].
  - destruct (String.eqb k k') eqn:E.
    + apply String.eqb_eq in E. subst. split; [done|]. intros []. left.
    + apply String.eqb_neq in E. rewrite IH, not_elem_of_cons. tauto.
Qed.

Lemma sm_get_elem m k v : NoDup (sm_keys m) → (k, v) ∈ m → sm_get m k = Some v.
Proof.
  unfold sm_keys. induction m as [|[k' v'] m IH]; simpl; intros Hnd Hin.
  - by apply elem_of_nil in Hin.
  - apply NoDup_cons in Hnd as [Hk Hnd]. apply elem_of_cons in Hin as [[= -> ->]|Hin].
    + by rewrite String.eqb_refl.
    + destruct (String.eqb k k') eqn:E; [|auto].
      apply String.eqb_eq in E. subst. destruct Hk.
      apply (list_elem_of_fmap_2 fst) in Hin. done.
Qed.

Lemma sm_set_fresh m k v : k ∉ sm_keys m → sm_set m k v = m ++ [(k, v)].
Proof.
  unfold sm_keys. induction m as [|[k' v'] m IH]; simpl; [done|].
  rewrite not_elem_of_cons. intros [Hne Hk].
  apply String.eqb_neq in Hne. rewrite Hne. by rewrite IH.
Qed.

Lemma sm_keys_set m k v :
  sm_keys (sm_set m k v) = if decide (k ∈ sm_keys m) then sm_keys m else sm_keys m ++ [k].
Proof.
  unfold sm_keys. induction m as [|[k' v'] m IH].
  - simpl. destruct (decide (k ∈ [])) as [Hk|Hk]; [by apply elem_of_nil in Hk | done].
  - simpl sm_set. destruct (String.eqb k k') eqn:E.
    + apply String.eqb_eq in E. subst. cbn [map fst].
      destruct (decide (k' ∈ k' :: map fst m)) as [Hk|Hk]; [reflexivity|]. destruct Hk. left.
    + apply String.eqb_neq in E. cbn [map fst]. rewrite IH.
      destruct (decide (k ∈ map fst m)) as [Hk|Hk];
        destruct (decide (k ∈ k' :: map fst m)) as [Hk'|Hk']; try done.
      * destruct Hk'. by right.
      * apply elem_of_cons in Hk' as [?|?]; done.
Qed.

Lemma sm_keys_set_NoDup m k v : NoDup (sm_keys m) → NoDup (sm_keys (sm_set m k v)).
Proof.
  intros Hnd. rewrite sm_keys_set. case_decide; [done|].
  apply NoDup_app. split_and!; [done| |apply NoDup_singleton].
  intros x Hx Hx'. apply list_elem_of_singleton in Hx'. by subst.
Qed.

Lemma sm_set_elem m k v k' v' :
  (k', v') ∈ sm_set m k v → (k' = k ∧ v' = v) ∨ (k', v') ∈ m.
Proof.
  induction m as [|[k0 v0] m IH]; simpl.
  - intros Hin. apply list_elem_of_singleton in Hin. left. by simplify_eq.
  - destruct (String.eqb k k0) eqn:E.
    + intros [Heq|Hin]%elem_of_cons; [left; by simplify_eq|]. right. by right.
    + intros [Heq|Hin]%elem_of_cons; [right; simplify_eq; left|].
      destruct (IH Hin) as [?|?]; [by left|]. right. by right.
Qed.

End smap_facts.

(** ** The downstream walk returns, and leaves [visited] as it found it *)

Section costengine_facts.
Context `{GoLib}.

Lemma downstreamLoop_total recur endpoint callGraph endpointCosts depth deps acc visited :
  (∀ ep v, ∃ costs, recur ep (depth + 1) v = Some (costs, v)) →
  ∃ costs, downstreamLoop recur endpoint callGraph endpointCosts depth deps acc visited
           = Some (costs, visited).
Proof.
  intros Hrec. revert acc. induction deps as [|dep deps IH]; intros acc; simpl.
  - by eexists.
  - destruct (_ && _); [|apply IH].
    destruct (decide _) as [Hin|Hnin]; [apply IH|].
    destruct (GetService _ _) as [targetService|]; [|apply IH].
    destruct (GetEndpoint _ _ _) as [targetEndpoint|]; [|apply IH].
    destruct (Hrec targetEndpoint
                ({[colonKey (ToService dep) (ToEndpoint dep)]} ∪ visited)) as [nested ->].
    replace (({[colonKey (ToService dep) (ToEndpoint dep)]} ∪ visited)
               ∖ {[colonKey (ToService dep) (ToEndpoint dep)]}) with visited by set_solver.
    apply IH.
Qed.

Lemma calculateDownstreamCosts_fuel fuel endpoint callGraph endpointCosts depth visited :
  Z.max 0 (11 - depth) < Z.of_nat fuel →
  ∃ costs, calculateDownstreamCosts fuel endpoint callGraph endpointCosts depth visited
           = Some (costs, visited).
Proof.
  revert endpoint depth visited.
  induction fuel as [|fuel IH]; intros endpoint depth visited Hfuel; [lia|].
  simpl. destruct (maxDepth <? depth) eqn:Hd; [by eexists|].
  apply downstreamLoop_total. intros ep v.
  apply Z.ltb_ge in Hd. unfold maxDepth in Hd. apply IH. lia.
Qed.

(** ** Invariants of the three loops of [CalculateCosts] *)

Lemma NewCostBreakdown_total metrics perfMetrics model durationHours :
  cb_Total (NewCostBreakdown metrics perfMetrics model durationHours)
  = breakdownSum (NewCostBreakdown metrics perfMetrics model durationHours).
Proof. unfold NewCostBreakdown. by destruct metrics, model. Qed.

Lemma calculateEndpointCost_direct c endpoint serviceMetrics durationHours :
  directConsistent (calculateEndpointCost c endpoint serviceMetrics durationHours).
Proof.
  unfold calculateEndpointCost, directConsistent.
  destruct serviceMetrics as [sm|]; [|done].
  destruct (sm_Endpoints sm !! _) as [em|]; [|done].
  destruct (Resource em) as [r|] eqn:Hr; [|done].
  cbn [ec_CostBreakdown ec_DirectCost]. apply NewCostBreakdown_total.
Qed.

Lemma finalizeEndpointCost_direct ec costs :
  directConsistent ec → directConsistent (finalizeEndpointCost ec costs).
Proof.
  unfold directConsistent, finalizeEndpointCost. cbn.
  by destruct (ec_CostBreakdown ec).
Qed.

Lemma finalizeEndpointCost_finalized ec costs : finalized (finalizeEndpointCost ec costs).
Proof.
  unfold finalized, finalizeEndpointCost. cbn.
  by destruct (ec_CostBreakdown ec).
Qed.

Lemma sm_set_elem_NoDup {V} (m : smap V) k v k' v' :
  NoDup (sm_keys m) → (k', v') ∈ sm_set m k v →
  (k' = k ∧ v' = v) ∨ (k' ≠ k ∧ (k', v') ∈ m).
Proof.
  intros Hnd Hin.
  apply (sm_get_elem _ _ _ (sm_keys_set_NoDup m k v Hnd)) in Hin.
  destruct (decide (k' = k)) as [->|Hne].
  - rewrite sm_get_set_eq in Hin. left. by simplify_eq.
  - rewrite sm_get_set_ne in Hin by done. right. split; [done|].
    by apply sm_get_Some_elem.
Qed.

Lemma directStep_Endpoints c serviceMetrics durationHours sc endpoint :
  sc_Endpoints (directStep c serviceMetrics durationHours sc endpoint)
  = sm_set (sc_Endpoints sc) (endpointKey endpoint)
      (calculateEndpointCost c endpoint serviceMetrics durationHours).
Proof. done. Qed.

Lemma directLoop_spec c serviceMetrics durationHours eps sc :
  NoDup (sm_keys (sc_Endpoints sc)) →
  (∀ k ec, (k, ec) ∈ sc_Endpoints sc → directConsistent ec) →
  let sc' := directLoop c serviceMetrics durationHours eps sc in
  NoDup (sm_keys (sc_Endpoints sc'))
  ∧ (∀ k ec, (k, ec) ∈ sc_Endpoints sc' →
       directConsistent ec ∧ (k ∈ sm_keys (sc_Endpoints sc) ∨ k ∈ map endpointKey eps))
  ∧ (∀ k, k ∈ sm_keys (sc_Endpoints sc) ∨ k ∈ map endpointKey eps →
       is_Some (sm_get (sc_Endpoints sc') k))
  ∧ sc_ServiceName sc' = sc_ServiceName sc.
Proof.
  unfold directLoop. revert sc.
  induction eps as [|endpoint eps IH]; intros sc Hnd Hdir; cbn [fold_left].
  - split_and!; [done| |  |done].
    + intros k ec Hin. split; [eauto|]. left.
      by apply (list_elem_of_fmap_2 fst) in Hin.
    + intros k [Hk|Hk]; [|by apply elem_of_nil in Hk].
      destruct (sm_get (sc_Endpoints sc) k) eqn:E; [done|].
      by apply sm_get_None_keys in E.
  - destruct (IH (directStep c serviceMetrics durationHours sc endpoint))
      as (Hnd' & Hall & Hkeys & Hname).
    + rewrite directStep_Endpoints. by apply sm_keys_set_NoDup.
    + rewrite directStep_Endpoints.
      intros k ec [[-> ->]|Hin]%sm_set_elem; [|eauto].
      apply calculateEndpointCost_direct.
    + rewrite directStep_Endpoints, sm_keys_set in Hall, Hkeys.
      split_and!; [done| | |done].
      * intros k ec Hin. destruct (Hall k ec Hin) as [Hd Hk]. split; [done|].
        destruct Hk as [Hk|Hk]; [|right; by right].
        case_decide; [by left|].
        apply elem_of_app in Hk as [Hk|Hk]; [by left|].
        apply list_elem_of_singleton in Hk. subst. right. left.
      * intros k Hk. apply Hkeys.
        destruct Hk as [Hk|[->|Hk]%elem_of_cons]; [| |by right].
        -- left. case_decide; [done|]. apply elem_of_app. by left.
        -- left. case_decide; [done|]. apply elem_of_app. right. left.
Qed.

Lemma attributeLoop_spec callGraph eps endpoints :
  NoDup (sm_keys endpoints) →
  (∀ ep, ep ∈ eps → is_Some (sm_get endpoints (endpointKey ep))) →
  (∀ k ec, (k, ec) ∈ endpoints →
     directConsistent ec ∧ (finalized ec ∨ k ∈ map endpointKey eps)) →
  ∃ endpoints',
    attributeLoop callGraph eps endpoints = Some endpoints'
    ∧ ∀ k ec, (k, ec) ∈ endpoints' → directConsistent ec ∧ finalized ec.
Proof.
  revert endpoints.
  induction eps as [|endpoint eps IH]; intros endpoints Hnd Hkeys Hall; cbn [attributeLoop].
  - eexists. split; [done|]. intros k ec Hin.
    destruct (Hall k ec Hin) as [Hd [Hf|Hk]]; [done|by apply elem_of_nil in Hk].
  - fold (endpointKey endpoint).
    destruct (Hkeys endpoint) as [ec0 Hec0]; [left|]. rewrite Hec0.
    destruct (calculateDownstreamCosts_fuel 12 endpoint callGraph endpoints 0 ∅)
      as [costs ->]; [lia|].
    apply IH.
    + by apply sm_keys_set_NoDup.
    + intros ep Hep. destruct (decide (endpointKey endpoint = endpointKey ep)) as [<-|Hne].
      * by rewrite sm_get_set_eq.
      * rewrite sm_get_set_ne by done. apply Hkeys. by right.
    + intros k ec Hin. apply sm_set_elem_NoDup in Hin as [[-> ->]|[Hne Hin]]; [| |done].
      * split; [|left; apply finalizeEndpointCost_finalized].
        apply finalizeEndpointCost_direct.
        by apply (Hall (endpointKey endpoint)), sm_get_Some_elem.
      * destruct (Hall k ec Hin) as [Hd [Hf|Hk]]; (split; [done|]); [by left|].
        right. apply elem_of_cons in Hk as [?|?]; done.
Qed.

Lemma calculateServiceCost_spec c callGraph metricsSnapshot durationHours serviceName service :
  ∃ sc,
    calculateServiceCost c callGraph metricsSnapshot durationHours serviceName service = Some sc
    ∧ sc_ServiceName sc = serviceName
    ∧ ∀ k ec, (k, ec) ∈ sc_Endpoints sc → directConsistent ec ∧ finalized ec.
Proof.
  unfold calculateServiceCost.
  destruct (directLoop_spec c (GetServiceMetrics metricsSnapshot serviceName) durationHours
              (Endpoints service) (emptyServiceCost serviceName))
    as (Hnd & Hall & Hkeys & _).
  { apply NoDup_nil_2. }
  { intros k ec Hin. by apply elem_of_nil in Hin. }
  destruct (attributeLoop_spec callGraph (Endpoints service)
              (sc_Endpoints (directLoop c (GetServiceMetrics metricsSnapshot serviceName)
                 durationHours (Endpoints service) (emptyServiceCost serviceName))))
    as (endpoints & -> & Hfin); [done| | |].
  - intros ep Hep. apply Hkeys. right. by apply list_elem_of_fmap_2.
  - intros k ec Hin. destruct (Hall k ec Hin) as [Hd [Hk|Hk]]; [|by auto].
    by apply elem_of_nil in Hk.
  - eexists. split_and!; [done|done|]. apply Hfin.
Qed.

Lemma servicesLoop_spec c callGraph metricsSnapshot durationHours services report :
  allFinalized (cr_Services report) →
  ∃ report',
    servicesLoop c callGraph metricsSnapshot durationHours services report = Some report'
    ∧ allFinalized (cr_Services report')
    ∧ (NoDup (sm_keys services) →
       (∀ k, k ∈ sm_keys services → k ∉ sm_keys (cr_Services report)) →
       cr_TotalCost report = sumServiceTotals (cr_Services report) →
       cr_TotalCost report' = sumServiceTotals (cr_Services report')).
Proof.
  revert report.
  induction services as [|[serviceName service] services IH]; intros report Hfin;
    cbn [servicesLoop].
  - eexists. by split_and!.
  - destruct (calculateServiceCost_spec c callGraph metricsSnapshot durationHours
                serviceName service) as (sc & -> & Hname & Hsc).
    destruct (IH (AddServiceCost report sc)) as (report' & Hrun & Hfin' & Htotal).
    { intros name sc' key ec Hin. cbn in Hin.
      apply sm_set_elem in Hin as [[-> ->]|Hin]; [apply Hsc|by apply (Hfin name sc')]. }
    exists report'. split_and!; [done|done|].
    intros Hnd Hfresh Hsum.
    unfold sm_keys in Hnd. cbn [map fst] in Hnd. apply NoDup_cons in Hnd as [Hhd Hnd].
    assert (serviceName ∉ sm_keys (cr_Services report)) as Hnew.
    { apply Hfresh. unfold sm_keys. cbn [map fst]. left. }
    apply Htotal; [done| |]; cbn [AddServiceCost cr_Services cr_TotalCost]; rewrite Hname.
    + intros k Hk. rewrite sm_keys_set, decide_False by done.
      rewrite not_elem_of_app. split.
      * apply Hfresh. unfold sm_keys. cbn [map fst]. by right.
      * intros Hk'. apply list_elem_of_singleton in Hk'. by subst.
    + rewrite sm_set_fresh by done.
      unfold sumServiceTotals. rewrite fold_left_app. cbn [fold_left snd].
      fold (sumServiceTotals (cr_Services report)). by rewrite <- Hsum.
Qed.

Lemma CalculateCosts_inv c callGraph metricsSnapshot timeRange report err :
  CalculateCosts c callGraph metricsSnapshot timeRange = Some (report, err) →
  ∃ report0,
    servicesLoop c callGraph metricsSnapshot (Hours timeRange) (cg_Services callGraph)
      (NewCostReport (costModel c) timeRange) = Some report0
    ∧ cr_Services report = cr_Services report0
    ∧ cr_TotalCost report = cr_TotalCost report0
    ∧ TopCostly report = findTopCostlyEndpoints report0 10
    ∧ Recommendations report = generateRecommendations report
    ∧ err = None.
Proof.
  unfold CalculateCosts. destruct (servicesLoop _ _ _ _ _ _) as [report0|]; [|done].
  intros [= <- <-]. exists report0. by split_and!.
Qed.

Lemma CalculateCosts_allFinalized c callGraph metricsSnapshot timeRange report err :
  CalculateCosts c callGraph metricsSnapshot timeRange = Some (report, err) →
  allFinalized (cr_Services report).
Proof.
  intros (report0 & Hrun & -> & _)%CalculateCosts_inv.
  destruct (servicesLoop_spec c callGraph metricsSnapshot (Hours timeRange)
              (cg_Services callGraph) (NewCostReport (costModel c) timeRange))
    as (report' & Hrun' & Hfin & _).
  { intros name sc key ec Hin. by apply elem_of_nil in Hin. }
  by simplify_eq.
Qed.

Lemma elem_of_allEndpointCosts report ec :
  ec ∈ allEndpointCosts report ↔
  ∃ name sc key, (name, sc) ∈ cr_Services report ∧ (key, ec) ∈ sc_Endpoints sc.
Proof.
  unfold allEndpointCosts, sm_values. rewrite list_elem_of_In, in_flat_map. split.
  - intros (sc & Hsc & Hec). apply list_elem_of_In, list_elem_of_fmap in Hsc, Hec.
    destruct Hsc as ([name sc'] & -> & Hsc), Hec as ([key ec'] & -> & Hec). eauto.
  - intros (name & sc & key & Hsc & Hec). exists sc.
    split; apply list_elem_of_In, list_elem_of_fmap; [by exists (name, sc)|by exists (key, ec)].
Qed.

(** ** Direct cost *)

(** C2. An endpoint whose metrics entry carries resource and performance
    data gets a breakdown whose CPU, memory, network, disk and request
    costs are the priced quantities (network without the factor [H],
    requests with [H * 3600]), whose total is their sum, and that total is
    the endpoint's direct cost. *)
Theorem direct_cost_formula c endpoint serviceMetrics endpointMetrics r p (durationHours : float) :
  sm_Endpoints serviceMetrics !! endpointKey endpoint = Some endpointMetrics →
  Resource endpointMetrics = Some r →
  Performance endpointMetrics = Some p →
  ∃ cb,
    ec_CostBreakdown (calculateEndpointCost c endpoint (Some serviceMetrics) durationHours) = Some cb
    ∧ CPUCost cb = (CPUCores r * CPUCostPerCoreHour (costModel c) * durationHours)%float
    ∧ MemoryCost cb = ((MemoryMB r / 1024) * MemoryCostPerGBHour (costModel c) * durationHours)%float
    ∧ NetworkCost cb = (((NetworkInMB r + NetworkOutMB r) / 1024) * NetworkCostPerGB (costModel c))%float
    ∧ DiskCost cb = (((DiskReadMB r + DiskWriteMB r) / 1024) * DiskCostPerGBHour (costModel c) * durationHours)%float
    ∧ cb_RequestCost cb = (RequestRate p * cm_RequestCost (costModel c) * durationHours * 3600)%float
    ∧ cb_Total cb = (CPUCost cb + MemoryCost cb + NetworkCost cb + DiskCost cb + cb_RequestCost cb)%float
    ∧ ec_DirectCost (calculateEndpointCost c endpoint (Some serviceMetrics) durationHours) = cb_Total cb.
Proof.
  intros Hem Hr Hp. unfold calculateEndpointCost. fold (endpointKey endpoint).
  rewrite Hem, Hr, Hp. eexists. by split_and!.
Qed.

(** The figures of the scenario: 0.10 for the CPU, 0.02 for the memory,
    0.01318359375 for the network and 0.072 for the requests. *)
Lemma direct_cost_formula_scenario :
  ∃ cb,
    ec_CostBreakdown (calculateEndpointCost testCalculator testEndpoint (Some testServiceMetrics) 1)
    = Some cb
    ∧ CPUCost cb = 0.10%float
    ∧ MemoryCost cb = 0.02%float
    ∧ NetworkCost cb = 0.01318359375%float
    ∧ (0.013183 <? NetworkCost cb)%float = true ∧ (NetworkCost cb <? 0.013185)%float = true
    ∧ cb_RequestCost cb = 0.072%float.
Proof.
  destruct (direct_cost_formula testCalculator testEndpoint testServiceMetrics
              {| em_Service := "test-service"; em_Endpoint := "/api/test"; em_Method := "GET";
                 Resource := Some testResource; Performance := Some testPerformance |}
              testResource testPerformance 1 eq_refl eq_refl eq_refl)
    as (cb & Hcb & Hcpu & Hmem & Hnet & _ & Hreq & _).
  exists cb. rewrite Hcpu, Hmem, Hnet, Hreq. repeat split; try reflexivity. exact Hcb.
Defined.

(** An entry without performance data is priced with a request cost of 0. *)
Lemma direct_cost_without_performance c endpoint serviceMetrics endpointMetrics r durationHours :
  sm_Endpoints serviceMetrics !! endpointKey endpoint = Some endpointMetrics →
  Resource endpointMetrics = Some r →
  Performance endpointMetrics = None →
  ∃ cb,
    ec_CostBreakdown (calculateEndpointCost c endpoint (Some serviceMetrics) durationHours) = Some cb
    ∧ cb_RequestCost cb = 0%float.
Proof.
  intros Hem Hr Hp. unfold calculateEndpointCost. fold (endpointKey endpoint).
  rewrite Hem, Hr, Hp. by eexists.
Qed.

(** ** Missing metrics *)




(** ** The finished breakdown *)

(** C8. In a report produced by [CalculateCosts], every breakdown has
    [total = cpu + memory + network + disk + request + downstreamTotal]. *)
Theorem breakdown_total_invariant c callGraph metricsSnapshot timeRange report err name sc key ec cb :
  CalculateCosts c callGraph metricsSnapshot timeRange = Some (report, err) →
  (name, sc) ∈ cr_Services report →
  (key, ec) ∈ sc_Endpoints sc →
  ec_CostBreakdown ec = Some cb →
  cb_Total cb
  = (CPUCost cb + MemoryCost cb + NetworkCost cb + DiskCost cb + cb_RequestCost cb
     + DownstreamTotal cb)%float.
Proof.
  intros Hrun Hsc Hec Hcb.
  destruct (CalculateCosts_allFinalized _ _ _ _ _ _ Hrun name sc key ec Hsc Hec)
    as [Hdirect [Htotal Hfin]].
  unfold directConsistent in Hdirect. rewrite Hcb in Hdirect, Hfin.
  destruct Hfin as [-> ->]. rewrite Htotal, Hdirect. done.
Qed.

End costengine_facts.

Lemma breakdown_total_invariant_witness :
  ∃ report sc ec cb,
    CalculateCosts (H := exampleLib) cpuOnlyCalculator fanOut fanOutMetrics oneHour
    = Some (report, None)
    ∧ sm_get (cr_Services report) "api" = Some sc
    ∧ sm_get (sc_Endpoints sc) "/c:GET" = Some ec
    ∧ ec_CostBreakdown ec = Some cb
    ∧ DownstreamTotal cb = 6%float
    ∧ cb_Total cb = 7%float
    ∧ cb_Total cb
      = (CPUCost cb + MemoryCost cb + NetworkCost cb + DiskCost cb + cb_RequestCost cb
         + DownstreamTotal cb)%float.
Proof.
  do 4 eexists.
  assert (∀ P Q : Prop, P → (P → Q) → P ∧ Q) as step by tauto.
  apply step; [vm_compute; reflexivity|intros Hrun].
  apply step; [vm_compute; reflexivity|intros Hsc].
  apply step; [vm_compute; reflexivity|intros Hec].
  apply step; [vm_compute; reflexivity|intros Hcb].
  split; [reflexivity|]. split; [reflexivity|].
  exact (breakdown_total_invariant (H := exampleLib) _ _ _ _ _ _ _ _ _ _ _ Hrun
           (sm_get_Some_elem _ _ _ Hsc) (sm_get_Some_elem _ _ _ Hec) Hcb).
Defined.

(** ** The report *)

Section report_facts.
Context `{GoLib}.

Lemma CalculateCosts_returns c callGraph metricsSnapshot timeRange :
  ∃ report, CalculateCosts c callGraph metricsSnapshot timeRange = Some (report, None).
Proof.
  unfold CalculateCosts.
  destruct (servicesLoop_spec c callGraph metricsSnapshot (Hours timeRange)
              (cg_Services callGraph) (NewCostReport (costModel c) timeRange))
    as (report' & -> & _).
  { intros name sc key ec Hin. by apply elem_of_nil in Hin. }
  by eexists.
Qed.

(** C9. The total of a report produced by [CalculateCosts] is the sum of
    the totals of its service costs, added in the order in which the
    services were processed (the keys of [callGraph.Services] are distinct,
    as the keys of a Go map are). *)
Theorem report_total_is_sum c callGraph metricsSnapshot timeRange report err :
  NoDup (sm_keys (cg_Services callGraph)) →
  CalculateCosts c callGraph metricsSnapshot timeRange = Some (report, err) →
  cr_TotalCost report = sumServiceTotals (cr_Services report).
Proof.
  intros Hnd (report0 & Hrun & Hsv & Htot & _)%CalculateCosts_inv.
  destruct (servicesLoop_spec c callGraph metricsSnapshot (Hours timeRange)
              (cg_Services callGraph) (NewCostReport (costModel c) timeRange))
    as (report' & Hrun' & _ & Hsum).
  { intros name sc key ec Hin. by apply elem_of_nil in Hin. }
  rewrite Htot, Hsv. simplify_eq. apply Hsum; [done| |done].
  intros k _. apply not_elem_of_nil.
Qed.

(** ** Recommendations *)

Lemma highDownstream_spec ec :
  directConsistent ec → finalized ec →
  highDownstream ec = true ↔
  (0 <? ec_DirectCost ec)%float = true
  ∧ (5 <? sumDownstream (DownstreamCosts ec) / ec_DirectCost ec)%float = true.
Proof.
  unfold directConsistent, finalized, highDownstream.
  destruct (ec_CostBreakdown ec) as [cb|].
  - intros _ [_ [-> _]]. by rewrite andb_true_iff.
  - intros -> _. split; [done|]. by intros [? _].
Qed.

(** C6. In a report produced by [CalculateCosts] the recommendations are
    the line for the costliest endpoint followed by one "review dependency
    chain" line per endpoint cost that passes the test, and an endpoint
    cost passes the test exactly when its direct cost is above 0 and its
    downstream total divided by its direct cost is above 5; a ratio equal
    to 5 and a direct cost equal to 0 do not pass. *)
Theorem review_recommendation_rule c callGraph metricsSnapshot timeRange report err :
  CalculateCosts c callGraph metricsSnapshot timeRange = Some (report, err) →
  Recommendations report
  = match TopCostly report with
    | topEndpoint :: _ => [optimizeMessage topEndpoint]
    | [] => []
    end
    ++ map reviewMessage (filter (fun ec => highDownstream ec = true) (allEndpointCosts report))
  ∧ ∀ ec, ec ∈ allEndpointCosts report →
      (highDownstream ec = true ↔
         (0 <? ec_DirectCost ec)%float = true
         ∧ (5 <? sumDownstream (DownstreamCosts ec) / ec_DirectCost ec)%float = true)
      ∧ ((sumDownstream (DownstreamCosts ec) / ec_DirectCost ec)%float = 5%float →
         highDownstream ec = false)
      ∧ (ec_DirectCost ec = 0%float → highDownstream ec = false).
Proof.
  intros Hrun. split.
  { by destruct (CalculateCosts_inv _ _ _ _ _ _ Hrun) as (? & _ & _ & _ & _ & -> & _). }
  intros ec (name & sc & key & Hsc & Hec)%elem_of_allEndpointCosts.
  destruct (CalculateCosts_allFinalized _ _ _ _ _ _ Hrun name sc key ec Hsc Hec)
    as [Hdirect Hfin].
  pose proof (highDownstream_spec ec Hdirect Hfin) as Hiff.
  split_and!; [done| |].
  - intros Hratio. destruct (highDownstream ec) eqn:E; [|done].
    destruct Hiff as [Hiff _]. destruct (Hiff eq_refl) as [_ Hlt].
    rewrite Hratio in Hlt. discriminate Hlt.
  - intros Hzero. destruct (highDownstream ec) eqn:E; [|done].
    destruct Hiff as [Hiff _]. destruct (Hiff eq_refl) as [Hlt _].
    rewrite Hzero in Hlt. discriminate Hlt.
Qed.

End report_facts.

(** The scenario: three services costing 10, 20 and 15.5 make 45.5. *)
Lemma report_total_is_sum_scenario :
  ∃ report,
    CalculateCosts (H := exampleLib) cpuOnlyCalculator threeServices threeServicesMetrics oneHour
    = Some (report, None)
    ∧ map (fun kv => sc_TotalCost (snd kv)) (cr_Services report) = [10; 20; 15.5]%float
    ∧ cr_TotalCost report = 45.5%float
    ∧ cr_TotalCost report = sumServiceTotals (cr_Services report).
Proof.
  eexists.
  assert (∀ P Q : Prop, P → (P → Q) → P ∧ Q) as step by tauto.
  apply step; [vm_compute; reflexivity|intros Hrun].
  split; [vm_compute; reflexivity|]. split; [vm_compute; reflexivity|].
  refine (report_total_is_sum (H := exampleLib) _ _ _ _ _ _ _ Hrun).
  apply (bool_decide_unpack _). vm_compute. exact I.
Defined.

(** The same three totals put into a fresh report by [AddServiceCost], as
    [TestCalculateTotalCost] does. *)
Example AddServiceCost_scenario :
  let service name total :=
    {| sc_ServiceName := name; sc_Endpoints := []; sc_TotalCost := total;
       sc_DirectCost := 0; AttributedCost := 0 |} in
  let report :=
    fold_left AddServiceCost
      [service "service-1" 10%float; service "service-2" 20%float; service "service-3" 15.5%float]
      (NewCostReport cpuOnlyModel oneHour) in
  cr_TotalCost report = 45.5%float
  ∧ cr_TotalCost (CalculateTotalCost (H := exampleLib) report) = 45.5%float.
Proof. split; reflexivity. Qed.

(** [/a] has ratio 5 and gets no line, [/c] has ratio 6 and gets one. *)
Lemma review_recommendation_rule_witness :
  ∃ report,
    CalculateCosts (H := exampleLib) cpuOnlyCalculator fanOut fanOutMetrics oneHour
    = Some (report, None)
    ∧ Recommendations report
      = ["Consider optimizing api/c - highest cost endpoint at $%.4f per request";
         "api/c has 5x more downstream cost than direct cost - review dependency chain"]
    ∧ map (fun ec => (ec_Endpoint ec, ec_DirectCost ec, sumDownstream (DownstreamCosts ec)))
          (allEndpointCosts report)
      = [("/a", 1, 5); ("/b", 1, 0); ("/c", 1, 6)]%float
    ∧ Recommendations report
      = match TopCostly report with
        | topEndpoint :: _ => [optimizeMessage (H := exampleLib) topEndpoint]
        | [] => []
        end
        ++ map reviewMessage
             (filter (fun ec => highDownstream ec = true) (allEndpointCosts report)).
Proof.
  eexists.
  assert (∀ P Q : Prop, P → (P → Q) → P ∧ Q) as step by tauto.
  apply step; [vm_compute; reflexivity|intros Hrun].
  split; [vm_compute; reflexivity|]. split; [vm_compute; reflexivity|].
  exact (proj1 (review_recommendation_rule (H := exampleLib) _ _ _ _ _ _ Hrun)).
Defined.

(** ** Nil pointers *)

Lemma Ptr_GetEndpoint_fuel s path method : Ptr.GetEndpoint s path method ≠ OutOfFuel.
Proof.
  destruct s as [s|]; [|done]. cbn [Ptr.GetEndpoint].
  induction (Ptr.Endpoints s) as [|[ep|] eps IH]; cbn [Ptr.findEndpoint]; [done| |done].
  by destruct (_ && _).
Qed.

Lemma Ptr_downstreamLoop_fuel recur endpoint callGraph endpointCosts depth deps acc visited :
  (∀ ep v, restores v (recur ep (depth + 1) v)) →
  restores visited
    (Ptr.downstreamLoop recur endpoint callGraph endpointCosts depth deps acc visited).
Proof.
  intros Hrec. revert acc. induction deps as [|[dep|] deps IH]; intros acc;
    cbn [Ptr.downstreamLoop]; [done| |done].
  destruct (Ptr.ep_Service endpoint) as [serviceName|]; [|done].
  destruct (_ && _); [|apply IH].
  destruct (decide _) as [Hin|Hnin]; [apply IH|].
  destruct (Ptr.GetService callGraph (ToService dep)) as [targetService|]; [|apply IH].
  destruct (Ptr.GetEndpoint targetService (ToEndpoint dep) "GET")
    as [[targetEndpoint|]| |] eqn:Hget; [|apply IH|done|by apply Ptr_GetEndpoint_fuel in Hget].
  pose proof (Hrec targetEndpoint
                ({[colonKey (ToService dep) (ToEndpoint dep)]} ∪ visited)) as Hcall.
  destruct (recur targetEndpoint (depth + 1) _) as [[nested visited']| |];
    cbn in Hcall; [|done|done].
  subst visited'.
  assert (({[colonKey (ToService dep) (ToEndpoint dep)]} ∪ visited)
            ∖ {[colonKey (ToService dep) (ToEndpoint dep)]} = visited) as Hpop.
  { apply set_eq. intros x. rewrite elem_of_difference, elem_of_union, !elem_of_singleton.
    split; [by intros [[->|Hx] Hne]|]. intros Hx. split; [by right|]. by intros ->. }
  rewrite Hpop. apply IH.
Qed.

(** As on set pointers, the walk stops at depth 11: twelve units of fuel
    are never used up. *)
Lemma Ptr_calculateDownstreamCosts_fuel fuel endpoint callGraph endpointCosts depth visited :
  Z.max 0 (11 - depth) < Z.of_nat fuel →
  restores visited
    (Ptr.calculateDownstreamCosts fuel endpoint callGraph endpointCosts depth visited).
Proof.
  revert endpoint depth visited.
  induction fuel as [|fuel IH]; intros endpoint depth visited Hfuel; [lia|].
  cbn [Ptr.calculateDownstreamCosts]. destruct (maxDepth <? depth) eqn:Hd; [done|].
  apply Ptr_downstreamLoop_fuel. intros ep v.
  apply Z.ltb_ge in Hd. unfold maxDepth in Hd. apply IH. lia.
Qed.

Lemma Ptr_calculateEndpointCost_fuel c endpoint serviceMetrics durationHours :
  Ptr.calculateEndpointCost c endpoint serviceMetrics durationHours ≠ OutOfFuel.
Proof. unfold Ptr.calculateEndpointCost. by repeat case_match. Qed.

Lemma Ptr_directLoop_fuel c serviceMetrics durationHours eps serviceCost :
  Ptr.directLoop c serviceMetrics durationHours eps serviceCost ≠ OutOfFuel.
Proof.
  revert serviceCost. induction eps as [|endpoint eps IH]; intros serviceCost;
    cbn [Ptr.directLoop]; [done|].
  pose proof (Ptr_calculateEndpointCost_fuel c endpoint serviceMetrics durationHours) as Hcall.
  destruct (Ptr.calculateEndpointCost c endpoint serviceMetrics durationHours)
    as [endpointCost| |]; cbn; [|done|done].
  destruct endpoint; [apply IH|done].
Qed.

Lemma Ptr_attributeLoop_fuel callGraph eps endpoints :
  Ptr.attributeLoop callGraph eps endpoints ≠ OutOfFuel.
Proof.
  revert endpoints. induction eps as [|[endpoint|] eps IH]; intros endpoints;
    cbn [Ptr.attributeLoop]; [done| |done].
  pose proof (Ptr_calculateDownstreamCosts_fuel 12 endpoint callGraph endpoints 0 ∅) as Hwalk.
  destruct (Ptr.calculateDownstreamCosts 12 endpoint callGraph endpoints 0 ∅)
    as [[downstreamCosts visited]| |]; cbn in Hwalk |- *; [|done|lia].
  destruct (sm_get endpoints _); [apply IH|done].
Qed.

Section pointers.
Context `{GoLib}.

Lemma Ptr_calculateServiceCost_fuel c callGraph metricsSnapshot durationHours serviceName service :
  Ptr.calculateServiceCost c callGraph metricsSnapshot durationHours serviceName service
  ≠ OutOfFuel.
Proof.
  unfold Ptr.calculateServiceCost. destruct service as [service|]; [|done].
  pose proof (Ptr_directLoop_fuel c (Ptr.GetServiceMetrics metricsSnapshot serviceName)
                durationHours (Ptr.Endpoints service) (emptyServiceCost serviceName)) as Hdirect.
  destruct (Ptr.directLoop _ _ _ _ _) as [serviceCost| |]; cbn; [|done|done].
  pose proof (Ptr_attributeLoop_fuel callGraph (Ptr.Endpoints service)
                (sc_Endpoints serviceCost)) as Hattribute.
  by destruct (Ptr.attributeLoop _ _ _).
Qed.

Lemma Ptr_servicesLoop_fuel c callGraph metricsSnapshot durationHours services report :
  Ptr.servicesLoop c callGraph metricsSnapshot durationHours services report ≠ OutOfFuel.
Proof.
  revert report. induction services as [|[serviceName service] services IH]; intros report;
    cbn [Ptr.servicesLoop]; [done|].
  pose proof (Ptr_calculateServiceCost_fuel c callGraph metricsSnapshot durationHours
                serviceName service) as Hservice.
  destruct (Ptr.calculateServiceCost _ _ _ _ _ _) as [serviceCost| |]; cbn; [apply IH|done|done].
Qed.

(** [CalculateCosts] has no third way out: it returns a report with a nil
    error, or a nil pointer stops it. *)
Lemma Ptr_CalculateCosts_nil_error c callGraph metricsSnapshot timeRange :
  Ptr.CalculateCosts c callGraph metricsSnapshot timeRange = Panic
  ∨ ∃ report, Ptr.CalculateCosts c callGraph metricsSnapshot timeRange = Ok (report, None).
Proof.
  unfold Ptr.CalculateCosts.
  pose proof (Ptr_servicesLoop_fuel c callGraph metricsSnapshot (Hours timeRange)
                (Ptr.cg_Services callGraph) (NewCostReport (costModel c) timeRange)) as Hloop.
  destruct (Ptr.servicesLoop _ _ _ _ _ _) as [report| |]; cbn; [|by left|done].
  right. by eexists.
Qed.

(** *** Nil pointers that are reached *)

Lemma Ptr_directLoop_panics c serviceMetrics durationHours eps serviceCost endpoint :
  endpoint ∈ eps →
  Ptr.calculateEndpointCost c endpoint serviceMetrics durationHours = Panic →
  Ptr.directLoop c serviceMetrics durationHours eps serviceCost = Panic.
Proof.
  intros Hin Hpanic. revert serviceCost. induction eps as [|first eps IH]; intros serviceCost.
  { by apply elem_of_nil in Hin. }
  cbn [Ptr.directLoop]. apply elem_of_cons in Hin as [<-|Hin].
  - by rewrite Hpanic.
  - pose proof (Ptr_calculateEndpointCost_fuel c first serviceMetrics durationHours) as Hcall.
    destruct (Ptr.calculateEndpointCost c first serviceMetrics durationHours)
      as [endpointCost| |]; cbn; [|done|done].
    destruct first; [by apply IH|done].
Qed.

Lemma Ptr_downstreamLoop_nil_dependency recur endpoint callGraph endpointCosts depth deps
    acc visited :
  (∀ ep v, restores v (recur ep (depth + 1) v)) →
  None ∈ deps →
  Ptr.downstreamLoop recur endpoint callGraph endpointCosts depth deps acc visited = Panic.
Proof.
  intros Hrec Hin. revert acc visited.
  induction deps as [|[dep|] deps IH]; intros acc visited; cbn [Ptr.downstreamLoop];
    [by apply elem_of_nil in Hin| |done].
  apply elem_of_cons in Hin as [?|Hin]; [done|]. specialize (IH Hin).
  destruct (Ptr.ep_Service endpoint) as [serviceName|]; [|done].
  destruct (_ && _); [|apply IH].
  destruct (decide _) as [Hvisited|Hnew]; [apply IH|].
  destruct (Ptr.GetService callGraph (ToService dep)) as [targetService|]; [|apply IH].
  destruct (Ptr.GetEndpoint targetService (ToEndpoint dep) "GET")
    as [[targetEndpoint|]| |] eqn:Hget; [|apply IH|done|by apply Ptr_GetEndpoint_fuel in Hget].
  pose proof (Hrec targetEndpoint
                ({[colonKey (ToService dep) (ToEndpoint dep)]} ∪ visited)) as Hcall.
  destruct (recur targetEndpoint (depth + 1) _) as [[nested visited']| |];
    cbn in Hcall; [apply IH|done|done].
Qed.

Lemma Ptr_attributeLoop_nil_dependency callGraph eps endpoints :
  eps ≠ [] →
  None ∈ Ptr.Dependencies callGraph →
  Ptr.attributeLoop callGraph eps endpoints = Panic.
Proof.
  intros Heps Hin. destruct eps as [|[endpoint|] eps]; [done| |done].
  cbn [Ptr.attributeLoop].
  change (Ptr.calculateDownstreamCosts 12 endpoint callGraph endpoints 0 ∅)
    with (Ptr.downstreamLoop
            (fun ep d v => Ptr.calculateDownstreamCosts 11 ep callGraph endpoints d v)
            endpoint callGraph endpoints 0 (Ptr.Dependencies callGraph) [] ∅).
  rewrite Ptr_downstreamLoop_nil_dependency; [done| |done].
  intros ep v. apply Ptr_calculateDownstreamCosts_fuel. lia.
Qed.

Lemma Ptr_servicesLoop_panics c callGraph metricsSnapshot durationHours services report
    name service :
  (name, service) ∈ services →
  Ptr.calculateServiceCost c callGraph metricsSnapshot durationHours name service = Panic →
  Ptr.servicesLoop c callGraph metricsSnapshot durationHours services report = Panic.
Proof.
  intros Hin Hpanic. revert report.
  induction services as [|[serviceName first] services IH]; intros report.
  { by apply elem_of_nil in Hin. }
  cbn [Ptr.servicesLoop]. apply elem_of_cons in Hin as [[= <- <-]|Hin].
  - by rewrite Hpanic.
  - pose proof (Ptr_calculateServiceCost_fuel c callGraph metricsSnapshot durationHours
                  serviceName first) as Hservice.
    destruct (Ptr.calculateServiceCost c callGraph metricsSnapshot durationHours
                serviceName first) as [serviceCost| |]; cbn; [by apply IH|done|done].
Qed.

Lemma Ptr_calculateServiceCost_panics c callGraph metricsSnapshot durationHours serviceName
    service endpoint :
  endpoint ∈ Ptr.Endpoints service →
  Ptr.calculateEndpointCost c endpoint (Ptr.GetServiceMetrics metricsSnapshot serviceName)
    durationHours = Panic →
  Ptr.calculateServiceCost c callGraph metricsSnapshot durationHours serviceName (Some service)
  = Panic.
Proof.
  intros Hin Hpanic. unfold Ptr.calculateServiceCost.
  by rewrite (Ptr_directLoop_panics _ _ _ _ _ endpoint).
Qed.

Lemma Ptr_calculateServiceCost_nil_dependency c callGraph metricsSnapshot durationHours
    serviceName service :
  Ptr.Endpoints service ≠ [] →
  None ∈ Ptr.Dependencies callGraph →
  Ptr.calculateServiceCost c callGraph metricsSnapshot durationHours serviceName (Some service)
  = Panic.
Proof.
  intros Heps Hin. unfold Ptr.calculateServiceCost.
  pose proof (Ptr_directLoop_fuel c (Ptr.GetServiceMetrics metricsSnapshot serviceName)
                durationHours (Ptr.Endpoints service) (emptyServiceCost serviceName)) as Hdirect.
  destruct (Ptr.directLoop _ _ _ _ _) as [serviceCost| |]; cbn; [|done|done].
  by rewrite Ptr_attributeLoop_nil_dependency.
Qed.

(** *** Set pointers *)

Lemma Ptr_findEndpoint_set eps path method :
  Ptr.findEndpoint (map (fun endpoint => Some (ptrEndpoint endpoint)) eps) path method
  = Ok (ptrEndpoint <$> findEndpoint eps path method).
Proof.
  induction eps as [|ep eps IH]; cbn [map Ptr.findEndpoint findEndpoint]; [done|].
  cbn [ptrEndpoint Ptr.ep_Path Ptr.ep_Method]. by destruct (_ && _).
Qed.

Lemma Ptr_GetService_set callGraph name :
  Ptr.GetService (ptrCallGraph callGraph) name
  = (fun service => Some (ptrService service)) <$> GetService callGraph name.
Proof.
  unfold Ptr.GetService, GetService, ptrCallGraph. cbn [Ptr.cg_Services].
  induction (cg_Services callGraph) as [|[k service] services IH]; cbn [map sm_get fst snd];
    [done|].
  by destruct (String.eqb name k).
Qed.

Lemma Ptr_GetServiceMetrics_set metricsSnapshot serviceName :
  Ptr.GetServiceMetrics (ptrMetricsSnapshot metricsSnapshot) serviceName
  = ptrServiceMetrics <$> GetServiceMetrics metricsSnapshot serviceName.
Proof.
  unfold Ptr.GetServiceMetrics, GetServiceMetrics, ptrMetricsSnapshot. cbn [Ptr.ms_Services].
  rewrite lookup_fmap. by destruct (ms_Services metricsSnapshot !! serviceName).
Qed.

Lemma Ptr_calculateEndpointCost_set c endpoint serviceMetrics durationHours :
  Ptr.calculateEndpointCost c (Some (ptrEndpoint endpoint))
    (ptrServiceMetrics <$> serviceMetrics) durationHours
  = Ok (calculateEndpointCost c endpoint serviceMetrics durationHours).
Proof.
  unfold Ptr.calculateEndpointCost, calculateEndpointCost.
  cbn [ptrEndpoint Ptr.ep_Service Ptr.ep_Path Ptr.ep_Method].
  destruct serviceMetrics as [serviceMetrics|]; cbn [fmap option_fmap option_map]; [|done].
  cbn [ptrServiceMetrics Ptr.sm_Endpoints]. rewrite lookup_fmap.
  destruct (sm_Endpoints serviceMetrics !! _) as [endpointMetrics|]; cbn; [|done].
  by destruct (Resource endpointMetrics).
Qed.

Lemma Ptr_downstreamLoop_set precur recur endpoint callGraph endpointCosts depth deps acc visited :
  (∀ ep d v, precur (ptrEndpoint ep) d v = fuelled (recur ep d v)) →
  Ptr.downstreamLoop precur (ptrEndpoint endpoint) (ptrCallGraph callGraph) endpointCosts
    depth (map Some deps) acc visited
  = fuelled (downstreamLoop recur endpoint callGraph endpointCosts depth deps acc visited).
Proof.
  intros Hrec. revert acc visited. induction deps as [|dep deps IH]; intros acc visited;
    cbn [map Ptr.downstreamLoop downstreamLoop]; [done|].
  cbn [ptrEndpoint Ptr.ep_Service Ptr.ep_Path].
  destruct (_ && _); [|apply IH].
  destruct (decide _) as [Hin|Hnin]; [apply IH|].
  rewrite Ptr_GetService_set.
  destruct (GetService callGraph (ToService dep)) as [targetService|]; cbn [fmap option_fmap option_map];
    [|apply IH].
  unfold Ptr.GetEndpoint, GetEndpoint. cbn [ptrService Ptr.Endpoints].
  rewrite Ptr_findEndpoint_set.
  destruct (findEndpoint (Endpoints targetService) (ToEndpoint dep) "GET") as [targetEndpoint|];
    cbn [fmap option_fmap option_map]; [|apply IH].
  rewrite Hrec. destruct (recur targetEndpoint (depth + 1) _) as [[nested visited']|]; [|done].
  apply IH.
Qed.

Lemma Ptr_calculateDownstreamCosts_set fuel endpoint callGraph endpointCosts depth visited :
  Ptr.calculateDownstreamCosts fuel (ptrEndpoint endpoint) (ptrCallGraph callGraph)
    endpointCosts depth visited
  = fuelled (calculateDownstreamCosts fuel endpoint callGraph endpointCosts depth visited).
Proof.
  revert endpoint depth visited. induction fuel as [|fuel IH]; intros endpoint depth visited;
    cbn [Ptr.calculateDownstreamCosts calculateDownstreamCosts]; [done|].
  destruct (maxDepth <? depth); [done|].
  change (Ptr.Dependencies (ptrCallGraph callGraph)) with (map Some (Dependencies callGraph)).
  apply Ptr_downstreamLoop_set. intros ep d v. apply IH.
Qed.

Lemma Ptr_directLoop_set c serviceMetrics durationHours eps serviceCost :
  Ptr.directLoop c (ptrServiceMetrics <$> serviceMetrics) durationHours
    (map (fun endpoint => Some (ptrEndpoint endpoint)) eps) serviceCost
  = Ok (directLoop c serviceMetrics durationHours eps serviceCost).
Proof.
  unfold directLoop. revert serviceCost. induction eps as [|endpoint eps IH]; intros serviceCost;
    cbn [map Ptr.directLoop fold_left]; [done|].
  rewrite Ptr_calculateEndpointCost_set. cbn. apply IH.
Qed.

Lemma Ptr_attributeLoop_set callGraph eps endpoints endpoints' :
  attributeLoop callGraph eps endpoints = Some endpoints' →
  Ptr.attributeLoop (ptrCallGraph callGraph)
    (map (fun endpoint => Some (ptrEndpoint endpoint)) eps) endpoints
  = Ok endpoints'.
Proof.
  revert endpoints. induction eps as [|endpoint eps IH]; intros endpoints;
    cbn [map Ptr.attributeLoop attributeLoop].
  { by intros [= ->]. }
  cbn [ptrEndpoint Ptr.ep_Path Ptr.ep_Method]. rewrite Ptr_calculateDownstreamCosts_set.
  destruct (sm_get endpoints _) as [endpointCost|]; [|done].
  destruct (calculateDownstreamCosts 12 endpoint callGraph endpoints 0 ∅)
    as [[downstreamCosts visited]|]; [|done].
  cbn. apply IH.
Qed.

Lemma Ptr_calculateServiceCost_set c callGraph metricsSnapshot durationHours serviceName
    service serviceCost :
  calculateServiceCost c callGraph metricsSnapshot durationHours serviceName service
  = Some serviceCost →
  Ptr.calculateServiceCost c (ptrCallGraph callGraph) (ptrMetricsSnapshot metricsSnapshot)
    durationHours serviceName (Some (ptrService service))
  = Ok serviceCost.
Proof.
  unfold Ptr.calculateServiceCost, calculateServiceCost. cbn [ptrService Ptr.Endpoints].
  rewrite Ptr_GetServiceMetrics_set, Ptr_directLoop_set. cbn.
  destruct (attributeLoop callGraph (Endpoints service) _) as [endpoints|] eqn:Hattribute;
    [|done].
  rewrite (Ptr_attributeLoop_set _ _ _ _ Hattribute). cbn. by intros [= <-].
Qed.

Lemma Ptr_servicesLoop_set c callGraph metricsSnapshot durationHours services report report' :
  servicesLoop c callGraph metricsSnapshot durationHours services report = Some report' →
  Ptr.servicesLoop c (ptrCallGraph callGraph) (ptrMetricsSnapshot metricsSnapshot)
    durationHours (map (fun kv => (kv.1, Some (ptrService kv.2))) services) report
  = Ok report'.
Proof.
  revert report. induction services as [|[serviceName service] services IH]; intros report;
    cbn [map Ptr.servicesLoop servicesLoop fst snd].
  { by intros [= ->]. }
  destruct (calculateServiceCost c callGraph metricsSnapshot durationHours serviceName service)
    as [serviceCost|] eqn:Hservice; [|done].
  rewrite (Ptr_calculateServiceCost_set _ _ _ _ _ _ _ Hservice). cbn. apply IH.
Qed.

(** On a call graph and a metrics snapshot whose pointers are all set,
    the engine on pointers does what the engine on the values does. *)
Lemma Ptr_CalculateCosts_set c callGraph metricsSnapshot timeRange :
  ∃ report,
    CalculateCosts c callGraph metricsSnapshot timeRange = Some (report, None)
    ∧ Ptr.CalculateCosts c (ptrCallGraph callGraph) (ptrMetricsSnapshot metricsSnapshot)
        timeRange
      = Ok (report, None).
Proof.
  destruct (CalculateCosts_returns c callGraph metricsSnapshot timeRange) as [report Hrun].
  exists report. split; [done|]. revert Hrun. unfold Ptr.CalculateCosts, CalculateCosts.
  destruct (servicesLoop c callGraph metricsSnapshot (Hours timeRange) (cg_Services callGraph) _)
    as [report0|] eqn:Hloop; [|done].
  change (Ptr.cg_Services (ptrCallGraph callGraph))
    with (map (fun kv => (kv.1, Some (ptrService kv.2))) (cg_Services callGraph)).
  rewrite (Ptr_servicesLoop_set _ _ _ _ _ _ _ Hloop). cbn. by intros [= <-].
Qed.

(** C10. [CalculateCosts] never returns a non-nil error: it returns a
    report with a nil error, or a nil pointer stops it with a panic.  It
    panics when some endpoint of some service of the call graph has no
    [Service], as every endpoint of a call graph has that was read from a
    file; and likewise when the call graph holds a nil service or a nil
    endpoint, when the metrics of a service hold a nil pointer under the
    key of one of its endpoints, and when there is a nil dependency and
    some service has an endpoint.  It returns when every pointer of the
    call graph and of the metrics is set. *)
Theorem CalculateCosts_nil_Service_panics c callGraph metricsSnapshot timeRange :
  (Ptr.CalculateCosts c callGraph metricsSnapshot timeRange = Panic
   ∨ ∃ report, Ptr.CalculateCosts c callGraph metricsSnapshot timeRange = Ok (report, None))
  ∧ (∀ name service endpoint,
       (name, Some service) ∈ Ptr.cg_Services callGraph →
       Some endpoint ∈ Ptr.Endpoints service →
       Ptr.ep_Service endpoint = None →
       Ptr.CalculateCosts c callGraph metricsSnapshot timeRange = Panic)
  ∧ (∀ callGraph' metricsSnapshot',
       callGraph = ptrCallGraph callGraph' →
       metricsSnapshot = ptrMetricsSnapshot metricsSnapshot' →
       ∃ report, Ptr.CalculateCosts c callGraph metricsSnapshot timeRange = Ok (report, None))
  ∧ (∀ name,
       (name, None) ∈ Ptr.cg_Services callGraph →
       Ptr.CalculateCosts c callGraph metricsSnapshot timeRange = Panic)
  ∧ (∀ name service,
       (name, Some service) ∈ Ptr.cg_Services callGraph →
       None ∈ Ptr.Endpoints service →
       Ptr.CalculateCosts c callGraph metricsSnapshot timeRange = Panic)
  ∧ (∀ name service endpoint serviceMetrics,
       (name, Some service) ∈ Ptr.cg_Services callGraph →
       Some endpoint ∈ Ptr.Endpoints service →
       Ptr.ms_Services metricsSnapshot !! name = Some (Some serviceMetrics) →
       Ptr.sm_Endpoints serviceMetrics
         !! colonKey (Ptr.ep_Path endpoint) (Ptr.ep_Method endpoint) = Some None →
       Ptr.CalculateCosts c callGraph metricsSnapshot timeRange = Panic)
  ∧ (∀ name service,
       (name, Some service) ∈ Ptr.cg_Services callGraph →
       Ptr.Endpoints service ≠ [] →
       None ∈ Ptr.Dependencies callGraph →
       Ptr.CalculateCosts c callGraph metricsSnapshot timeRange = Panic).
Proof.
  assert (∀ name service,
            (name, service) ∈ Ptr.cg_Services callGraph →
            Ptr.calculateServiceCost c callGraph metricsSnapshot (Hours timeRange) name service
            = Panic →
            Ptr.CalculateCosts c callGraph metricsSnapshot timeRange = Panic) as Hpanics.
  { intros name service Hin Hpanic. unfold Ptr.CalculateCosts.
    by rewrite (Ptr_servicesLoop_panics _ _ _ _ _ _ name service). }
  split_and!.
  - apply Ptr_CalculateCosts_nil_error.
  - intros name service endpoint Hservice Hendpoint Hnil.
    apply (Hpanics name (Some service) Hservice).
    apply (Ptr_calculateServiceCost_panics _ _ _ _ _ _ (Some endpoint) Hendpoint).
    unfold Ptr.calculateEndpointCost. by rewrite Hnil.
  - intros callGraph' metricsSnapshot' -> ->.
    destruct (Ptr_CalculateCosts_set c callGraph' metricsSnapshot' timeRange)
      as (report & _ & Hrun).
    by exists report.
  - intros name Hservice. by apply (Hpanics name None Hservice).
  - intros name service Hservice Hendpoint.
    apply (Hpanics name (Some service) Hservice).
    by apply (Ptr_calculateServiceCost_panics _ _ _ _ _ _ None Hendpoint).
  - intros name service endpoint serviceMetrics Hservice Hendpoint Hmetrics Hnil.
    apply (Hpanics name (Some service) Hservice).
    apply (Ptr_calculateServiceCost_panics _ _ _ _ _ _ (Some endpoint) Hendpoint).
    unfold Ptr.calculateEndpointCost, Ptr.GetServiceMetrics. rewrite Hmetrics, Hnil.
    by destruct (Ptr.ep_Service endpoint).
  - intros name service Hservice Hendpoints Hdependency.
    apply (Hpanics name (Some service) Hservice).
    by apply Ptr_calculateServiceCost_nil_dependency.
Qed.

End pointers.

(** The call graph with one endpoint as it is read from a file, and the
    same call graph with the pointer set. *)
Lemma CalculateCosts_nil_Service_panics_witness :
  Ptr.CalculateCosts (H := exampleLib) cpuOnlyCalculator decodedCallGraph noMetrics oneHour
  = Panic
  ∧ ∃ report,
      Ptr.CalculateCosts (H := exampleLib) cpuOnlyCalculator
        (ptrCallGraph
           {| cg_Services :=
                [("api", {| Name := "api"; Path := "./api";
                            Endpoints := [{| ep_Path := "/a"; ep_Method := "GET";
                                             ep_Service := "api" |}] |})];
              Dependencies := [] |})
        (ptrMetricsSnapshot {| ms_Services := ∅; ms_TimeRange := oneHour |}) oneHour
      = Ok (report, None).
Proof.
  split.
  - refine (proj1 (proj2 (CalculateCosts_nil_Service_panics (H := exampleLib)
              cpuOnlyCalculator decodedCallGraph noMetrics oneHour)) "api" _ _ _ _ _).
    + left.
    + left.
    + reflexivity.
  - exact (proj1 (proj2 (proj2 (CalculateCosts_nil_Service_panics (H := exampleLib)
              cpuOnlyCalculator _ _ oneHour))) _ _ eq_refl eq_refl).
Defined.

(** ** The entries of the walk are the entries of dependency chains *)

Lemma chainCost_ext endpointCosts endpointCosts' chain :
  (∀ key, directCostAt endpointCosts key = directCostAt endpointCosts' key) →
  chainCost endpointCosts chain = chainCost endpointCosts' chain.
Proof.
  intros Hext. induction chain as [|dep rest IH]; [done|]. cbn [chainCost].
  destruct rest; [|by rewrite IH].
  unfold targetDirectCost. by rewrite (Hext (colonKey (ToEndpoint dep) "GET")).
Qed.

Lemma entryFor_ext callGraph endpointCosts endpointCosts' service path depth entry :
  (∀ key, directCostAt endpointCosts key = directCostAt endpointCosts' key) →
  entryFor callGraph endpointCosts service path depth entry →
  entryFor callGraph endpointCosts' service path depth entry.
Proof.
  intros Hext (chain & final & Hchain & Hlast & Hdepth & Hmax & Hs & He & Hw & Hcost).
  exists chain, final. split_and!; try done. by rewrite <- (chainCost_ext _ _ _ Hext).
Qed.

Lemma entryFor_nested callGraph endpointCosts endpoint depth dep targetService targetEndpoint nc :
  dep ∈ Dependencies callGraph →
  FromService dep = ep_Service endpoint →
  FromEndpoint dep = ep_Path endpoint →
  GetService callGraph (ToService dep) = Some targetService →
  GetEndpoint targetService (ToEndpoint dep) "GET" = Some targetEndpoint →
  entryFor callGraph endpointCosts (ep_Service targetEndpoint) (ep_Path targetEndpoint)
    (depth + 1) nc →
  entryFor callGraph endpointCosts (ep_Service endpoint) (ep_Path endpoint) depth
    (scaleCost (dep_Weight dep) nc).
Proof.
  intros Hdep Hfs Hfe Hsvc Hep
    (chain & final & Hchain & Hlast & Hdepth & Hmax & Hs & He & Hw & Hcost).
  destruct chain as [|d chain]; [done|].
  exists (dep :: d :: chain), final. split_and!; try done.
  - cbn [chainFrom]. split_and!; try done. by exists targetService, targetEndpoint.
  - cbn [scaleCost Depth]. rewrite Hdepth. cbn [length]. lia.
  - cbn [scaleCost dc_Cost]. by rewrite Hcost.
Qed.

Lemma downstreamLoop_sound recur endpoint callGraph endpointCosts depth deps acc visited costs visited' :
  depth ≤ maxDepth →
  (∀ ep v costs' v',
     recur ep (depth + 1) v = Some (costs', v') →
     Forall (entryFor callGraph endpointCosts (ep_Service ep) (ep_Path ep) (depth + 1)) costs') →
  (∀ dep, dep ∈ deps → dep ∈ Dependencies callGraph) →
  Forall (entryFor callGraph endpointCosts (ep_Service endpoint) (ep_Path endpoint) depth) acc →
  downstreamLoop recur endpoint callGraph endpointCosts depth deps acc visited
  = Some (costs, visited') →
  Forall (entryFor callGraph endpointCosts (ep_Service endpoint) (ep_Path endpoint) depth) costs.
Proof.
  intros Hmax Hrec. revert acc visited.
  induction deps as [|dep deps IH]; intros acc visited Hdeps Hacc; cbn [downstreamLoop].
  { by intros [= <- <-]. }
  assert (∀ d, d ∈ deps → d ∈ Dependencies callGraph) as Hdeps' by (intros; apply Hdeps; by right).
  destruct (_ && _) eqn:Hmatch; [|by apply IH].
  apply andb_true_iff in Hmatch as [Hfs%String.eqb_eq Hfe%String.eqb_eq].
  destruct (decide _) as [Hin|Hnotin]; [by apply IH|].
  assert (Forall (entryFor callGraph endpointCosts (ep_Service endpoint) (ep_Path endpoint) depth)
            (acc ++ [ {| dc_Service := ToService dep; dc_Endpoint := ToEndpoint dep;
                         dc_Cost := (match sm_get endpointCosts (colonKey (ToEndpoint dep) "GET") with
                                     | Some ec => ec_DirectCost ec
                                     | None => 0
                                     end * dep_Weight dep)%float;
                         CallsPerRequest := dep_Weight dep; Depth := depth + 1 |} ])) as Hacc'.
  { apply Forall_app. split; [done|]. apply Forall_singleton.
    exists [dep], dep. split_and!; try done.
    - cbn [chainFrom]. split_and!; try done. apply Hdeps. left.
    - cbn [Depth]. lia. }
  destruct (GetService _ _) as [targetService|] eqn:Hsvc; [|by apply IH].
  destruct (GetEndpoint _ _ _) as [targetEndpoint|] eqn:Hep; [|by apply IH].
  destruct (recur _ _ _) as [[nested visited1]|] eqn:Hnested; [|done].
  apply IH; [done|]. apply Forall_app. split; [done|].
  apply Forall_fmap. eapply Forall_impl; [by eapply Hrec|].
  intros nc Hnc. eapply entryFor_nested; try done. apply Hdeps. left.
Qed.

Lemma calculateDownstreamCosts_sound fuel endpoint callGraph endpointCosts depth visited costs visited' :
  calculateDownstreamCosts fuel endpoint callGraph endpointCosts depth visited
  = Some (costs, visited') →
  Forall (entryFor callGraph endpointCosts (ep_Service endpoint) (ep_Path endpoint) depth) costs.
Proof.
  revert endpoint depth visited costs visited'.
  induction fuel as [|fuel IH]; intros endpoint depth visited costs visited'; [done|].
  cbn [calculateDownstreamCosts]. destruct (maxDepth <? depth) eqn:Hd.
  { intros [= <- <-]. constructor. }
  apply Z.ltb_ge in Hd. apply downstreamLoop_sound; [done| |done|constructor].
  intros ep v costs' v'. apply IH.
Qed.

Lemma directLoop_origin c serviceMetrics durationHours eps sc k ec :
  (k, ec) ∈ sc_Endpoints (directLoop c serviceMetrics durationHours eps sc) →
  (k, ec) ∈ sc_Endpoints sc
  ∨ ∃ endpoint, endpoint ∈ eps ∧ endpointKey endpoint = k
                ∧ ec = calculateEndpointCost c endpoint serviceMetrics durationHours.
Proof.
  unfold directLoop. revert sc.
  induction eps as [|endpoint eps IH]; intros sc; cbn [fold_left]; [by left|].
  intros [Hin|(ep & Hep & Hkey & Hec)]%IH.
  - rewrite directStep_Endpoints in Hin. apply sm_set_elem in Hin as [[-> ->]|Hin]; [|by left].
    right. exists endpoint. split; [left|done].
  - right. exists ep. split; [by right|done].
Qed.

Lemma directLoop_get_other c serviceMetrics durationHours eps sc k :
  k ∉ map endpointKey eps →
  sm_get (sc_Endpoints (directLoop c serviceMetrics durationHours eps sc)) k
  = sm_get (sc_Endpoints sc) k.
Proof.
  unfold directLoop. revert sc.
  induction eps as [|endpoint eps IH]; intros sc Hk; cbn [fold_left]; [done|].
  cbn [map] in Hk. apply not_elem_of_cons in Hk as [Hne Hk].
  rewrite IH by done. rewrite directStep_Endpoints. by apply sm_get_set_ne.
Qed.

Lemma directLoop_get c serviceMetrics durationHours eps sc endpoint :
  NoDup (map endpointKey eps) → endpoint ∈ eps →
  sm_get (sc_Endpoints (directLoop c serviceMetrics durationHours eps sc)) (endpointKey endpoint)
  = Some (calculateEndpointCost c endpoint serviceMetrics durationHours).
Proof.
  revert sc. induction eps as [|ep eps IH]; intros sc Hnd Hin; [by apply elem_of_nil in Hin|].
  cbn [map] in Hnd. apply NoDup_cons in Hnd as [Hfresh Hnd].
  apply elem_of_cons in Hin as [->|Hin].
  - change (directLoop c serviceMetrics durationHours (ep :: eps) sc)
      with (directLoop c serviceMetrics durationHours eps
              (directStep c serviceMetrics durationHours sc ep)).
    rewrite directLoop_get_other by done. rewrite directStep_Endpoints. apply sm_get_set_eq.
  - by apply IH.
Qed.

Lemma directCostAt_finalize endpointCosts key ec downstreamCosts k :
  sm_get endpointCosts key = Some ec →
  directCostAt (sm_set endpointCosts key (finalizeEndpointCost ec downstreamCosts)) k
  = directCostAt endpointCosts k.
Proof.
  intros Hget. unfold directCostAt. destruct (decide (key = k)) as [<-|Hne].
  - by rewrite sm_get_set_eq, Hget.
  - by rewrite sm_get_set_ne.
Qed.

Lemma attributeLoop_chains callGraph allEndpoints endpointCosts0 eps endpointCosts endpointCosts' :
  attributeLoop callGraph eps endpointCosts = Some endpointCosts' →
  (∀ ep, ep ∈ eps → ep ∈ allEndpoints) →
  (∀ k, directCostAt endpointCosts k = directCostAt endpointCosts0 k) →
  (∀ k ec, (k, ec) ∈ endpointCosts → chainsOf callGraph endpointCosts0 allEndpoints k ec) →
  (∀ k, directCostAt endpointCosts' k = directCostAt endpointCosts0 k)
  ∧ (∀ k ec, (k, ec) ∈ endpointCosts' → chainsOf callGraph endpointCosts0 allEndpoints k ec).
Proof.
  revert endpointCosts.
  induction eps as [|endpoint eps IH]; intros endpointCosts Hrun Hsub Hdirect Hchains;
    cbn [attributeLoop] in Hrun.
  { by injection Hrun as <-. }
  fold (endpointKey endpoint) in Hrun.
  destruct (sm_get endpointCosts (endpointKey endpoint)) as [ec0|] eqn:Hget; [|done].
  destruct (calculateDownstreamCosts 12 endpoint callGraph endpointCosts 0 ∅)
    as [[costs visited']|] eqn:Hwalk; [|done].
  apply (IH _ Hrun).
  - intros ep Hep. apply Hsub. by right.
  - intros k. by rewrite (directCostAt_finalize _ _ _ _ _ Hget).
  - intros k ec [[-> ->]|Hin]%sm_set_elem; [|by apply Hchains].
    intros entry Hentry. cbn [finalizeEndpointCost DownstreamCosts] in Hentry.
    exists endpoint. split_and!; [apply Hsub; left|done|].
    apply (entryFor_ext callGraph endpointCosts); [done|].
    apply calculateDownstreamCosts_sound in Hwalk.
    by apply (proj1 (Forall_forall _ _) Hwalk).
Qed.

Lemma calculateServiceCost_chains `{GoLib} c callGraph metricsSnapshot durationHours serviceName service sc :
  calculateServiceCost c callGraph metricsSnapshot durationHours serviceName service = Some sc →
  (∀ k ec, (k, ec) ∈ sc_Endpoints sc →
     chainsOf callGraph (sc_Endpoints sc) (Endpoints service) k ec)
  ∧ (NoDup (map endpointKey (Endpoints service)) →
     ∀ endpoint, endpoint ∈ Endpoints service →
       directCostAt (sc_Endpoints sc) (endpointKey endpoint)
       = ec_DirectCost (calculateEndpointCost c endpoint
                          (GetServiceMetrics metricsSnapshot serviceName) durationHours))
  ∧ (∀ k, k ∉ map endpointKey (Endpoints service) →
       directCostAt (sc_Endpoints sc) k = 0%float).
Proof.
  unfold calculateServiceCost.
  set (sc0 := directLoop c (GetServiceMetrics metricsSnapshot serviceName) durationHours
                (Endpoints service) (emptyServiceCost serviceName)).
  destruct (attributeLoop callGraph (Endpoints service) (sc_Endpoints sc0))
    as [endpoints|] eqn:Hrun; [|done].
  intros [= <-]. cbn [sc_Endpoints].
  destruct (attributeLoop_chains callGraph (Endpoints service) (sc_Endpoints sc0)
              (Endpoints service) (sc_Endpoints sc0) endpoints Hrun)
    as [Hdirect Hchains]; [done|done| |].
  { intros k ec Hin entry Hentry. exfalso.
    apply directLoop_origin in Hin as [Hin|(ep & _ & _ & ->)].
    - by apply elem_of_nil in Hin.
    - revert Hentry. unfold calculateEndpointCost.
      repeat case_match; cbn [DownstreamCosts]; apply not_elem_of_nil. }
  split_and!.
  - intros k ec Hin entry Hentry.
    destruct (Hchains k ec Hin entry Hentry) as (endpoint & Hep & Hkey & Hfor).
    exists endpoint. split_and!; [done|done|].
    apply (entryFor_ext callGraph (sc_Endpoints sc0)); [|done].
    intros key. by rewrite Hdirect.
  - intros Hnd endpoint Hep. rewrite Hdirect. unfold directCostAt, sc0.
    by rewrite directLoop_get.
  - intros k Hk. rewrite Hdirect. unfold directCostAt, sc0.
    by rewrite directLoop_get_other.
Qed.

Lemma servicesLoop_origin `{GoLib} c callGraph metricsSnapshot durationHours services report report' name sc :
  servicesLoop c callGraph metricsSnapshot durationHours services report = Some report' →
  (name, sc) ∈ cr_Services report' →
  (name, sc) ∈ cr_Services report
  ∨ ∃ service,
      (name, service) ∈ services
      ∧ calculateServiceCost c callGraph metricsSnapshot durationHours name service = Some sc.
Proof.
  revert report. induction services as [|[serviceName service] services IH];
    intros report Hrun Hin; cbn [servicesLoop] in Hrun.
  { injection Hrun as <-. by left. }
  destruct (calculateServiceCost c callGraph metricsSnapshot durationHours serviceName service)
    as [serviceCost|] eqn:Hsc; [|done].
  destruct (IH _ Hrun Hin) as [Hold|(service' & Hsvc & Hcalc)].
  - cbn [AddServiceCost cr_Services] in Hold.
    destruct (calculateServiceCost_spec c callGraph metricsSnapshot durationHours
                serviceName service) as (sc' & Hsc' & Hname & _).
    rewrite Hsc in Hsc'. injection Hsc' as <-. rewrite Hname in Hold.
    apply sm_set_elem in Hold as [[-> ->]|Hold]; [|by left].
    right. exists service. split; [left|done].
  - right. exists service'. split; [by right|done].
Qed.

(** ** Downstream attribution *)

(** A dependency whose target key is in [visited] adds nothing. *)
Lemma visited_target_is_pruned recur endpoint callGraph endpointCosts depth dep deps acc visited :
  colonKey (ToService dep) (ToEndpoint dep) ∈ visited →
  downstreamLoop recur endpoint callGraph endpointCosts depth (dep :: deps) acc visited
  = downstreamLoop recur endpoint callGraph endpointCosts depth deps acc visited.
Proof.
  intros Hin. cbn [downstreamLoop]. destruct (_ && _); [|done].
  by rewrite decide_True.
Qed.

(** Within one service the entries of a chain carry the weights of the
    chain: [/b] costs 5, so the entry for [/b] is [5 * 2]; [/c] costs 7,
    so the entry for [/c] below [/b] is [7 * 3 * 2]. *)
Example downstream_chain_same_service :
  ∃ report sc ec,
    CalculateCosts (H := exampleLib) cpuOnlyCalculator chain chainMetrics oneHour
    = Some (report, None)
    ∧ sm_get (cr_Services report) "api" = Some sc
    ∧ sm_get (sc_Endpoints sc) "/a:GET" = Some ec
    ∧ DownstreamCosts ec
      = [ {| dc_Service := "api"; dc_Endpoint := "/b"; dc_Cost := (5 * 2)%float;
             CallsPerRequest := 2; Depth := 1 |};
          {| dc_Service := "api"; dc_Endpoint := "/c"; dc_Cost := (7 * 3 * 2)%float;
             CallsPerRequest := 3; Depth := 2 |} ].
Proof. do 3 eexists. split_and!; vm_compute; reflexivity. Qed.

(** A dependency that crosses services.  [backend:/api] has direct cost 2
    and is called 3 times per request of [frontend:/home], yet the entry
    for it has cost 0: the cost is read among the endpoint costs of the
    service under attribution, under the key ["/api:GET"]. *)
Example downstream_cross_service_cost :
  ∃ report front back home api entry,
    CalculateCosts (H := exampleLib) cpuOnlyCalculator crossService crossServiceMetrics oneHour
    = Some (report, None)
    ∧ sm_get (cr_Services report) "frontend" = Some front
    ∧ sm_get (sc_Endpoints front) "/home:GET" = Some home
    ∧ sm_get (cr_Services report) "backend" = Some back
    ∧ sm_get (sc_Endpoints back) "/api:GET" = Some api
    ∧ ec_DirectCost api = 2%float
    ∧ DownstreamCosts home = [entry]
    ∧ (dc_Service entry, dc_Endpoint entry, CallsPerRequest entry, Depth entry)
      = ("backend", "/api", 3%float, 1)
    ∧ dc_Cost entry = 0%float
    ∧ dc_Cost entry ≠ (ec_DirectCost api * CallsPerRequest entry)%float.
Proof.
  do 6 eexists. split_and!; try (vm_compute; reflexivity).
  vm_compute. discriminate.
Qed.

(** C1, as stated, at a target that is served by POST only: [/b] has
    direct cost 5 and is called twice per request of [/a], and the depth-1
    entry for it has cost 0, not [5 * 2]. *)
Lemma downstream_non_GET_target :
  ∃ report sc a b entry,
    CalculateCosts (H := exampleLib) cpuOnlyCalculator postTarget postTargetMetrics oneHour
    = Some (report, None)
    ∧ sm_get (cr_Services report) "api" = Some sc
    ∧ sm_get (sc_Endpoints sc) "/a:GET" = Some a
    ∧ sm_get (sc_Endpoints sc) "/b:POST" = Some b
    ∧ ec_DirectCost b = 5%float
    ∧ DownstreamCosts a = [entry]
    ∧ (dc_Service entry, dc_Endpoint entry, CallsPerRequest entry, Depth entry)
      = ("api", "/b", 2%float, 1)
    ∧ dc_Cost entry = 0%float
    ∧ dc_Cost entry ≠ (ec_DirectCost b * CallsPerRequest entry)%float.
Proof.
  do 5 eexists. split_and!; try (vm_compute; reflexivity).
  vm_compute. discriminate.
Qed.

Section chain_cost.
Context `{GoLib}.

(** C1, amended. In a report produced by [CalculateCosts], every
    downstream entry of an endpoint cost is the entry of a dependency chain
    [d1; ...; dk] that leaves an endpoint filed under that key, each next
    dependency leaving the GET endpoint found at the target of the one
    before: the entry has depth [k], at most 11, carries the target and the
    weight of [dk], and its cost is the direct cost filed under ["<target path>:GET"]
    among the endpoint costs of the service under attribution (0 when there
    is none), times [wk], ..., times [w1].  When the endpoints of that
    service have distinct keys the direct cost so read is that of the
    service's GET endpoint at the target path, and it is 0 when the service
    has no endpoint with that key. *)
Theorem downstream_chain_cost c callGraph metricsSnapshot timeRange report err name sc key ec entry :
  CalculateCosts c callGraph metricsSnapshot timeRange = Some (report, err) →
  (name, sc) ∈ cr_Services report →
  (key, ec) ∈ sc_Endpoints sc →
  entry ∈ DownstreamCosts ec →
  ∃ service endpoint chain final,
    (name, service) ∈ cg_Services callGraph
    ∧ endpoint ∈ Endpoints service
    ∧ endpointKey endpoint = key
    ∧ chainFrom callGraph (ep_Service endpoint) (ep_Path endpoint) chain
    ∧ last chain = Some final
    ∧ Depth entry = Z.of_nat (length chain)
    ∧ Depth entry ≤ maxDepth + 1
    ∧ dc_Service entry = ToService final
    ∧ dc_Endpoint entry = ToEndpoint final
    ∧ CallsPerRequest entry = dep_Weight final
    ∧ dc_Cost entry = chainCost (sc_Endpoints sc) chain
    ∧ (NoDup (map endpointKey (Endpoints service)) →
       ∀ target, target ∈ Endpoints service →
         ep_Path target = ToEndpoint final → ep_Method target = "GET" →
         targetDirectCost (sc_Endpoints sc) final
         = ec_DirectCost (calculateEndpointCost c target
                            (GetServiceMetrics metricsSnapshot name) (Hours timeRange)))
    ∧ (colonKey (ToEndpoint final) "GET" ∉ map endpointKey (Endpoints service) →
       targetDirectCost (sc_Endpoints sc) final = 0%float).
Proof.
  intros (report0 & Hrun & Hsv & _)%CalculateCosts_inv Hsc Hec Hentry.
  rewrite Hsv in Hsc.
  destruct (servicesLoop_origin _ _ _ _ _ _ _ _ _ Hrun Hsc) as [Hnil|(service & Hsvc & Hcalc)].
  { by apply elem_of_nil in Hnil. }
  destruct (calculateServiceCost_chains _ _ _ _ _ _ _ Hcalc) as (Hchains & Hdirect & Hnone).
  destruct (Hchains key ec Hec entry Hentry)
    as (endpoint & Hep & Hkey & chain & final & Hchain & Hlast & Hdepth & Hmax
        & Hs & He & Hw & Hcost).
  exists service, endpoint, chain, final. split_and!; try done.
  - intros Hnd target Htarget Hpath Hmethod.
    rewrite <- (Hdirect Hnd target Htarget). unfold targetDirectCost, endpointKey.
    by rewrite Hpath, Hmethod.
  - intros Hk. by apply Hnone.
Qed.

End chain_cost.

(** The chain [/a -> /b -> /c] with weights 2 and 3: the entry for [/c]
    has depth 2 and cost [7 * 3 * 2], [/c] costing 7 by itself. *)
Lemma downstream_chain_cost_witness :
  ∃ report sc ec entry,
    CalculateCosts (H := exampleLib) cpuOnlyCalculator chain chainMetrics oneHour
    = Some (report, None)
    ∧ sm_get (cr_Services report) "api" = Some sc
    ∧ sm_get (sc_Endpoints sc) "/a:GET" = Some ec
    ∧ DownstreamCosts ec !! 1%nat = Some entry
    ∧ (dc_Endpoint entry, Depth entry, dc_Cost entry) = ("/c", 2, (7 * 3 * 2)%float)
    ∧ ∃ deps final,
        chainFrom chain "api" "/a" deps
        ∧ last deps = Some final
        ∧ Depth entry = Z.of_nat (length deps)
        ∧ dc_Endpoint entry = ToEndpoint final
        ∧ dc_Cost entry = chainCost (sc_Endpoints sc) deps.
Proof.
  do 4 eexists.
  assert (∀ P Q : Prop, P → (P → Q) → P ∧ Q) as step by tauto.
  apply step; [vm_compute; reflexivity|intros Hrun].
  apply step; [vm_compute; reflexivity|intros Hsc].
  apply step; [vm_compute; reflexivity|intros Hec].
  apply step; [vm_compute; reflexivity|intros Hentry].
  split; [vm_compute; reflexivity|].
  destruct (downstream_chain_cost (H := exampleLib) _ _ _ _ _ _ _ _ _ _ _ Hrun
              (sm_get_Some_elem _ _ _ Hsc) (sm_get_Some_elem _ _ _ Hec)
              (list_elem_of_lookup_2 _ _ _ Hentry))
    as (service & endpoint & deps & final & Hsvc & Hep & Hkey & Hchain & Hlast & Hdepth
        & _ & _ & Hto & _ & Hcost & _).
  exists deps, final.
  assert (endpoint = getEndpoint "api" "/a") as ->.
  { apply list_elem_of_singleton in Hsvc. injection Hsvc as ->. cbn [Endpoints] in Hep.
    apply elem_of_cons in Hep as [->|Hep]; [reflexivity|exfalso].
    apply elem_of_cons in Hep as [->|Hep]; [vm_compute in Hkey; discriminate Hkey|].
    apply elem_of_cons in Hep as [->|Hep]; [vm_compute in Hkey; discriminate Hkey|].
    by apply elem_of_nil in Hep. }
  split_and!; done.
Defined.

(** C4 at a two-endpoint cycle.  The walk from [a:/x] enters [b:/y], then
    enters [a:/x] again although the walk started there (entry at depth
    2), and runs its dependencies once more (the entry for [c:/z] at depth
    3); only the second arrival at [b:/y] is pruned. *)
Theorem downstream_reenters_root :
  ∃ costs,
    calculateDownstreamCosts 12 (getEndpoint "a" "/x") pingPong [] 0 ∅ = Some (costs, ∅)
    ∧ map (fun dc => (dc_Service dc, dc_Endpoint dc, Depth dc)) costs
      = [("b", "/y", 1); ("a", "/x", 2); ("c", "/z", 3); ("c", "/z", 1)].
Proof. eexists. split; vm_compute; reflexivity. Qed.

(** ** Path enumeration *)

Section paths.
Variable g : Graph.
Variables (endID : string) (maxDepth : Z).

Lemma pathFrom_at_end avoid budget current q :
  ID current = endID →
  pathFrom g endID avoid budget current q →
  q = [current].
Proof.
  intros Hend (Hhead & _ & Hnd & _ & Hlast & _).
  destruct q as [|a q]; [done|]. cbn in Hhead. injection Hhead as ->.
  destruct q as [|b q]; [done|]. exfalso.
  cbn [map] in Hnd. apply NoDup_cons in Hnd as [Hnotin _]. apply Hnotin.
  change (last (current :: b :: q)) with (last (b :: q)) in Hlast.
  destruct (last (b :: q)) as [z|] eqn:Hz; [|done].
  cbn in Hlast. injection Hlast as Hlast.
  rewrite Hend, <- Hlast. change (ID z ∈ map ID (b :: q)).
  apply list_elem_of_fmap_2. by apply last_Some_elem_of.
Qed.

Lemma pathFrom_step avoid budget current q :
  ID current ≠ endID →
  pathFrom g endID avoid budget current q ↔
  ∃ edge q',
    q = current :: q'
    ∧ edge ∈ GetOutgoingEdges g current
    ∧ (ID (To edge) ∉ {[ID current]} ∪ avoid)
    ∧ (ID current ∉ avoid)
    ∧ pathFrom g endID ({[ID current]} ∪ avoid) (budget - 1) (To edge) q'.
Proof.
  intros Hne. split.
  - intros (Hhead & Hwalk & Hnd & Havoid & Hlast & Hlen).
    destruct q as [|a q]; [done|]. cbn in Hhead. injection Hhead as ->.
    destruct q as [|b q].
    { cbn in Hlast. by injection Hlast. }
    destruct Hwalk as [(edge & Hedge & Hfrom & Hto) Hwalk].
    cbn [map] in Hnd. apply NoDup_cons in Hnd as [Hnotin Hnd].
    exists edge, (b :: q). split_and!; [done| | | |].
    + unfold GetOutgoingEdges. apply list_elem_of_filter. done.
    + rewrite Hto. rewrite not_elem_of_union, not_elem_of_singleton. split.
      * intros Heq. apply Hnotin. rewrite <- Heq. left.
      * apply Havoid. right. left.
    + apply Havoid. left.
    + rewrite Hto. split_and!; [done|done|done| |done|].
      * intros n Hn. rewrite not_elem_of_union, not_elem_of_singleton. split.
        -- intros Heq. apply Hnotin. rewrite <- Heq.
           exact (list_elem_of_fmap_2 ID (b :: q) n Hn).
        -- apply Havoid. by right.
      * cbn [length] in *. lia.
  - intros (edge & q' & -> & Hedge & Hto & Hcur & Hhead & Hwalk & Hnd & Havoid & Hlast & Hlen).
    unfold GetOutgoingEdges in Hedge. apply list_elem_of_filter in Hedge as [Hfrom Hedge].
    destruct q' as [|b q']; [done|]. cbn in Hhead. injection Hhead as ->.
    split_and!; [done| | | |done|].
    + split; [by exists edge|done].
    + cbn [map]. apply NoDup_cons. split; [|done].
      intros Hin. apply (list_elem_of_fmap ID (To edge :: q')) in Hin as (n & Hid & Hn).
      apply (Havoid n Hn). rewrite <- Hid. set_solver.
    + intros n [->|Hn]%elem_of_cons; [done|].
      specialize (Havoid n Hn). set_solver.
    + cbn [length] in *. lia.
Qed.

Lemma pathsLoop_spec recur prefix avoid es paths :
  (∀ next paths', ID next ∉ avoid →
     ∃ found,
       recur next (avoid, paths') = Ok (avoid, paths' ++ found)
       ∧ ∀ p, p ∈ found ↔
           ∃ q, p = prefix ++ q
                ∧ pathFrom g endID avoid (maxDepth + 1 - Z.of_nat (length prefix)) next q) →
  ∃ found,
    pathsLoop recur es (avoid, paths) = Ok (avoid, paths ++ found)
    ∧ ∀ p, p ∈ found ↔
        ∃ edge q, edge ∈ es ∧ (ID (To edge) ∉ avoid) ∧ p = prefix ++ q
                  ∧ pathFrom g endID avoid (maxDepth + 1 - Z.of_nat (length prefix)) (To edge) q.
Proof.
  intros Hrec. revert paths. induction es as [|edge es IH]; intros paths; cbn [pathsLoop].
  - exists []. rewrite app_nil_r. split; [done|]. intros p. split.
    + intros Hp. by apply elem_of_nil in Hp.
    + intros (edge & q & Hedge & _). by apply elem_of_nil in Hedge.
  - cbn [fst]. destruct (decide (ID (To edge) ∈ avoid)) as [Hin|Hnotin].
    + destruct (IH paths) as (found & -> & Hfound). exists found. split; [done|].
      intros p. rewrite Hfound. split.
      * intros (e & q & He & Hrest). exists e, q. split; [by right|done].
      * intros (e & q & [->|He]%elem_of_cons & Hto & Hrest); [done|]. by exists e, q.
    + destruct (Hrec (To edge) paths Hnotin) as (found1 & -> & Hfound1).
      destruct (IH (paths ++ found1)) as (found2 & -> & Hfound2).
      exists (found1 ++ found2). rewrite app_assoc. split; [done|].
      intros p. rewrite elem_of_app, Hfound1, Hfound2. split.
      * intros [(q & -> & Hq)|(e & q & He & Hrest)].
        -- exists edge, q. split_and!; [left|done..].
        -- exists e, q. split; [by right|done].
      * intros (e & q & [->|He]%elem_of_cons & Hto & -> & Hq).
        -- left. by exists q.
        -- right. by exists e, q.
Qed.

Lemma findPathsDFS_spec fuel current prefix avoid paths :
  ID current ∉ avoid →
  Z.max 0 (maxDepth + 1 - Z.of_nat (length prefix)) < Z.of_nat fuel →
  ∃ found,
    findPathsDFS fuel g current endID maxDepth prefix (avoid, paths) = Ok (avoid, paths ++ found)
    ∧ ∀ p, p ∈ found ↔
        ∃ q, p = prefix ++ q
             ∧ pathFrom g endID avoid (maxDepth + 1 - Z.of_nat (length prefix)) current q.
Proof.
  revert current prefix avoid paths.
  induction fuel as [|fuel IH]; intros current prefix avoid paths Hcur Hfuel; [lia|].
  cbn [findPathsDFS fst snd].
  destruct (maxDepth <? Z.of_nat (length prefix)) eqn:Hdepth.
  { apply Z.ltb_lt in Hdepth. exists []. rewrite app_nil_r. split; [done|].
    intros p. split; [intros Hp; by apply elem_of_nil in Hp|].
    intros (q & _ & Hhead & _ & _ & _ & _ & Hlen). destruct q; [done|]. cbn [length] in Hlen. lia. }
  apply Z.ltb_ge in Hdepth.
  assert (({[ID current]} ∪ avoid) ∖ {[ID current]} = avoid) as Hpop by set_solver.
  destruct (String.eqb (ID current) endID) eqn:Hend.
  - apply String.eqb_eq in Hend. rewrite Hpop.
    exists [prefix ++ [current]]. split; [done|].
    intros p. rewrite list_elem_of_singleton. split.
    + intros ->. exists [current]. split; [done|].
      split_and!; [done|done|apply NoDup_singleton| |by cbn; rewrite Hend|cbn; lia].
      intros n ->%list_elem_of_singleton. done.
    + intros (q & -> & Hq). by rewrite (pathFrom_at_end _ _ _ _ Hend Hq).
  - apply String.eqb_neq in Hend.
    destruct (pathsLoop_spec
                (fun next (st' : pathState) =>
                   findPathsDFS fuel g next endID maxDepth (prefix ++ [current]) st')
                (prefix ++ [current]) ({[ID current]} ∪ avoid)
                (GetOutgoingEdges g current) paths) as (found & -> & Hfound).
    { intros next paths' Hnext. apply IH; [done|]. rewrite length_app. cbn [length]. lia. }
    rewrite Hpop. exists found. split; [done|].
    intros p. rewrite Hfound. rewrite length_app. cbn [length].
    replace (maxDepth + 1 - Z.of_nat (length prefix + 1))
      with (maxDepth + 1 - Z.of_nat (length prefix) - 1) by lia.
    split.
    + intros (edge & q & Hedge & Hto & -> & Hq). exists (current :: q).
      split; [by rewrite <- app_assoc|].
      apply pathFrom_step; [done|]. by exists edge, q.
    + intros (q0 & -> & Hq0). apply pathFrom_step in Hq0; [|done].
      destruct Hq0 as (edge & q & -> & Hedge & Hto & _ & Hq).
      exists edge, q. split_and!; [done|done| |done]. by rewrite <- app_assoc.
Qed.

Lemma FindAllPaths_spec startID :
  ∃ paths,
    FindAllPaths g startID endID maxDepth = Ok paths
    ∧ match sm_get (nodes g) startID with
      | Some start => ∀ p, p ∈ paths ↔ simplePath g start endID maxDepth p
      | None => paths = []
      end.
Proof.
  unfold FindAllPaths, GetNode, simplePath. destruct (sm_get (nodes g) startID) as [start|].
  - destruct (findPathsDFS_spec (S (Z.to_nat (maxDepth + 1))) start [] ∅ [])
      as (found & -> & Hfound); [set_solver|cbn [length]; lia|].
    exists found. split; [done|]. intros p. rewrite Hfound. cbn [length app].
    replace (maxDepth + 1 - Z.of_nat 0) with (maxDepth + 1) by lia. split.
    + intros (q & -> & Hhead & Hwalk & Hnd & _ & Hlast & Hlen).
      split_and!; try done. lia.
    + intros (Hhead & Hwalk & Hnd & Hlast & Hlen).
      exists p. split; [done|]. split_and!; try done; lia.
  - by exists [].
Qed.

End paths.

(** C5. [FindAllPaths] returns.  When the map of nodes holds a node under
    [startID], what it returns are exactly the simple paths from that node
    to the end ID of at most [maxDepth] hops: each returned list is such a
    path, and each such path is returned.  When the map holds no node
    under [startID], it returns no path.  In both cases a returned path
    has at most [maxDepth] hops and no repeated node. *)
Theorem FindAllPaths_simple_paths g startID endID maxDepth :
  ∃ paths,
    FindAllPaths g startID endID maxDepth = Ok paths
    ∧ match sm_get (nodes g) startID with
      | Some start => ∀ p, p ∈ paths ↔ simplePath g start endID maxDepth p
      | None => paths = []
      end
    ∧ (∀ p, p ∈ paths → Z.of_nat (length p) - 1 ≤ maxDepth ∧ NoDup (map ID p)).
Proof.
  destruct (FindAllPaths_spec g endID maxDepth startID) as (paths & Hrun & Hspec).
  exists paths. split_and!; [done|done|].
  intros p Hp. destruct (sm_get (nodes g) startID) as [start|].
  - apply Hspec in Hp as (_ & _ & Hnd & _ & Hlen). done.
  - subst paths. by apply elem_of_nil in Hp.
Qed.

(** The diamond of [TestFindAllPaths]: [node1] is a node of the graph, and
    the paths from it to [node4] are the one over [node2] and the one over
    [node3]; from an ID that was never added there is none. *)
Lemma FindAllPaths_simple_paths_witness :
  ∃ node1 paths,
    sm_get (nodes diamond) "node1" = Some node1
    ∧ FindAllPaths diamond "node1" "node4" 5 = Ok paths
    ∧ (∀ p, p ∈ paths ↔ simplePath diamond node1 "node4" 5 p)
    ∧ map (map ID) paths = [["node1"; "node2"; "node4"]; ["node1"; "node3"; "node4"]]
    ∧ FindAllPaths diamond "node5" "node4" 5 = Ok [].
Proof.
  destruct (FindAllPaths_simple_paths diamond "node1" "node4" 5) as (paths & Hrun & Hspec & _).
  destruct (FindAllPaths_simple_paths diamond "node5" "node4" 5) as (none & Hnone & Hempty & _).
  assert (sm_get (nodes diamond) "node1"
          = Some {| ID := "node1"; nd_Service := "service1"; nd_Endpoint := "/api/test";
                    nd_Method := "GET" |}) as Hget by (vm_compute; reflexivity).
  assert (sm_get (nodes diamond) "node5" = None) as Hmissing by (vm_compute; reflexivity).
  rewrite Hget in Hspec. rewrite Hmissing in Hempty. subst none.
  eexists _, paths. split; [exact Hget|]. split; [exact Hrun|]. split; [exact Hspec|].
  split; [|exact Hnone].
  assert (paths = match FindAllPaths diamond "node1" "node4" 5 with
                  | Ok paths => paths | _ => [] end) as -> by (by rewrite Hrun).
  vm_compute. reflexivity.
Defined.

(** ** Cycle detection *)

Lemma closed_tc g (B : gset string) x y :
  (∀ x y, x ∈ B → adj g x y → y ∈ B) → x ∈ B → tc (adj g) x y → y ∈ B.
Proof. intros Hcl Hx Htc. induction Htc; eauto. Qed.

Lemma blackInv_add g B u :
  blackInv g B → u ∉ B → (∀ y, adj g u y → y ∈ B) → blackInv g ({[u]} ∪ B).
Proof.
  intros [Hcl Hac] Hu Hsucc. split.
  - intros x y [->%elem_of_singleton|Hx]%elem_of_union Hxy; apply elem_of_union; right; eauto.
  - intros x [->%elem_of_singleton|Hx]%elem_of_union; [|by apply Hac].
    intros Htc. apply Hu. inversion Htc as [? ? Hstep|? y ? Hstep Hrest]; subst.
    + by apply Hsucc.
    + apply (closed_tc g B y u); auto.
Qed.

Section cycles.
Variable g : Graph.
Hypothesis Hwf : graph_wf g.

Lemma GetNode_elem id node : GetNode g id = Some node ↔ (id, node) ∈ nodes g.
Proof.
  unfold GetNode. split; [apply sm_get_Some_elem|]. apply sm_get_elem, Hwf.
Qed.

Lemma nodeIDs_GetNode id : id ∈ nodeIDs g ↔ is_Some (GetNode g id).
Proof.
  unfold nodeIDs, GetNode. rewrite elem_of_list_to_set.
  destruct (sm_get (nodes g) id) as [node|] eqn:E.
  - split; [by eauto|]. intros _. apply sm_get_Some_elem in E.
    by apply (list_elem_of_fmap_2 fst) in E.
  - split; [|by intros []]. intros Hin. by apply sm_get_None_keys in E.
Qed.

Lemma node_elem_ID n : (ID n, n) ∈ nodes g → ID n ∈ nodeIDs g.
Proof. intros Hn. apply nodeIDs_GetNode. exists n. by apply GetNode_elem. Qed.

Lemma node_unique n n' : (ID n, n) ∈ nodes g → (ID n', n') ∈ nodes g → ID n = ID n' → n = n'.
Proof.
  intros Hn Hn' Heq. apply GetNode_elem in Hn, Hn'. rewrite Heq in Hn. congruence.
Qed.

Lemma adj_nodes u v : adj g u v → u ∈ nodeIDs g ∧ v ∈ nodeIDs g.
Proof.
  intros (e & He & <- & <-). destruct (wf_edges g Hwf e He). split; by apply node_elem_ID.
Qed.

Lemma outgoing_adj node e :
  e ∈ GetOutgoingEdges g node → adj g (ID node) (ID (To e)).
Proof.
  unfold GetOutgoingEdges. intros [Hfrom He]%list_elem_of_filter. by exists e.
Qed.

Lemma adj_outgoing node v :
  adj g (ID node) v → ∃ e, e ∈ GetOutgoingEdges g node ∧ ID (To e) = v.
Proof.
  intros (e & He & Hfrom & Hto). exists e. split; [|done].
  unfold GetOutgoingEdges. by apply list_elem_of_filter.
Qed.

Lemma size_unvisited_step (V : gset string) u :
  u ∈ nodeIDs g → u ∉ V →
  S (size (nodeIDs g ∖ ({[u]} ∪ V))) = size (nodeIDs g ∖ V).
Proof.
  intros Hu HV.
  assert (nodeIDs g ∖ V = {[u]} ∪ nodeIDs g ∖ ({[u]} ∪ V)) as ->.
  { set_unfold. intros x. destruct (decide (x = u)); naive_solver. }
  rewrite (size_union {[u]} (nodeIDs g ∖ ({[u]} ∪ V))) by set_solver.
  by rewrite size_singleton.
Qed.

Lemma size_unvisited_mono (V V' : gset string) :
  V ⊆ V' → (size (nodeIDs g ∖ V') ≤ size (nodeIDs g ∖ V))%nat.
Proof. intros HV. apply subseteq_size. set_solver. Qed.

(** The loop over the outgoing edges of [u], whose stack entry sits on top
    of the stack [R]. *)
Lemma cycleLoop_spec recur fuel u R es st :
  (∀ w st0, dfsPre g fuel w st0 →
     ∃ b st', recur w st0 = Ok (b, st') ∧ dfsPost g w st0 b st') →
  (∀ e, e ∈ es → adj g u (ID (To e))) →
  visited st ⊆ nodeIDs g →
  u ∈ visited st →
  recStack st = {[u]} ∪ R →
  R ⊆ visited st →
  u ∉ R →
  (size (nodeIDs g ∖ visited st) ≤ fuel)%nat →
  blackInv g (visited st ∖ recStack st) →
  (∀ r, r ∈ R → rtc (adj g) r u) →
  ∃ b st',
    cycleLoop recur u es st = Ok (b, st')
    ∧ (b = true → cyclic g)
    ∧ (b = false →
       visited st ⊆ visited st'
       ∧ visited st' ⊆ nodeIDs g
       ∧ recStack st' = R
       ∧ blackInv g (visited st' ∖ ({[u]} ∪ R))
       ∧ ∀ e, e ∈ es → ID (To e) ∈ visited st' ∖ ({[u]} ∪ R)).
Proof.
  intros Hrec. revert st.
  induction es as [|e es IH]; intros st Hes HV Hu HR HRV HuR Hsize Hblack Hreach;
    cbn [cycleLoop].
  - eexists _, _. split; [done|]. split; [done|]. intros _. cbn.
    split_and!; [done|done|set_solver|by rewrite <- HR|].
    intros e He. by apply elem_of_nil in He.
  - assert (adj g u (ID (To e))) as Hadj by (apply Hes; left).
    assert (∀ e', e' ∈ es → adj g u (ID (To e'))) as Hes' by (intros; apply Hes; by right).
    destruct (decide (ID (To e) ∈ visited st)) as [Hvis|Hnew].
    + destruct (decide (ID (To e) ∈ recStack st)) as [Hstack|Hdone].
      * eexists _, _. split; [done|]. split; [|done]. intros _.
        exists (ID (To e)). rewrite HR in Hstack.
        apply elem_of_union in Hstack as [Heq%elem_of_singleton|Hstack].
        -- rewrite Heq in Hadj |- *. by apply tc_once.
        -- eapply tc_rtc_l; [by apply Hreach|by apply tc_once].
      * destruct (IH st) as (b & st' & Hrun & Htrue & Hfalse); try done.
        exists b, st'. split; [done|]. split; [done|]. intros Hb.
        destruct (Hfalse Hb) as (HVV & HVN & HR' & Hblack' & Htargets).
        split_and!; try done.
        intros e' [->|He']%elem_of_cons; [|by apply Htargets].
        rewrite HR in Hdone. set_solver.
    + destruct (Hrec (ID (To e)) st) as (b & st1 & -> & Htrue1 & Hfalse1).
      { split_and!; try done.
        - rewrite HR. set_solver.
        - by apply (adj_nodes u).
        - intros r. rewrite HR. intros [->%elem_of_singleton|Hr]%elem_of_union.
          + by apply rtc_once.
          + eapply rtc_r; [by apply Hreach|done]. }
      destruct b.
      * eexists _, _. split; [done|]. split; [auto|done].
      * destruct (Hfalse1 eq_refl) as (HVV1 & Hto1 & HVN1 & HR1 & Hblack1).
        destruct (IH st1) as (b & st' & Hrun & Htrue & Hfalse); try done.
        { set_solver. }
        { by rewrite HR1. }
        { set_solver. }
        { etrans; [by apply size_unvisited_mono|done]. }
        exists b, st'. split; [done|]. split; [done|]. intros Hb.
        destruct (Hfalse Hb) as (HVV & HVN & HR' & Hblack' & Htargets).
        split_and!; try done; [set_solver|].
        intros e' [->|He']%elem_of_cons; [|by apply Htargets].
        apply elem_of_difference. split; [by apply HVV|].
        intros [Heq%elem_of_singleton|Hin]%elem_of_union; apply Hnew;
          [by rewrite Heq|by apply HRV].
Qed.

Lemma hasCycleDFS_spec fuel w st :
  dfsPre g fuel w st →
  ∃ b st', hasCycleDFS fuel g w st = Ok (b, st') ∧ dfsPost g w st b st'.
Proof.
  revert w st. induction fuel as [|fuel IH];
    intros w st (HV & HRV & Hw & Hnew & Hsize & Hblack & Hreach).
  { exfalso. assert (w ∈ nodeIDs g ∖ visited st) as Hin by set_solver.
    assert (size (nodeIDs g ∖ visited st) ≠ 0%nat) as Hne; [|lia].
    intros Hz. apply size_empty_inv in Hz. set_solver. }
  cbn [hasCycleDFS].
  destruct (proj1 (nodeIDs_GetNode w) Hw) as [node Hnode]. rewrite Hnode.
  assert (ID node = w) as Hid by (by apply (wf_ids g Hwf), GetNode_elem).
  assert (w ∉ recStack st) as HwR by set_solver.
  destruct (cycleLoop_spec (hasCycleDFS fuel g) fuel w (recStack st)
              (GetOutgoingEdges g node)
              {| visited := {[w]} ∪ visited st; recStack := {[w]} ∪ recStack st |})
    as (b & st' & Hrun & Htrue & Hfalse); cbn [visited recStack]; try done.
  - intros e He. rewrite <- Hid. by apply outgoing_adj.
  - set_solver.
  - set_solver.
  - set_solver.
  - pose proof (size_unvisited_step (visited st) w Hw Hnew). lia.
  - replace (({[w]} ∪ visited st) ∖ ({[w]} ∪ recStack st)) with (visited st ∖ recStack st)
      by set_solver.
    done.
  - exists b, st'. split; [done|]. split; [done|]. intros Hb.
    destruct (Hfalse Hb) as (HVV & HVN & HR' & Hblack' & Htargets).
    split_and!; [set_solver|set_solver|done|done|].
    replace (visited st' ∖ recStack st')
      with ({[w]} ∪ visited st' ∖ ({[w]} ∪ recStack st')).
    + rewrite HR'. apply blackInv_add; [done|set_solver|].
      intros y Hy. rewrite <- Hid in Hy.
      destruct (adj_outgoing node y Hy) as (e & He & <-). by apply Htargets.
    + clear Htargets Hblack' Hblack Hreach Hfalse Htrue Hrun.
      set_unfold. intros x. destruct (decide (x = w)); naive_solver.
Qed.

Lemma size_nodeIDs : size (nodeIDs g) = length (nodes g).
Proof.
  unfold nodeIDs. rewrite size_list_to_set by apply Hwf.
  unfold sm_keys. by rewrite length_map.
Qed.

(** The scan of [HasCycle] over the IDs that are left. *)
Lemma cycleScan_spec fuel ids st :
  (length (nodes g) ≤ fuel)%nat →
  (∀ id, id ∈ ids → id ∈ nodeIDs g) →
  visited st ⊆ nodeIDs g →
  recStack st = ∅ →
  blackInv g (visited st) →
  ∃ b,
    cycleScan fuel g ids st = Ok b
    ∧ (b = true → cyclic g)
    ∧ (b = false → ∀ x, x ∈ ids ∨ x ∈ visited st → ¬ tc (adj g) x x).
Proof.
  intros Hfuel. revert st.
  induction ids as [|id ids IH]; intros st Hids HV HR Hblack; cbn [cycleScan].
  - exists false. split; [done|]. split; [done|]. intros _ x [Hx|Hx].
    + by apply elem_of_nil in Hx.
    + by apply Hblack.
  - assert (∀ id', id' ∈ ids → id' ∈ nodeIDs g) as Hids' by (intros; apply Hids; by right).
    destruct (decide (id ∈ visited st)) as [Hvis|Hnew].
    + destruct (IH st) as (b & -> & Htrue & Hfalse); try done.
      exists b. split; [done|]. split; [done|]. intros Hb x [[->|Hx]%elem_of_cons|Hx].
      * apply (Hfalse Hb). by right.
      * apply (Hfalse Hb). by left.
      * apply (Hfalse Hb). by right.
    + destruct (hasCycleDFS_spec fuel id st) as (b & st' & -> & Htrue & Hfalse).
      { split_and!; try done.
        - rewrite HR. apply empty_subseteq.
        - apply Hids. left.
        - etrans; [|exact Hfuel]. rewrite <- size_nodeIDs. apply subseteq_size. set_solver.
        - rewrite HR. by replace (visited st ∖ ∅) with (visited st) by set_solver.
        - intros r. rewrite HR. intros Hr. by apply not_elem_of_empty in Hr. }
      destruct b.
      * exists true. split; [done|]. split; [auto|done].
      * destruct (Hfalse eq_refl) as (HVV & Hid & HVN & HR' & Hblack').
        rewrite HR in HR'. rewrite HR' in Hblack'.
        replace (visited st' ∖ ∅) with (visited st') in Hblack' by set_solver.
        destruct (IH st') as (b & -> & Htrue' & Hfalse'); try done.
        exists b. split; [done|]. split; [done|]. intros Hb x [[->|Hx]%elem_of_cons|Hx].
        -- apply (Hfalse' Hb). by right.
        -- apply (Hfalse' Hb). by left.
        -- apply (Hfalse' Hb). right. by apply HVV.
Qed.

Lemma HasCycle_spec : ∃ b, HasCycle g = Ok b ∧ (b = true → cyclic g) ∧ (b = false → acyclic g).
Proof.
  unfold HasCycle.
  destruct (cycleScan_spec (S (length (nodes g))) (sm_keys (nodes g))
              {| visited := ∅; recStack := ∅ |})
    as (b & -> & Htrue & Hfalse); cbn [visited recStack].
  - lia.
  - intros id Hid. unfold nodeIDs. by apply elem_of_list_to_set.
  - apply empty_subseteq.
  - done.
  - split; intros x; [intros y Hx|intros Hx]; by apply not_elem_of_empty in Hx.
  - exists b. split; [done|]. split; [done|]. intros Hb x Htc.
    apply (Hfalse Hb x); [|done]. left.
    assert (x ∈ nodeIDs g) as Hx.
    { inversion Htc as [? ? Hstep|? y ? Hstep _]; subst; by destruct (adj_nodes _ _ Hstep). }
    unfold nodeIDs in Hx. by apply elem_of_list_to_set in Hx.
Qed.

End cycles.

(** ** The fuel of [HasCycle] on any graph *)

Lemma size_nodeIDs_le g : (size (nodeIDs g) ≤ length (nodes g))%nat.
Proof.
  unfold nodeIDs, sm_keys. induction (nodes g) as [|[k v] m IH]; cbn [map fst list_to_set length].
  - by rewrite size_empty.
  - rewrite size_union_alt, size_singleton.
    assert (size (list_to_set (map fst m) ∖ ({[k]} : gset string))
            ≤ size (list_to_set (map fst m) : gset string))%nat
      by (apply subseteq_size; set_solver).
    lia.
Qed.

Lemma cycleLoop_fuel g recur fuel u es st :
  (∀ w st0, (size (nodeIDs g ∖ visited st0) < fuel)%nat → w ∉ visited st0 →
            returnsOrPanics (visited st0) (fun r => visited r.2) (recur w st0)) →
  (size (nodeIDs g ∖ visited st) < fuel)%nat →
  returnsOrPanics (visited st) (fun r => visited r.2) (cycleLoop recur u es st).
Proof.
  intros Hrec. revert st. induction es as [|e es IH]; intros st Hsize; cbn [cycleLoop].
  - by cbn.
  - destruct (decide (ID (To e) ∈ visited st)) as [Hvis|Hnew].
    + destruct (decide (ID (To e) ∈ recStack st)); [by cbn|]. by apply IH.
    + pose proof (Hrec (ID (To e)) st Hsize Hnew) as Hcall.
      destruct (recur (ID (To e)) st) as [[[] st1]| |]; cbn in Hcall |- *; try done.
      assert (returnsOrPanics (visited st1) (fun r => visited r.2) (cycleLoop recur u es st1))
        as Hloop.
      { apply IH. apply (Nat.le_lt_trans _ (size (nodeIDs g ∖ visited st))); [|done].
        apply subseteq_size. set_solver. }
      destruct (cycleLoop recur u es st1) as [[b st2]| |]; cbn in Hloop |- *; try done.
      by etrans.
Qed.

Lemma hasCycleDFS_fuel g fuel w st :
  (size (nodeIDs g ∖ visited st) < fuel)%nat →
  w ∉ visited st →
  returnsOrPanics (visited st) (fun r => visited r.2) (hasCycleDFS fuel g w st).
Proof.
  revert w st. induction fuel as [|fuel IH]; intros w st Hsize Hnew; [lia|].
  cbn [hasCycleDFS]. unfold GetNode. destruct (sm_get (nodes g) w) as [node|] eqn:Hget.
  - assert (w ∈ nodeIDs g) as Hw.
    { unfold nodeIDs. apply elem_of_list_to_set. apply sm_get_Some_elem in Hget.
      by apply (list_elem_of_fmap_2 fst) in Hget. }
    assert (returnsOrPanics ({[w]} ∪ visited st) (fun r => visited r.2)
              (cycleLoop (hasCycleDFS fuel g) w (GetOutgoingEdges g node)
                 {| visited := {[w]} ∪ visited st; recStack := {[w]} ∪ recStack st |})) as Hrun.
    { apply (cycleLoop_fuel g _ fuel); cbn [visited]; [by apply IH|].
      assert (nodeIDs g ∖ visited st = {[w]} ∪ nodeIDs g ∖ ({[w]} ∪ visited st)) as Hsplit.
      { clear IH Hsize. set_unfold. intros x. destruct (decide (x = w)); naive_solver. }
      rewrite Hsplit, size_union, size_singleton in Hsize by set_solver. lia. }
    destruct (cycleLoop (hasCycleDFS fuel g) w (GetOutgoingEdges g node) _) as [[b st']| |];
      cbn in Hrun |- *; try done.
    set_solver.
  - destruct (edges g); [|done]. cbn. set_solver.
Qed.

Lemma cycleScan_fuel g fuel ids st :
  (size (nodeIDs g ∖ visited st) < fuel)%nat → cycleScan fuel g ids st ≠ OutOfFuel.
Proof.
  revert st. induction ids as [|id ids IH]; intros st Hsize; cbn [cycleScan]; [done|].
  destruct (decide (id ∈ visited st)) as [Hvis|Hnew]; [by apply IH|].
  pose proof (hasCycleDFS_fuel g fuel id st Hsize Hnew) as Hcall.
  destruct (hasCycleDFS fuel g id st) as [[[] st']| |]; cbn in Hcall; try done.
  apply IH. apply (Nat.le_lt_trans _ (size (nodeIDs g ∖ visited st))); [|done].
  apply subseteq_size. set_solver.
Qed.

(** On a graph of any shape [HasCycle] returns or panics. *)
Lemma HasCycle_fuel g : HasCycle g ≠ OutOfFuel.
Proof.
  unfold HasCycle. apply cycleScan_fuel. cbn [visited].
  replace (nodeIDs g ∖ ∅) with (nodeIDs g) by set_solver.
  pose proof (size_nodeIDs_le g). lia.
Qed.

(** ** Kahn's algorithm *)

Lemma degree_set (m : smap Z) k d k' :
  degree (sm_set m k d) k' = if decide (k = k') then d else degree m k'.
Proof.
  unfold degree. case_decide as Hk.
  - subst. by rewrite sm_get_set_eq.
  - by rewrite sm_get_set_ne.
Qed.

Lemma indeg_cons e es v :
  indeg (e :: es) v = (if decide (ID (To e) = v) then 1 else 0) + indeg es v.
Proof.
  unfold indeg. rewrite filter_cons. case_decide; cbn [length]; lia.
Qed.

Lemma indeg_nonneg es v : 0 ≤ indeg es v.
Proof. unfold indeg. lia. Qed.

Lemma pending_nonneg g done v : 0 ≤ pending g done v.
Proof. unfold pending. lia. Qed.

(** [for id := range g.nodes { inDegree[id] = 0 }] *)
Lemma zero_degrees ids (m : smap Z) :
  NoDup (sm_keys m ++ ids) →
  (∀ v, degree m v = 0) →
  let m' := fold_left (fun inDegree id => sm_set inDegree id 0) ids m in
  sm_keys m' = sm_keys m ++ ids ∧ ∀ v, degree m' v = 0.
Proof.
  revert m. induction ids as [|id ids IH]; intros m Hnd Hzero; cbn [fold_left].
  - by rewrite app_nil_r.
  - assert (id ∉ sm_keys m) as Hid.
    { apply NoDup_app in Hnd as (_ & Hdisj & _). intros Hin. apply (Hdisj id Hin). left. }
    destruct (IH (sm_set m id 0)) as [Hkeys Hdeg].
    + rewrite sm_keys_set, decide_False by done. by rewrite <- app_assoc.
    + intros v. rewrite degree_set. by case_decide.
    + split; [|done]. rewrite Hkeys, sm_keys_set, decide_False by done.
      by rewrite <- app_assoc.
Qed.

Lemma countIncoming_spec es (m : smap Z) :
  (∀ e, e ∈ es → ID (To e) ∈ sm_keys m) →
  sm_keys (countIncoming es m) = sm_keys m
  ∧ ∀ v, degree (countIncoming es m) v = degree m v + indeg es v.
Proof.
  unfold countIncoming. revert m.
  induction es as [|e es IH]; intros m Hes; cbn [fold_left].
  - split; [done|]. intros v. unfold indeg. cbn. lia.
  - destruct (IH (sm_set m (ID (To e)) (degree m (ID (To e)) + 1))) as [Hkeys Hdeg].
    + intros e' He'. rewrite sm_keys_set, decide_True by (apply Hes; left).
      apply Hes. by right.
    + split.
      * rewrite Hkeys, sm_keys_set, decide_True; [done|]. apply Hes. left.
      * intros v. rewrite Hdeg, degree_set, indeg_cons. case_decide; [subst|]; lia.
Qed.

Lemma filter_length_split {A} (P Q R : A → Prop)
    `{!∀ x, Decision (P x), !∀ x, Decision (Q x), !∀ x, Decision (R x)} (l : list A) :
  (∀ x, P x ↔ Q x ∨ R x) → (∀ x, Q x → R x → False) →
  length (filter P l) = (length (filter Q l) + length (filter R l))%nat.
Proof.
  intros Hiff Hdisj. induction l as [|x l IH]; [done|].
  rewrite !filter_cons.
  destruct (decide (P x)) as [HP|HP], (decide (Q x)) as [HQ|HQ], (decide (R x)) as [HR|HR];
    cbn [length]; try lia; exfalso.
  - by apply (Hdisj x).
  - apply Hiff in HP as [?|?]; done.
  - apply HP, Hiff. by left.
  - apply HP, Hiff. by left.
  - apply HP, Hiff. by right.
Qed.

(** Taking [u] into the sorted list moves the edges that leave [u] out of
    the pending ones. *)
Lemma pending_split g done node v :
  ID node ∉ done →
  pending g done v
  = pending g (done ++ [ID node]) v + indeg (GetOutgoingEdges g node) v.
Proof.
  intros Hu. unfold pending, indeg, GetOutgoingEdges.
  rewrite list_filter_filter.
  rewrite (filter_length_split _
             (fun e => ID (To e) = v ∧ ID (From e) ∉ done ++ [ID node])
             (fun e => ID (To e) = v ∧ ID (From e) = ID node)); [lia| |].
  - intros e. rewrite not_elem_of_app, not_elem_of_cons. split.
    + intros [Hto Hfrom]. destruct (decide (ID (From e) = ID node)); [by right|left].
      split_and!; try done. apply not_elem_of_nil.
    + intros [(Hto & Hfrom & _)|[Hto Hfrom]]; [done|]. by rewrite Hfrom.
  - intros e (_ & Hnotin) [_ Hfrom]. apply Hnotin. rewrite Hfrom.
    apply elem_of_app. right. left.
Qed.

Lemma pending_zero g done v e :
  pending g done v = 0 → e ∈ edges g → ID (To e) = v → ID (From e) ∈ done.
Proof.
  unfold pending. intros Hz He Hto.
  destruct (decide (ID (From e) ∈ done)) as [|Hnotin]; [done|exfalso].
  assert (e ∈ filter (fun e => ID (To e) = v ∧ ID (From e) ∉ done) (edges g)) as Hin.
  { by apply list_elem_of_filter. }
  destruct (filter _ (edges g)); [by apply elem_of_nil in Hin|]. cbn [length] in Hz. lia.
Qed.

Lemma orderedIDs_snoc g l t :
  orderedIDs g l →
  (∀ e, e ∈ edges g → ID (To e) = t → ID (From e) ∈ l) →
  orderedIDs g (l ++ [t]).
Proof.
  intros Hord Hpred e i He Hi.
  destruct (decide (i < length l)%nat) as [Hlt|Hge].
  - rewrite lookup_app_l in Hi by done.
    destruct (Hord e i He Hi) as (j & Hj & Hlook). exists j. split; [done|].
    rewrite lookup_app_l; [done|lia].
  - rewrite lookup_app_r in Hi by lia.
    destruct (i - length l)%nat eqn:Hdiff; [|by destruct n].
    cbn in Hi. injection Hi as Hi.
    destruct (proj1 (list_elem_of_lookup l (ID (From e))) (Hpred e He (eq_sym Hi)))
      as (j & Hlook).
    exists j. split; [apply lookup_lt_Some in Hlook; lia|].
    by rewrite lookup_app_l by (by apply lookup_lt_Some in Hlook).
Qed.

Section kahn.
Variable g : Graph.
Hypothesis Hwf : graph_wf g.

(** The loop that takes the outgoing edges of the dequeued node off the
    in-degrees. *)
Lemma relaxEdges_spec sorted es inDegree queue :
  (∀ e, e ∈ es → e ∈ edges g) →
  kahnInv g sorted queue es inDegree →
  ∃ inDegree' queue',
    relaxEdges es inDegree queue = (inDegree', queue')
    ∧ kahnInv g sorted queue' [] inDegree'.
Proof.
  revert inDegree queue.
  induction es as [|e es IH]; intros inDegree queue Hes Hinv; cbn [relaxEdges].
  { by eexists _, _. }
  destruct Hinv as (K1 & K2 & K3 & K4 & K5).
  set (t := ID (To e)). set (d := degree inDegree t - 1).
  assert (e ∈ edges g) as He by (apply Hes; left).
  assert (t ∈ nodeIDs g) as Ht.
  { apply (node_elem_ID g Hwf). by apply (wf_edges g Hwf). }
  assert (d = pending g (map ID sorted) t + indeg es t) as Hd.
  { unfold d. rewrite (K3 t Ht), indeg_cons. fold t. rewrite decide_True by done. lia. }
  assert (0 ≤ d) as Hd0.
  { rewrite Hd. pose proof (pending_nonneg g (map ID sorted) t).
    pose proof (indeg_nonneg es t). lia. }
  assert (t ∉ map ID (sorted ++ queue)) as Hfresh.
  { intros Hin. apply (K4 t Ht) in Hin. unfold d in Hd0. lia. }
  assert (∀ v, v ∈ nodeIDs g →
            degree (sm_set inDegree t d) v = pending g (map ID sorted) v + indeg es v) as K3'.
  { intros v Hv. rewrite degree_set. case_decide as Htv; [by subst v|].
    rewrite (K3 v Hv), indeg_cons. fold t. rewrite decide_False by done. lia. }
  apply IH; [intros; apply Hes; by right|].
  destruct (d =? 0) eqn:Hzero.
  - apply Z.eqb_eq in Hzero.
    assert (map ID (sorted ++ queue ++ [To e]) = map ID (sorted ++ queue) ++ [t]) as Hmap.
    { by rewrite app_assoc, map_app. }
    split_and!; [| |done| |].
    + rewrite Hmap. apply NoDup_app. split_and!; [done| |apply NoDup_singleton].
      intros x Hx Hx'%list_elem_of_singleton. by subst x.
    + intros n. rewrite app_assoc. intros [Hn|Hn%list_elem_of_singleton]%elem_of_app.
      * by apply K2.
      * subst n. by apply (wf_edges g Hwf).
    + intros v Hv. rewrite Hmap, elem_of_app, list_elem_of_singleton, degree_set.
      case_decide as Htv.
      * subst v. split; [done|]. by right.
      * rewrite <- (K4 v Hv). split; [|by left]. by intros [?|?].
    + rewrite Hmap. apply orderedIDs_snoc; [done|].
      intros e' He' Hto. rewrite map_app, elem_of_app. left.
      apply (pending_zero g _ t); [|done|done].
      pose proof (pending_nonneg g (map ID sorted) t). pose proof (indeg_nonneg es t). lia.
  - apply Z.eqb_neq in Hzero. split_and!; [done|done|done| |done].
    intros v Hv. rewrite degree_set. case_decide as Htv.
    + subst v. split; [done|lia].
    + by apply K4.
Qed.

Lemma kahnInv_length sorted queue rest inDegree :
  kahnInv g sorted queue rest inDegree →
  (length (sorted ++ queue) ≤ length (nodes g))%nat.
Proof.
  intros (K1 & K2 & _).
  rewrite <- (length_map ID (sorted ++ queue)).
  rewrite <- (length_map fst (nodes g)).
  apply submseteq_length, NoDup_submseteq; [done|].
  intros x (n & -> & Hn)%list_elem_of_fmap.
  exact (list_elem_of_fmap_2 fst (nodes g) (ID n, n) (K2 n Hn)).
Qed.

Lemma kahnInv_dequeue sorted node queue inDegree :
  kahnInv g sorted (node :: queue) [] inDegree →
  kahnInv g (sorted ++ [node]) queue (GetOutgoingEdges g node) inDegree.
Proof.
  intros (K1 & K2 & K3 & K4 & K5).
  assert ((sorted ++ [node]) ++ queue = sorted ++ node :: queue) as Heq.
  { by rewrite <- app_assoc. }
  unfold kahnInv. rewrite Heq. split_and!; [done|done| |done|done].
  intros v Hv. rewrite (K3 v Hv), map_app. cbn [map].
  rewrite <- pending_split; [unfold indeg; cbn; lia|].
  rewrite map_app in K1. apply NoDup_app in K1 as (_ & Hdisj & _).
  intros Hin. apply (Hdisj _ Hin). left.
Qed.

Lemma kahnLoop_spec fuel queue sorted inDegree :
  kahnInv g sorted queue [] inDegree →
  (length sorted + fuel = length (nodes g))%nat →
  ∃ result inDegree',
    kahnLoop fuel g queue sorted inDegree = Ok result
    ∧ kahnInv g result [] [] inDegree'.
Proof.
  revert queue sorted inDegree.
  induction fuel as [|fuel IH]; intros queue sorted inDegree Hinv Hfuel.
  - destruct queue as [|node queue]; cbn [kahnLoop].
    + by exists sorted, inDegree.
    + apply kahnInv_length in Hinv. rewrite length_app in Hinv. cbn [length] in Hinv. lia.
  - destruct queue as [|node queue]; cbn [kahnLoop].
    + by exists sorted, inDegree.
    + destruct (relaxEdges_spec (sorted ++ [node]) (GetOutgoingEdges g node) inDegree queue)
        as (inDegree' & queue' & -> & Hinv').
      * intros e. unfold GetOutgoingEdges. by intros [_ ?]%list_elem_of_filter.
      * by apply kahnInv_dequeue.
      * apply (IH queue' (sorted ++ [node]) inDegree' Hinv').
        rewrite length_app. cbn [length]. lia.
Qed.

End kahn.

(** ** A finite graph in which every node of a nonempty set has a
    predecessor in the set has a cycle *)

Lemma chained_tc g a c y : chained g (a :: c) → y ∈ c → tc (adj g) a y.
Proof.
  revert a. induction c as [|b c IH]; intros a Hc Hy; [by apply elem_of_nil in Hy|].
  destruct Hc as [Hab Hc]. apply elem_of_cons in Hy as [->|Hy].
  - by apply tc_once.
  - eapply tc_l; [done|]. by apply IH.
Qed.

Lemma chained_repeat g c : chained g c → ¬ NoDup c → cyclic g.
Proof.
  induction c as [|a c IH]; intros Hc Hdup; [destruct Hdup; constructor|].
  destruct (decide (a ∈ c)) as [Hin|Hnotin].
  - exists a. by apply (chained_tc g a c).
  - apply IH.
    + destruct c; [done|]. by destruct Hc.
    + intros Hnd. apply Hdup. by apply NoDup_cons.
Qed.

Lemma chained_backwards g (P : string → Prop) n v :
  (∀ v, P v → ∃ u, P u ∧ adj g u v) → P v →
  ∃ c, length c = S n ∧ chained g c ∧ Forall P c.
Proof.
  intros Hpred Hv. induction n as [|n (c & Hlen & Hc & HP)].
  - exists [v]. split_and!; [done|done|]. by apply Forall_singleton.
  - destruct c as [|h c]; [done|].
    apply Forall_cons in HP as [Hh HP].
    destruct (Hpred h Hh) as (u & Hu & Huh).
    exists (u :: h :: c). split_and!; [cbn in *; lia|done|].
    by repeat apply Forall_cons_2.
Qed.

Lemma predecessors_make_cycle g (P : string → Prop) (l : list string) v :
  (∀ v, P v → v ∈ l) → (∀ v, P v → ∃ u, P u ∧ adj g u v) → P v → cyclic g.
Proof.
  intros Hfin Hpred Hv.
  destruct (chained_backwards g P (length l) v Hpred Hv) as (c & Hlen & Hc & HP).
  apply (chained_repeat g c Hc). intros Hnd.
  assert (length c ≤ length l)%nat; [|lia].
  apply submseteq_length, NoDup_submseteq; [done|].
  intros x Hx. apply Hfin. by apply (proj1 (Forall_forall P c) HP).
Qed.

(** ** Topological order *)

Lemma NoDup_keys_filter {V} (P : string * V → Prop) `{!∀ kv, Decision (P kv)}
    (m : list (string * V)) :
  NoDup (map fst m) → NoDup (map fst (filter P m)).
Proof.
  induction m as [|kv m IH]; [done|]. cbn [map]. intros [Hk Hnd]%NoDup_cons.
  rewrite filter_cons. case_decide; [|by apply IH].
  cbn [map]. apply NoDup_cons. split; [|by apply IH].
  intros (kv' & Heq & [_ Hin]%list_elem_of_filter)%list_elem_of_fmap.
  apply Hk. rewrite Heq. by apply list_elem_of_fmap_2.
Qed.

Lemma degree_elem (m : smap Z) v d :
  NoDup (sm_keys m) → (v, d) ∈ m → degree m v = d.
Proof. intros Hnd Hin. unfold degree. by rewrite (sm_get_elem m v d Hnd Hin). Qed.

Lemma indeg_positive es e : e ∈ es → 0 < indeg es (ID (To e)).
Proof.
  intros He. unfold indeg.
  assert (e ∈ filter (fun e' => ID (To e') = ID (To e)) es) as Hin.
  { by apply list_elem_of_filter. }
  destruct (filter _ es); [by apply elem_of_nil in Hin|]. cbn [length]. lia.
Qed.

Lemma pending_nil g v : pending g [] v = indeg (edges g) v.
Proof.
  unfold pending, indeg. f_equal. f_equal. apply list_filter_iff.
  intros e. split; [by intros [? _]|]. intros Hto. split; [done|]. apply not_elem_of_nil.
Qed.

Section topological.
Variable g : Graph.
Hypothesis Hwf : graph_wf g.

Lemma initialQueue_spec (m : list (string * Z)) :
  (∀ id, id ∈ sm_keys m → id ∈ nodeIDs g) →
  ∃ queue,
    initialQueue g m = Ok queue
    ∧ map ID queue = map fst (filter (fun kv => kv.2 = 0) m)
    ∧ ∀ n, n ∈ queue → (ID n, n) ∈ nodes g.
Proof.
  induction m as [|[id d] m IH]; intros Hkeys; cbn [initialQueue].
  - exists []. split_and!; [done|done|]. intros n Hn. by apply elem_of_nil in Hn.
  - destruct IH as (queue & -> & Hmap & Hnodes).
    { intros id' Hid'. apply Hkeys. unfold sm_keys. cbn [map]. by right. }
    rewrite filter_cons. cbn [snd]. destruct (d =? 0) eqn:Hd.
    + apply Z.eqb_eq in Hd. rewrite decide_True by done.
      destruct (proj1 (nodeIDs_GetNode g id)) as [node Hnode].
      { apply Hkeys. unfold sm_keys. cbn [map]. left. }
      rewrite Hnode. apply (GetNode_elem g Hwf) in Hnode.
      assert (ID node = id) as Hid by (by apply (wf_ids g Hwf)).
      exists (node :: queue). split_and!; [done|cbn [map fst]; by rewrite Hid, Hmap|].
      intros n [->|Hn]%elem_of_cons; [by rewrite Hid|by apply Hnodes].
    + apply Z.eqb_neq in Hd. rewrite decide_False by done. by exists queue.
Qed.

Lemma kahn_initial :
  let inDegree :=
    countIncoming (edges g)
      (fold_left (fun inDegree id => sm_set inDegree id 0) (sm_keys (nodes g)) []) in
  ∃ queue,
    initialQueue g inDegree = Ok queue
    ∧ kahnInv g [] queue [] inDegree
    ∧ length inDegree = length (nodes g).
Proof.
  destruct (zero_degrees (sm_keys (nodes g)) []) as [Hkeys0 Hdeg0].
  { apply Hwf. }
  { done. }
  cbn [sm_keys map app] in Hkeys0.
  destruct (countIncoming_spec (edges g)
              (fold_left (fun inDegree id => sm_set inDegree id 0) (sm_keys (nodes g)) []))
    as [Hkeys Hdeg].
  { intros e He. rewrite Hkeys0. apply (wf_edges g Hwf) in He as [_ Hto].
    by apply (list_elem_of_fmap_2 fst) in Hto. }
  rewrite Hkeys0 in Hkeys. cbn zeta.
  set (inDegree := countIncoming _ _) in *.
  assert (∀ v, degree inDegree v = indeg (edges g) v) as Hdegree.
  { intros v. rewrite Hdeg, Hdeg0. lia. }
  assert (NoDup (sm_keys inDegree)) as Hnd by (rewrite Hkeys; apply Hwf).
  destruct (initialQueue_spec inDegree) as (queue & Hrun & Hmap & Hnodes).
  { intros id. rewrite Hkeys. unfold nodeIDs. by rewrite elem_of_list_to_set. }
  exists queue. split; [done|]. split.
  - assert (∀ v, v ∈ nodeIDs g → v ∈ map ID queue ↔ degree inDegree v = 0) as K4.
    { intros v Hv. rewrite Hmap. split.
      - intros ([v' d] & -> & [Hd Hin]%list_elem_of_filter)%list_elem_of_fmap.
        cbn in *. subst d. by apply degree_elem.
      - intros Hzero. unfold nodeIDs in Hv. rewrite elem_of_list_to_set, <- Hkeys in Hv.
        apply list_elem_of_fmap in Hv as ([v' d] & -> & Hin). cbn in *.
        rewrite (degree_elem inDegree v' d Hnd Hin) in Hzero. subst d.
        apply (list_elem_of_fmap_2 fst (filter _ inDegree) (v', 0)).
        by apply list_elem_of_filter. }
    split_and!; cbn [app map].
    + rewrite Hmap. by apply NoDup_keys_filter.
    + done.
    + intros v Hv. rewrite Hdegree, pending_nil. unfold indeg. cbn. lia.
    + done.
    + intros e i He Hi. exfalso.
      assert (ID (To e) ∈ map ID queue) as Hin by (by apply list_elem_of_lookup_2 in Hi).
      apply K4 in Hin.
      * rewrite Hdegree in Hin. pose proof (indeg_positive (edges g) e He). lia.
      * apply (node_elem_ID g Hwf). by apply (wf_edges g Hwf).
  - rewrite <- (length_map fst inDegree). fold (sm_keys inDegree). rewrite Hkeys.
    unfold sm_keys. by rewrite length_map.
Qed.

(** When the queue has run dry in an acyclic graph, every node is sorted. *)
Lemma kahn_complete sorted inDegree v :
  acyclic g → kahnInv g sorted [] [] inDegree → v ∈ nodeIDs g → v ∈ map ID sorted.
Proof.
  intros Hacyclic (K1 & K2 & K3 & K4 & K5) Hv. rewrite app_nil_r in K1, K2, K4, K5.
  destruct (decide (v ∈ map ID sorted)) as [|Hnotin]; [done|exfalso].
  destruct (predecessors_make_cycle g
              (fun v => v ∈ nodeIDs g ∧ v ∉ map ID sorted) (sm_keys (nodes g)) v)
    as [x Hx]; [| |done|by apply (Hacyclic x)].
  - intros x [Hx _]. unfold nodeIDs in Hx. by apply elem_of_list_to_set in Hx.
  - intros x [Hx Hx'].
    assert (pending g (map ID sorted) x ≠ 0) as Hpending.
    { intros Hz. apply Hx', (K4 x Hx). rewrite (K3 x Hx), Hz. unfold indeg. cbn. lia. }
    unfold pending in Hpending.
    destruct (filter _ (edges g)) as [|e rest] eqn:Hfilter; [done|].
    assert (e ∈ filter (fun e => ID (To e) = x ∧ ID (From e) ∉ map ID sorted) (edges g))
      as [[Hto Hfrom] He]%list_elem_of_filter by (rewrite Hfilter; left).
    exists (ID (From e)). split_and!; [|done|by exists e].
    apply (node_elem_ID g Hwf). by apply (wf_edges g Hwf).
Qed.

Lemma values_NoDup : NoDup (sm_values (nodes g)).
Proof.
  apply (NoDup_fmap_1 ID). unfold sm_values.
  replace (ID <$> (map snd (nodes g))) with (sm_keys (nodes g)); [apply Hwf|].
  unfold sm_keys. pose proof (wf_ids g Hwf) as Hids.
  induction (nodes g) as [|[id n] l IH]; [done|]. cbn [map fmap list_fmap fst snd].
  rewrite (Hids id n) by left. f_equal. apply IH. intros id' n' Hin. apply Hids. by right.
Qed.

Lemma TopologicalSort_acyclic :
  acyclic g →
  ∃ sorted,
    TopologicalSort g = Ok (sorted, None)
    ∧ sorted ≡ₚ GetAllNodes g
    ∧ NoDup (map ID sorted)
    ∧ ∀ edge, edge ∈ edges g → before sorted (From edge) (To edge).
Proof.
  intros Hacyclic. unfold TopologicalSort.
  destruct (HasCycle_spec g Hwf) as (b & -> & Htrue & _).
  destruct b.
  { destruct (Htrue eq_refl) as [x Hx]. by destruct (Hacyclic x). }
  destruct kahn_initial as (queue & -> & Hinv & Hlen).
  destruct (kahnLoop_spec g Hwf (length (countIncoming (edges g)
              (fold_left (fun inDegree id => sm_set inDegree id 0) (sm_keys (nodes g)) [])))
              queue [] _ Hinv) as (sorted & inDegree' & -> & Hinv').
  { by rewrite Hlen. }
  pose proof (fun v => kahn_complete sorted inDegree' v Hacyclic Hinv') as Hall.
  destruct Hinv' as (K1 & K2 & _ & _ & K5). rewrite app_nil_r in K1, K2, K5.
  assert (∀ n, (ID n, n) ∈ nodes g → ∃ i, sorted !! i = Some n) as Hmem.
  { intros n Hn.
    assert (ID n ∈ map ID sorted) as (n' & Hid & Hn')%list_elem_of_fmap.
    { by apply Hall, (node_elem_ID g Hwf). }
    rewrite (node_unique g Hwf n n' Hn (K2 n' Hn') Hid).
    by apply list_elem_of_lookup. }
  exists sorted. split_and!; [done| |done|].
  - apply NoDup_Permutation.
    + by apply (NoDup_fmap_1 ID).
    + apply values_NoDup.
    + intros n. unfold GetAllNodes, sm_values. split.
      * intros Hn. exact (list_elem_of_fmap_2 snd (nodes g) (ID n, n) (K2 n Hn)).
      * intros ([id n'] & -> & Hin)%list_elem_of_fmap. cbn [snd].
        pose proof (wf_ids g Hwf id n' Hin) as <-.
        destruct (Hmem n' Hin) as [i Hi]. by apply list_elem_of_lookup_2 in Hi.
  - intros e He. destruct (wf_edges g Hwf e He) as [Hfrom Hto].
    destruct (Hmem (To e) Hto) as [i Hi].
    destruct (K5 e i He) as (j & Hj & Hlook).
    { by rewrite list_lookup_fmap, Hi. }
    rewrite list_lookup_fmap in Hlook.
    destruct (sorted !! j) as [n|] eqn:Hn; [|done]. cbn in Hlook. injection Hlook as Hid.
    exists j, i. split_and!; [|done|done].
    rewrite Hn. f_equal. apply (node_unique g Hwf); [|done|done].
    apply K2. by apply list_elem_of_lookup_2 in Hn.
Qed.

Lemma TopologicalSort_cyclic : cyclic g → TopologicalSort g = Ok ([], Some CyclicGraph).
Proof.
  intros [x Hx]. unfold TopologicalSort.
  destruct (HasCycle_spec g Hwf) as (b & -> & _ & Hfalse).
  destruct b; [done|]. by destruct (Hfalse eq_refl x).
Qed.

End topological.

(** ** [graph_wf] is what the constructors maintain *)

Lemma graph_wf_NewGraph : graph_wf NewGraph.
Proof.
  split; cbn.
  - apply NoDup_nil_2.
  - intros id node Hin. by apply elem_of_nil in Hin.
  - intros edge Hin. by apply elem_of_nil in Hin.
Qed.

(** [AddNode] returns a node of the new graph and keeps the old ones. *)
Lemma graph_wf_AddNode g id service endpoint method :
  graph_wf g →
  let '(g', node) := AddNode g id service endpoint method in
  graph_wf g'
  ∧ (ID node, node) ∈ nodes g'
  ∧ ID node = id
  ∧ edges g' = edges g
  ∧ ∀ id' node', (id', node') ∈ nodes g → (id', node') ∈ nodes g'.
Proof.
  intros Hwf. unfold AddNode. destruct (sm_get (nodes g) id) as [node|] eqn:Hget.
  - apply sm_get_Some_elem in Hget. pose proof (wf_ids g Hwf id node Hget) as Hid.
    split_and!; [done|by rewrite Hid|done|done|done].
  - apply sm_get_None_keys in Hget.
    assert (∀ id' node', (id', node') ∈ nodes g →
              (id', node') ∈ sm_set (nodes g) id
                 {| ID := id; nd_Service := service; nd_Endpoint := endpoint;
                    nd_Method := method |}) as Hkeep.
    { intros id' node' Hin. rewrite sm_set_fresh by done. apply elem_of_app. by left. }
    split_and!; cbn [nodes edges ID]; [|rewrite sm_set_fresh by done; set_solver|done..].
    split; cbn [nodes edges].
    + apply sm_keys_set_NoDup, Hwf.
    + intros id' node' [[-> ->]|Hin]%sm_set_elem; [done|]. by apply (wf_ids g Hwf).
    + intros edge Hin. destruct (wf_edges g Hwf edge Hin). split; by apply Hkeep.
Qed.

Lemma graph_wf_AddEdge g from to weight :
  graph_wf g → (ID from, from) ∈ nodes g → (ID to, to) ∈ nodes g →
  graph_wf (AddEdge g from to weight).1.
Proof.
  intros Hwf Hfrom Hto. split; cbn [AddEdge fst nodes edges]; [apply Hwf..|].
  intros edge [Hin|Hin%list_elem_of_singleton]%elem_of_app.
  - by apply (wf_edges g Hwf).
  - by subst edge.
Qed.

(** X1. On a graph whose edges join nodes of the graph, [HasCycle] returns
    without a nil dereference, and it returns true exactly when some node
    reaches itself along edges. *)
Lemma HasCycle_correct g :
  graph_wf g → ∃ b, HasCycle g = Ok b ∧ (b = true ↔ cyclic g).
Proof.
  intros Hwf. destruct (HasCycle_spec g Hwf) as (b & Hrun & Htrue & Hfalse).
  exists b. split; [done|]. split; [done|].
  intros [x Hx]. destruct b; [done|]. by destruct (Hfalse eq_refl x).
Qed.

Lemma HasCycle_false_acyclic g : graph_wf g → HasCycle g = Ok false → acyclic g.
Proof.
  intros Hwf Hrun. destruct (HasCycle_spec g Hwf) as (b & Hrun' & _ & Hfalse).
  rewrite Hrun in Hrun'. injection Hrun' as <-. by apply Hfalse.
Qed.

Lemma HasCycle_true_cyclic g : graph_wf g → HasCycle g = Ok true → cyclic g.
Proof.
  intros Hwf Hrun. destruct (HasCycle_spec g Hwf) as (b & Hrun' & Htrue & _).
  rewrite Hrun in Hrun'. injection Hrun' as <-. by apply Htrue.
Qed.

(** C3. On a graph whose edges join nodes of the graph, [TopologicalSort]
    returns, when the graph is acyclic, a nil error and a list that holds
    every node of the graph exactly once and in which the source of every
    edge stands strictly before its target; when the graph is cyclic it
    returns the [CyclicGraph] error and no list. *)
Theorem TopologicalSort_spec g :
  graph_wf g →
  (acyclic g →
   ∃ sorted,
     TopologicalSort g = Ok (sorted, None)
     ∧ sorted ≡ₚ GetAllNodes g
     ∧ NoDup (map ID sorted)
     ∧ ∀ edge, edge ∈ edges g → before sorted (From edge) (To edge))
  ∧ (cyclic g → TopologicalSort g = Ok ([], Some CyclicGraph)).
Proof.
  intros Hwf. split.
  - by apply TopologicalSort_acyclic.
  - by apply TopologicalSort_cyclic.
Qed.

(** The graph of the integration test is sorted into its seven nodes; the
    two-node cycle of the unit test is refused. *)
Lemma TopologicalSort_spec_witness :
  (∃ sorted,
     TopologicalSort microservices = Ok (sorted, None)
     ∧ length sorted = 7%nat
     ∧ map ID sorted
       = ["frontend"; "api-gateway"; "auth"; "user"; "payment"; "inventory"; "notification"]
     ∧ ∀ edge, edge ∈ edges microservices → before sorted (From edge) (To edge))
  ∧ TopologicalSort twoCycle = Ok ([], Some CyclicGraph).
Proof.
  split.
  - assert (graph_wf microservices) as Hwf by (apply (bool_decide_unpack _); vm_compute; exact I).
    assert (acyclic microservices) as Hacyclic.
    { apply HasCycle_false_acyclic; [exact Hwf|vm_compute; reflexivity]. }
    destruct (proj1 (TopologicalSort_spec microservices Hwf) Hacyclic)
      as (sorted & Hrun & Hperm & Hnd & Hbefore).
    exists sorted. split; [exact Hrun|].
    assert (sorted = fst (match TopologicalSort microservices with
                          | Ok r => r | _ => ([], None) end)) as Hsorted.
    { rewrite Hrun. reflexivity. }
    split; [rewrite Hsorted; vm_compute; reflexivity|].
    split; [rewrite Hsorted; vm_compute; reflexivity|exact Hbefore].
  - assert (graph_wf twoCycle) as Hwf by (apply (bool_decide_unpack _); vm_compute; exact I).
    apply (proj2 (TopologicalSort_spec twoCycle Hwf)).
    apply HasCycle_true_cyclic; [exact Hwf|vm_compute; reflexivity].
Defined.

(** C3, as stated for every acyclic graph, at a graph whose edge comes
    from a node that was never added: the graph has no cycle, and
    [TopologicalSort] returns a nil error and an empty list, which lacks
    the node of the graph and in which the source of the edge does not
    stand before its target. *)
Lemma TopologicalSort_dangling_edge :
  acyclic danglingEdge
  ∧ TopologicalSort danglingEdge = Ok ([], None)
  ∧ map ID (GetAllNodes danglingEdge) = ["target"]
  ∧ map (fun edge => (ID (From edge), ID (To edge))) (edges danglingEdge) = [("stray", "target")]
  ∧ ¬ (∃ sorted,
         TopologicalSort danglingEdge = Ok (sorted, None)
         ∧ sorted ≡ₚ GetAllNodes danglingEdge
         ∧ ∀ edge, edge ∈ edges danglingEdge → before sorted (From edge) (To edge)).
Proof.
  assert (∀ u v, adj danglingEdge u v → u = "stray" ∧ v = "target") as Hadj.
  { intros u v (edge & Hin & <- & <-). vm_compute in Hin.
    apply list_elem_of_singleton in Hin as ->. done. }
  split_and!; try (vm_compute; reflexivity).
  - intros u Hcycle.
    assert (∀ a b, tc (adj danglingEdge) a b → a = "stray" ∧ b = "target") as Htc.
    { intros a b Hab. induction Hab as [a b Hstep|a b c Hstep _ [Hb _]].
      - by apply Hadj.
      - apply Hadj in Hstep as [_ ->]. done. }
    by destruct (Htc u u Hcycle) as [-> ?].
  - intros (sorted & Hrun & Hperm & _).
    assert (TopologicalSort danglingEdge = Ok ([], None)) as Hnil by (vm_compute; reflexivity).
    rewrite Hnil in Hrun. injection Hrun as <-.
    apply Permutation_length in Hperm. vm_compute in Hperm. done.
Qed.

(** [TestFindAllPaths]: the two paths of the diamond, and the one path of
    the integration test. *)
Example FindAllPaths_diamond :
  match FindAllPaths diamond "node1" "node4" 5 with
  | Ok paths => map (map ID) paths
  | _ => []
  end = [["node1"; "node2"; "node4"]; ["node1"; "node3"; "node4"]]
  ∧ match FindAllPaths microservices "frontend" "notification" 10 with
    | Ok paths => map (map ID) paths
    | _ => []
    end = [["frontend"; "api-gateway"; "payment"; "notification"]].
Proof. split; vm_compute; reflexivity. Qed.

(** ** Nodes, edges and paths *)

Lemma sm_set_length_fresh {V} (m : smap V) k v :
  k ∉ sm_keys m → length (sm_set m k v) = S (length m).
Proof. intros Hk. rewrite sm_set_fresh by done. rewrite length_app. cbn. lia. Qed.


(** The two-node cycle of the unit test. *)
Lemma HasCycle_correct_witness :
  ∃ b, HasCycle twoCycle = Ok b ∧ (b = true ↔ cyclic twoCycle).
Proof.
  apply (HasCycle_correct twoCycle).
  apply (bool_decide_unpack _). vm_compute. exact I.
Defined.

(** X2. [AddNode] files the node it returns under [id] and touches no
    other key and no edge; an [id] that is already present keeps its node
    (the other arguments are ignored) and the graph stays as it is, a new
    [id] makes the graph one node larger. *)
Theorem AddNode_GetNode g id service endpoint method :
  let '(g', node) := AddNode g id service endpoint method in
  GetNode g' id = Some node
  ∧ (∀ id', id' ≠ id → GetNode g' id' = GetNode g id')
  ∧ edges g' = edges g
  ∧ match GetNode g id with
    | Some old => g' = g ∧ node = old
    | None =>
        node = {| ID := id; nd_Service := service; nd_Endpoint := endpoint; nd_Method := method |}
        ∧ NodeCount g' = NodeCount g + 1
    end.
Proof.
  unfold AddNode, GetNode, NodeCount.
  destruct (sm_get (nodes g) id) as [old|] eqn:Hget; cbn [nodes edges].
  - by rewrite Hget.
  - split_and!; [apply sm_get_set_eq|intros id' Hne; by apply sm_get_set_ne|done|done|].
    apply sm_get_None_keys in Hget. rewrite sm_set_length_fresh by done. lia.
Qed.

Lemma AddNode_GetNode_witness :
  let '(g', node) := AddNode twoCycle "node1" "other" "/ignored" "POST" in
  g' = twoCycle
  ∧ GetNode g' "node1" = Some node
  ∧ nd_Service node = "service1"
  ∧ GetNode g' "node2" = GetNode twoCycle "node2".
Proof.
  pose proof (AddNode_GetNode twoCycle "node1" "other" "/ignored" "POST") as Hadd.
  destruct (AddNode twoCycle "node1" "other" "/ignored" "POST") as [g' node] eqn:Hrun.
  destruct Hadd as (Hget & Hother & _ & Hold).
  assert (GetNode twoCycle "node1"
          = Some {| ID := "node1"; nd_Service := "service1"; nd_Endpoint := "/api/test";
                    nd_Method := "GET" |}) as Hnode1 by (vm_compute; reflexivity).
  rewrite Hnode1 in Hold. destruct Hold as [-> ->].
  split; [reflexivity|]. split; [exact Hget|]. split; [reflexivity|].
  apply Hother. discriminate.
Defined.






(** X4. The edge cases of [FindAllPaths]: an unknown start ID and a
    negative [maxDepth] give no path; from a node to its own ID the only
    path is the node by itself, whatever cycles lead back to it. *)
Theorem FindAllPaths_edge_cases g startID endID maxDepth :
  (GetNode g startID = None → FindAllPaths g startID endID maxDepth = Ok [])
  ∧ (maxDepth < 0 → FindAllPaths g startID endID maxDepth = Ok [])
  ∧ (∀ start, GetNode g startID = Some start → ID start = endID → 0 ≤ maxDepth →
       FindAllPaths g startID endID maxDepth = Ok [[start]]).
Proof.
  unfold FindAllPaths. split_and!.
  - by intros ->.
  - intros Hneg. destruct (GetNode g startID) as [start|]; [|done].
    simpl. change (Z.of_nat 0) with 0. by rewrite (proj2 (Z.ltb_lt maxDepth 0)).
  - intros start -> Hend Hdepth. simpl. change (Z.of_nat 0) with 0.
    rewrite (proj2 (Z.ltb_ge maxDepth 0)) by done.
    by rewrite (proj2 (String.eqb_eq _ _) Hend).
Qed.

Lemma FindAllPaths_edge_cases_witness :
  FindAllPaths twoCycle "node3" "node1" 5 = Ok []
  ∧ FindAllPaths twoCycle "node1" "node2" (-1) = Ok []
  ∧ ∃ start, GetNode twoCycle "node1" = Some start
             ∧ FindAllPaths twoCycle "node1" "node1" 5 = Ok [[start]].
Proof.
  destruct (FindAllPaths_edge_cases twoCycle "node3" "node1" 5) as (Hmissing & _ & _).
  destruct (FindAllPaths_edge_cases twoCycle "node1" "node2" (-1)) as (_ & Hneg & _).
  destruct (FindAllPaths_edge_cases twoCycle "node1" "node1" 5) as (_ & _ & Hself).
  split; [apply Hmissing; vm_compute; reflexivity|].
  split; [apply Hneg; lia|].
  eexists. split; [vm_compute; reflexivity|].
  apply Hself; [vm_compute; reflexivity|reflexivity|lia].
Defined.

(** ** Paths are returned once *)

Lemma outgoing_targets_distinct g current :
  NoDup (map edgeIDs (edges g)) → NoDup (map (fun e => ID (To e)) (GetOutgoingEdges g current)).
Proof.
  unfold GetOutgoingEdges. induction (edges g) as [|e es IH]; cbn [map]; intros Hnd.
  - rewrite filter_nil. constructor.
  - apply NoDup_cons in Hnd as [He Hnd]. rewrite filter_cons.
    destruct (decide (ID (From e) = ID current)) as [Hfrom|]; [|by apply IH].
    cbn [map]. apply NoDup_cons. split; [|by apply IH].
    intros (e' & Hto & [Hfrom' He']%list_elem_of_filter)%list_elem_of_fmap.
    apply He. apply list_elem_of_fmap. exists e'. split; [|done].
    unfold edgeIDs. by rewrite Hto, Hfrom, Hfrom'.
Qed.

Section distinct_paths.
Variable g : Graph.
Variables (endID : string) (maxDepth : Z).
Hypothesis Hsimple : NoDup (map edgeIDs (edges g)).

Lemma pathsLoop_distinct recur (prefix : list Node) (avoid : gset string) es paths :
  (∀ next paths', ID next ∉ avoid →
     ∃ found,
       recur next (avoid, paths') = Ok (avoid, paths' ++ found)
       ∧ NoDup found
       ∧ ∀ p, p ∈ found → ∃ q, p = prefix ++ next :: q) →
  NoDup (map (fun e => ID (To e)) es) →
  ∃ found,
    pathsLoop recur es (avoid, paths) = Ok (avoid, paths ++ found)
    ∧ NoDup found
    ∧ ∀ p, p ∈ found → ∃ e q, e ∈ es ∧ p = prefix ++ To e :: q.
Proof.
  intros Hrec. revert paths. induction es as [|edge es IH]; intros paths Hnd; cbn [pathsLoop].
  - exists []. rewrite app_nil_r. split_and!; [done|constructor|].
    intros p Hp. by apply elem_of_nil in Hp.
  - cbn [map] in Hnd. apply NoDup_cons in Hnd as [Hedge Hnd]. cbn [fst].
    destruct (decide (ID (To edge) ∈ avoid)) as [Hin|Hnotin].
    + destruct (IH paths Hnd) as (found & -> & Hfound & Hshape). exists found.
      split_and!; [done|done|]. intros p Hp. destruct (Hshape p Hp) as (e & q & He & ->).
      exists e, q. split; [by right|done].
    + destruct (Hrec (To edge) paths Hnotin) as (found1 & -> & Hfound1 & Hshape1).
      destruct (IH (paths ++ found1) Hnd) as (found2 & -> & Hfound2 & Hshape2).
      exists (found1 ++ found2). rewrite app_assoc. split_and!; [done| |].
      * apply NoDup_app. split_and!; [done| |done].
        intros p Hp1 Hp2. destruct (Hshape1 p Hp1) as (q1 & ->).
        destruct (Hshape2 _ Hp2) as (e & q2 & He & Heq).
        apply app_inv_head in Heq. injection Heq as Hto _. apply Hedge.
        rewrite Hto. by apply (list_elem_of_fmap_2 (fun e => ID (To e))).
      * intros p [Hp|Hp]%elem_of_app.
        -- destruct (Hshape1 p Hp) as (q & ->). exists edge, q. split; [left|done].
        -- destruct (Hshape2 p Hp) as (e & q & He & ->). exists e, q. split; [by right|done].
Qed.

Lemma findPathsDFS_distinct fuel current prefix avoid paths :
  ID current ∉ avoid →
  Z.max 0 (maxDepth + 1 - Z.of_nat (length prefix)) < Z.of_nat fuel →
  ∃ found,
    findPathsDFS fuel g current endID maxDepth prefix (avoid, paths) = Ok (avoid, paths ++ found)
    ∧ NoDup found
    ∧ ∀ p, p ∈ found → ∃ q, p = prefix ++ current :: q.
Proof.
  revert current prefix avoid paths.
  induction fuel as [|fuel IH]; intros current prefix avoid paths Hcur Hfuel; [lia|].
  cbn [findPathsDFS fst snd].
  destruct (maxDepth <? Z.of_nat (length prefix)) eqn:Hdepth.
  { exists []. rewrite app_nil_r. split_and!; [done|constructor|].
    intros p Hp. by apply elem_of_nil in Hp. }
  apply Z.ltb_ge in Hdepth.
  assert (({[ID current]} ∪ avoid) ∖ {[ID current]} = avoid) as Hpop by set_solver.
  destruct (String.eqb (ID current) endID) eqn:Hend.
  - rewrite Hpop. exists [prefix ++ [current]]. split_and!; [done|apply NoDup_singleton|].
    intros p ->%list_elem_of_singleton. by exists [].
  - destruct (pathsLoop_distinct
                (fun next (st' : pathState) =>
                   findPathsDFS fuel g next endID maxDepth (prefix ++ [current]) st')
                (prefix ++ [current]) ({[ID current]} ∪ avoid)
                (GetOutgoingEdges g current) paths) as (found & -> & Hfound & Hshape).
    { intros next paths' Hnext. apply IH; [done|]. rewrite length_app. cbn [length]. lia. }
    { by apply outgoing_targets_distinct. }
    rewrite Hpop. exists found. split_and!; [done|done|].
    intros p Hp. destruct (Hshape p Hp) as (e & q & _ & ->).
    exists (To e :: q). by rewrite <- app_assoc.
Qed.

End distinct_paths.

(** X22. In a graph without parallel edges (no two edges with the same
    source ID and the same target ID), [FindAllPaths] returns every path
    once. *)
Theorem FindAllPaths_distinct g startID endID maxDepth :
  NoDup (map edgeIDs (edges g)) →
  ∃ paths, FindAllPaths g startID endID maxDepth = Ok paths ∧ NoDup paths.
Proof.
  intros Hsimple. unfold FindAllPaths. destruct (GetNode g startID) as [start|].
  - destruct (findPathsDFS_distinct g endID maxDepth Hsimple
                (S (Z.to_nat (maxDepth + 1))) start [] ∅ [])
      as (found & -> & Hfound & _); [set_solver|cbn [length]; lia|].
    by exists found.
  - exists []. split; [done|constructor].
Qed.

(** The diamond has no parallel edges and two paths; with the edge from
    node1 to node2 drawn twice, the path over node2 is returned twice. *)
Lemma FindAllPaths_distinct_witness :
  (∃ paths, FindAllPaths diamond "node1" "node4" 5 = Ok paths ∧ NoDup paths ∧ length paths = 2%nat)
  ∧ match GetNode diamond "node1", GetNode diamond "node2" with
    | Some node1, Some node2 =>
        match FindAllPaths (AddEdge diamond node1 node2 1).1 "node1" "node4" 5 with
        | Ok paths => map (map ID) paths
        | _ => []
        end
    | _, _ => []
    end
    = [["node1"; "node2"; "node4"]; ["node1"; "node3"; "node4"]; ["node1"; "node2"; "node4"]].
Proof.
  split; [|vm_compute; reflexivity].
  destruct (FindAllPaths_distinct diamond "node1" "node4" 5) as (paths & Hrun & Hnd).
  { apply (bool_decide_unpack _). vm_compute. exact I. }
  exists paths. split; [exact Hrun|]. split; [exact Hnd|].
  assert (paths = match FindAllPaths diamond "node1" "node4" 5 with Ok paths => paths | _ => [] end)
    as -> by (by rewrite Hrun).
  vm_compute. reflexivity.
Defined.

(** ** The graph builder *)

Lemma addEndpointNodes_spec (name : string) (eps : list Endpoint) g :
  graph_wf g →
  let g' :=
    fold_left
      (fun g endpoint =>
         (AddNode g (nodeKey name (ep_Path endpoint) (ep_Method endpoint))
            name (ep_Path endpoint) (ep_Method endpoint)).1) eps g in
  graph_wf g'
  ∧ edges g' = edges g
  ∧ (∀ id node, (id, node) ∈ nodes g → (id, node) ∈ nodes g')
  ∧ ∀ endpoint, endpoint ∈ eps →
      ∃ node, (nodeKey name (ep_Path endpoint) (ep_Method endpoint), node) ∈ nodes g'.
Proof.
  revert g. induction eps as [|ep eps IH]; intros g Hwf; cbn [fold_left].
  - split_and!; [done..|]. intros endpoint Hin. by apply elem_of_nil in Hin.
  - pose proof (graph_wf_AddNode g (nodeKey name (ep_Path ep) (ep_Method ep))
                  name (ep_Path ep) (ep_Method ep) Hwf) as Hadd.
    destruct (AddNode g _ _ _ _) as [g1 node]. cbn [fst].
    destruct Hadd as (Hwf1 & Hnode & Hid & Hedges & Hkeep).
    destruct (IH g1 Hwf1) as (Hwf' & Hedges' & Hkeep' & Hall).
    split_and!; [done|congruence|by eauto|].
    intros endpoint [->|Hin]%elem_of_cons; [|by apply Hall].
    exists node. apply Hkeep'. by rewrite <- Hid.
Qed.

Lemma addServiceNodes_spec (services : list Service) g :
  graph_wf g →
  let g' := fold_left addEndpointNodes services g in
  graph_wf g'
  ∧ edges g' = edges g
  ∧ (∀ id node, (id, node) ∈ nodes g → (id, node) ∈ nodes g')
  ∧ ∀ service endpoint, service ∈ services → endpoint ∈ Endpoints service →
      ∃ node,
        (nodeKey (Name service) (ep_Path endpoint) (ep_Method endpoint), node) ∈ nodes g'.
Proof.
  revert g. induction services as [|service services IH]; intros g Hwf; cbn [fold_left].
  - split_and!; [done..|]. intros service endpoint Hin. by apply elem_of_nil in Hin.
  - destruct (addEndpointNodes_spec (Name service) (Endpoints service) g Hwf)
      as (Hwf1 & Hedges1 & Hkeep1 & Hall1).
    fold (addEndpointNodes g service) in Hwf1, Hedges1, Hkeep1, Hall1.
    destruct (IH _ Hwf1) as (Hwf' & Hedges' & Hkeep' & Hall').
    split_and!; [done|congruence|by eauto|].
    intros service' endpoint [->|Hin]%elem_of_cons Hep; [|by eapply Hall'].
    destruct (Hall1 endpoint Hep) as [node Hnode]. exists node. by apply Hkeep'.
Qed.

(** The node that the dependency loop uses for an end: the one found, or
    the virtual one it adds. *)
Lemma lookup_or_add g id service endpoint method :
  graph_wf g →
  let '(g', node) :=
    match GetNode g id with
    | Some node => (g, node)
    | None => AddNode g id service endpoint method
    end in
  graph_wf g'
  ∧ (ID node, node) ∈ nodes g'
  ∧ ID node = id
  ∧ edges g' = edges g
  ∧ ∀ id' node', (id', node') ∈ nodes g → (id', node') ∈ nodes g'.
Proof.
  intros Hwf. destruct (GetNode g id) as [node|] eqn:Hget.
  - apply (GetNode_elem g Hwf) in Hget. pose proof (wf_ids g Hwf id node Hget) as Hid.
    split_and!; [done|by rewrite Hid|done..].
  - by apply graph_wf_AddNode.
Qed.

Lemma addDependencyEdge_spec g dep :
  graph_wf g →
  let g' := addDependencyEdge g dep in
  graph_wf g'
  ∧ map edgeEnds (edges g') = map edgeEnds (edges g) ++ [dependencyEnds dep]
  ∧ ∀ id node, (id, node) ∈ nodes g → (id, node) ∈ nodes g'.
Proof.
  intros Hwf. unfold addDependencyEdge.
  pose proof (lookup_or_add g (nodeKey (FromService dep) (FromEndpoint dep) "GET")
                (FromService dep) (FromEndpoint dep) "GET" Hwf) as Hfrom.
  destruct (match GetNode g (nodeKey (FromService dep) (FromEndpoint dep) "GET") with
            | Some node => (g, node)
            | None => AddNode g _ _ _ _
            end) as [g1 fromNode].
  destruct Hfrom as (Hwf1 & Hfrom & HfromID & Hedges1 & Hkeep1).
  destruct (GetNode g (nodeKey (ToService dep) (ToEndpoint dep) "GET")) as [toNode|] eqn:Hto.
  - apply (GetNode_elem g Hwf) in Hto. pose proof (wf_ids g Hwf _ _ Hto) as HtoID.
    cbn [AddEdge fst edges nodes]. split_and!.
    + apply graph_wf_AddEdge; [done|done|]. rewrite HtoID. by apply Hkeep1.
    + rewrite map_app, Hedges1. cbn [map]. unfold edgeEnds at 2, dependencyEnds.
      cbn [From To Weight]. by rewrite HfromID, HtoID.
    + done.
  - pose proof (graph_wf_AddNode g1 (nodeKey (ToService dep) (ToEndpoint dep) "GET")
                  (ToService dep) (ToEndpoint dep) "GET" Hwf1) as Hadd.
    destruct (AddNode g1 _ _ _ _) as [g2 toNode].
    destruct Hadd as (Hwf2 & Hto2 & HtoID & Hedges2 & Hkeep2).
    cbn [AddEdge fst edges nodes]. split_and!.
    + apply graph_wf_AddEdge; [done| |done]. by apply Hkeep2.
    + rewrite map_app, Hedges2, Hedges1. cbn [map]. unfold edgeEnds at 2, dependencyEnds.
      cbn [From To Weight]. by rewrite HfromID, HtoID.
    + by eauto.
Qed.

Lemma addDependencyEdges_spec deps g :
  graph_wf g →
  let g' := fold_left addDependencyEdge deps g in
  graph_wf g'
  ∧ map edgeEnds (edges g') = map edgeEnds (edges g) ++ map dependencyEnds deps
  ∧ ∀ id node, (id, node) ∈ nodes g → (id, node) ∈ nodes g'.
Proof.
  revert g. induction deps as [|dep deps IH]; intros g Hwf; cbn [fold_left map].
  - by rewrite app_nil_r.
  - destruct (addDependencyEdge_spec g dep Hwf) as (Hwf1 & Hedges1 & Hkeep1).
    destruct (IH _ Hwf1) as (Hwf' & Hedges' & Hkeep').
    split_and!; [done| |by eauto]. by rewrite Hedges', Hedges1, <- app_assoc.
Qed.

(** X5. On a graph whose edges join its nodes (the empty graph of a new
    builder is one), [buildGraphStructure] ends without a nil dereference
    in [HasCycle], and the graph it leaves is again such a graph: it keeps
    the nodes it had, holds a node under the ID of every endpoint of every
    service, and has gained exactly one edge per dependency, in order,
    between the [GET] IDs of its two ends and with its weight. *)
Theorem buildGraphStructure_spec callGraph g :
  graph_wf g →
  ∃ g',
    buildGraphStructure callGraph g = Ok g'
    ∧ graph_wf g'
    ∧ map edgeEnds (edges g')
      = map edgeEnds (edges g) ++ map dependencyEnds (Dependencies callGraph)
    ∧ (∀ id node, GetNode g id = Some node → GetNode g' id = Some node)
    ∧ ∀ name service endpoint,
        (name, service) ∈ cg_Services callGraph → endpoint ∈ Endpoints service →
        is_Some (GetNode g' (nodeKey (Name service) (ep_Path endpoint) (ep_Method endpoint))).
Proof.
  intros Hwf. unfold buildGraphStructure.
  destruct (addServiceNodes_spec (sm_values (cg_Services callGraph)) g Hwf)
    as (Hwf1 & Hedges1 & Hkeep1 & Hall1).
  destruct (addDependencyEdges_spec (Dependencies callGraph) _ Hwf1)
    as (Hwf2 & Hedges2 & Hkeep2).
  destruct (HasCycle_spec _ Hwf2) as (b & -> & _).
  eexists. split_and!; [done|done| | |].
  - by rewrite Hedges2, Hedges1.
  - intros id node Hget%(GetNode_elem g Hwf). apply (GetNode_elem _ Hwf2). eauto.
  - intros name service endpoint Hservice Hendpoint.
    destruct (Hall1 service endpoint) as [node Hnode]; [|done|].
    + apply (list_elem_of_fmap_2 snd _ (name, service)), Hservice.
    + exists node. apply (GetNode_elem _ Hwf2). eauto.
Qed.

Lemma buildGraphStructure_spec_witness :
  ∃ g',
    buildGraphStructure pingPong NewGraph = Ok g'
    ∧ graph_wf g'
    ∧ map edgeEnds (edges g')
      = [("a:/x:GET", "b:/y:GET", 1%float); ("b:/y:GET", "a:/x:GET", 1%float);
         ("a:/x:GET", "c:/z:GET", 1%float)]
    ∧ NodeCount g' = 3.
Proof.
  destruct (buildGraphStructure_spec pingPong NewGraph graph_wf_NewGraph)
    as (g' & Hrun & Hwf & Hedges & _).
  exists g'. split; [exact Hrun|]. split; [exact Hwf|]. split; [exact Hedges|].
  assert (g' = match buildGraphStructure pingPong NewGraph with Ok g' => g' | _ => NewGraph end)
    as -> by (by rewrite Hrun).
  vm_compute. reflexivity.
Defined.

(** ** The order of [float64] *)

Ltac SFcompare_cases :=
  repeat match goal with
  | |- context [PosDef.Pos.compare_cont Eq ?a ?b] =>
      change (PosDef.Pos.compare_cont Eq a b) with (Pos.compare a b)
  | H : context [PosDef.Pos.compare_cont Eq ?a ?b] |- _ =>
      change (PosDef.Pos.compare_cont Eq a b) with (Pos.compare a b) in H
  end;
  repeat match goal with
  | |- context [Z.compare ?a ?b] => destruct (Z.compare_spec a b)
  | H : context [Z.compare ?a ?b] |- _ => destruct (Z.compare_spec a b)
  | |- context [Pos.compare ?a ?b] => destruct (Pos.compare_spec a b)
  | H : context [Pos.compare ?a ?b] |- _ => destruct (Pos.compare_spec a b)
  end;
  cbn in *; try congruence; try lia.

Lemma SFltb_irrefl a : SFltb a a = false.
Proof.
  unfold SFltb. destruct a as [[]|[]| |[] m e]; cbn; try reflexivity;
    rewrite Z.compare_refl, Pos.compare_cont_refl; reflexivity.
Qed.

Lemma SFltb_trans a b c : SFltb a b = true → SFltb b c = true → SFltb a c = true.
Proof.
  unfold SFltb.
  destruct a as [[]|[]| |[] ma ea], b as [[]|[]| |[] mb eb], c as [[]|[]| |[] mc ec];
    cbn; try congruence; intros Hab Hbc; SFcompare_cases.
Qed.

Lemma SFltb_false_trans a b c :
  b ≠ S754_nan → SFltb a b = false → SFltb b c = false → SFltb a c = false.
Proof.
  unfold SFltb. intros Hb.
  destruct a as [[]|[]| |[] ma ea], b as [[]|[]| |[] mb eb], c as [[]|[]| |[] mc ec];
    cbn; try congruence; intros Hab Hbc; SFcompare_cases.
Qed.

Lemma is_nan_Prim2SF x : is_nan x = false → Prim2SF x ≠ S754_nan.
Proof.
  unfold is_nan. rewrite FloatAxioms.eqb_spec. intros Hx Hnan. rewrite Hnan in Hx. discriminate Hx.
Qed.

Lemma ltb_irrefl (x : float) : (x <? x)%float = false.
Proof. rewrite FloatAxioms.ltb_spec. apply SFltb_irrefl. Qed.

Lemma ltb_trans (x y z : float) :
  (x <? y)%float = true → (y <? z)%float = true → (x <? z)%float = true.
Proof. rewrite !FloatAxioms.ltb_spec. apply SFltb_trans. Qed.

Lemma ltb_false_trans (x y z : float) :
  is_nan y = false →
  (x <? y)%float = false → (y <? z)%float = false → (x <? z)%float = false.
Proof. rewrite !FloatAxioms.ltb_spec. intros Hy. by apply SFltb_false_trans, is_nan_Prim2SF. Qed.

(** ** The sort of [findTopCostlyEndpoints] and [getTopNEndpoints] *)

Lemma swapPass_Permutation x rest :
  let '(m, r) := swapPass x rest in m :: r ≡ₚ x :: rest.
Proof.
  revert x. induction rest as [|y rest IH]; intros x; cbn [swapPass]; [done|].
  destruct (ec_TotalCost x <? ec_TotalCost y)%float.
  - specialize (IH y). destruct (swapPass y rest) as [m r].
    by rewrite (Permutation_swap x m r), IH.
  - specialize (IH x). destruct (swapPass x rest) as [m r].
    rewrite (Permutation_swap y m r), IH. apply Permutation_swap.
Qed.

Lemma bubbleSort_Permutation n l : bubbleSort n l ≡ₚ l.
Proof.
  revert l. induction n as [|n IH]; intros l; [by destruct l|].
  destruct l as [|x rest]; [done|]. cbn [bubbleSort].
  pose proof (swapPass_Permutation x rest) as Hswap. destruct (swapPass x rest) as [m r].
  by rewrite IH.
Qed.

(** One pass leaves in front an element that none of the others exceeds. *)
Lemma swapPass_max x rest :
  Forall (fun ec => is_nan (ec_TotalCost ec) = false) (x :: rest) →
  let '(m, r) := swapPass x rest in
  costlierFirst m x ∧ Forall (costlierFirst m) r.
Proof.
  unfold costlierFirst. revert x.
  induction rest as [|y rest IH]; intros x Hnan; cbn [swapPass].
  - split; [apply ltb_irrefl|done].
  - apply Forall_cons in Hnan as [Hx Hnan]. pose proof Hnan as [Hy Hrest]%Forall_cons.
    destruct (ec_TotalCost x <? ec_TotalCost y)%float eqn:Hxy.
    + specialize (IH y Hnan). destruct (swapPass y rest) as [m r]. destruct IH as [Hmy Hr].
      assert ((ec_TotalCost m <? ec_TotalCost x)%float = false) as Hmx.
      { destruct (ec_TotalCost m <? ec_TotalCost x)%float eqn:E; [|done].
        by rewrite (ltb_trans _ _ _ E Hxy) in Hmy. }
      split; [done|]. by apply Forall_cons.
    + specialize (IH x (Forall_cons_2 _ _ _ Hx Hrest)).
      destruct (swapPass x rest) as [m r]. destruct IH as [Hmx Hr].
      split; [done|]. apply Forall_cons. split; [|done].
      by apply (ltb_false_trans _ (ec_TotalCost x)).
Qed.

Lemma bubbleSort_sorted n l :
  Forall (fun ec => is_nan (ec_TotalCost ec) = false) l →
  (length l ≤ S n)%nat →
  StronglySorted costlierFirst (bubbleSort n l).
Proof.
  revert l. induction n as [|n IH]; intros l Hnan Hlen.
  - destruct l as [|x [|y l]]; cbn [bubbleSort length] in *; [constructor| |lia].
    repeat constructor.
  - destruct l as [|x rest]; [constructor|]. cbn [bubbleSort].
    pose proof (swapPass_Permutation x rest) as Hperm.
    pose proof (swapPass_max x rest Hnan) as Hmax.
    destruct (swapPass x rest) as [m r]. destruct Hmax as [_ Hmax].
    assert (Forall (fun ec => is_nan (ec_TotalCost ec) = false) r) as Hr.
    { rewrite <- Hperm in Hnan. by apply Forall_cons in Hnan as [_ ?]. }
    constructor.
    + apply IH; [done|]. apply Permutation_length in Hperm. cbn [length] in *. lia.
    + by rewrite bubbleSort_Permutation.
Qed.

Lemma top_of_sorted (l : list EndpointCost) (n : nat) :
  let sorted := bubbleSort (length l - 1) l in
  let top := if (n <? length sorted)%nat then take n sorted else sorted in
  top ++ drop n sorted = sorted ∧ length top = Nat.min n (length l).
Proof.
  cbn zeta. pose proof (Permutation_length (bubbleSort_Permutation (length l - 1) l)) as Hlen.
  destruct (n <? length (bubbleSort (length l - 1) l))%nat eqn:Hn.
  - apply Nat.ltb_lt in Hn. split; [apply take_drop|]. rewrite length_take. lia.
  - apply Nat.ltb_ge in Hn. split; [|lia]. rewrite drop_ge by done. apply app_nil_r.
Qed.

(** X6. [findTopCostlyEndpoints] returns [n] of the endpoint costs of the
    report, or all of them when there are fewer: what it returns, together
    with endpoint costs it leaves out, is a rearrangement of all endpoint
    costs of the report. *)
Theorem findTopCostlyEndpoints_selects report n :
  length (findTopCostlyEndpoints report n) = Nat.min n (length (allEndpointCosts report))
  ∧ ∃ rest, findTopCostlyEndpoints report n ++ rest ≡ₚ allEndpointCosts report.
Proof.
  unfold findTopCostlyEndpoints.
  destruct (top_of_sorted (allEndpointCosts report) n) as [Htop Hlen]. cbn zeta in Htop, Hlen.
  split; [done|]. eexists. rewrite Htop. apply bubbleSort_Permutation.
Qed.

(** X7. When no total cost is NaN, what [findTopCostlyEndpoints] returns
    is the front of an arrangement of all endpoint costs of the report in
    which no endpoint cost is followed by a costlier one: the list is in
    descending order of total cost, and no endpoint cost that was left out
    costs more than one that was returned. *)
Theorem findTopCostlyEndpoints_sorted report n :
  (∀ ec, ec ∈ allEndpointCosts report → is_nan (ec_TotalCost ec) = false) →
  ∃ rest,
    findTopCostlyEndpoints report n ++ rest ≡ₚ allEndpointCosts report
    ∧ StronglySorted costlierFirst (findTopCostlyEndpoints report n ++ rest).
Proof.
  intros Hnan. unfold findTopCostlyEndpoints.
  destruct (top_of_sorted (allEndpointCosts report) n) as [Htop _]. cbn zeta in Htop.
  eexists. rewrite Htop. split; [apply bubbleSort_Permutation|].
  apply bubbleSort_sorted; [by apply Forall_forall|lia].
Qed.

(** X8. For [n] of at least 0, [getTopNEndpoints] returns [n] of the
    endpoint costs of a service, or all of them when there are fewer; when
    no total cost is NaN they are the costliest ones in descending order
    of total cost.  A negative [n] makes the slice expression panic. *)
Theorem getTopNEndpoints_spec endpoints n :
  (n < 0 → getTopNEndpoints endpoints n = Panic)
  ∧ (0 ≤ n →
     ∃ top rest,
       getTopNEndpoints endpoints n = Ok top
       ∧ length top = Nat.min (Z.to_nat n) (length endpoints)
       ∧ top ++ rest ≡ₚ sm_values endpoints
       ∧ ((∀ key ec, (key, ec) ∈ endpoints → is_nan (ec_TotalCost ec) = false) →
          StronglySorted costlierFirst (top ++ rest))).
Proof.
  unfold getTopNEndpoints. split.
  - intros Hneg. rewrite (proj2 (Z.ltb_lt n _)) by lia. by rewrite (proj2 (Z.ltb_lt n 0)).
  - intros Hn.
    destruct (top_of_sorted (sm_values endpoints) (Z.to_nat n)) as [Htop Hlen].
    cbn zeta in Htop, Hlen.
    set (sorted := bubbleSort (length (sm_values endpoints) - 1) (sm_values endpoints)) in *.
    exists (if (Z.to_nat n <? length sorted)%nat then take (Z.to_nat n) sorted else sorted),
      (drop (Z.to_nat n) sorted).
    split_and!.
    + rewrite (proj2 (Z.ltb_ge n 0)) by done.
      destruct (Z.to_nat n <? length sorted)%nat eqn:Hlt.
      * apply Nat.ltb_lt in Hlt. by rewrite (proj2 (Z.ltb_lt n _)) by lia.
      * apply Nat.ltb_ge in Hlt. by rewrite (proj2 (Z.ltb_ge n _)) by lia.
    + rewrite Hlen. unfold sm_values. by rewrite length_map.
    + rewrite Htop. apply bubbleSort_Permutation.
    + intros Hnan. rewrite Htop. apply bubbleSort_sorted; [|lia].
      apply Forall_forall. intros ec ([key ec'] & -> & Hin)%list_elem_of_fmap.
      by apply (Hnan key).
Qed.

Lemma findTopCostlyEndpoints_sorted_witness :
  map ec_Endpoint (findTopCostlyEndpoints fanOutReport 2) = ["/c"; "/a"]
  ∧ ∃ rest,
      findTopCostlyEndpoints fanOutReport 2 ++ rest ≡ₚ allEndpointCosts fanOutReport
      ∧ StronglySorted costlierFirst (findTopCostlyEndpoints fanOutReport 2 ++ rest).
Proof.
  split; [vm_compute; reflexivity|].
  apply (findTopCostlyEndpoints_sorted fanOutReport 2).
  apply Forall_forall. vm_compute. repeat constructor.
Defined.

Lemma getTopNEndpoints_spec_witness :
  ∃ sc top,
    sm_get (cr_Services fanOutReport) "api" = Some sc
    ∧ getTopNEndpoints (sc_Endpoints sc) 2 = Ok top
    ∧ map ec_Endpoint top = ["/c"; "/a"]
    ∧ ∃ rest, top ++ rest ≡ₚ sm_values (sc_Endpoints sc)
              ∧ StronglySorted costlierFirst (top ++ rest).
Proof.
  do 2 eexists.
  assert (∀ P Q : Prop, P → (P → Q) → P ∧ Q) as step by tauto.
  apply step; [vm_compute; reflexivity|intros Hsc].
  apply step; [vm_compute; reflexivity|intros Hrun].
  split; [vm_compute; reflexivity|].
  match type of Hrun with getTopNEndpoints ?e _ = _ =>
    destruct (proj2 (getTopNEndpoints_spec e 2)) as (top & rest & Hrun' & _ & Hperm & Hsorted);
      [lia|]
  end.
  rewrite Hrun in Hrun'. injection Hrun' as <-.
  exists rest. split; [exact Hperm|]. apply Hsorted.
  intros key ec Hin. revert key ec Hin.
  assert (∀ kv : string * EndpointCost,
            kv ∈ sc_Endpoints
                   match sm_get (cr_Services fanOutReport) "api" with
                   | Some sc => sc
                   | None => emptyServiceCost "api"
                   end → is_nan (ec_TotalCost kv.2) = false) as Hall.
  { apply Forall_forall. vm_compute. repeat constructor. }
  intros key ec Hin. apply (Hall (key, ec)). exact Hin.
Defined.

(** ** What [CalculateCosts] leaves in the service costs *)

Section service_totals.
Context `{GoLib}.

Lemma directLoop_DirectCost c serviceMetrics durationHours eps sc :
  sc_DirectCost (directLoop c serviceMetrics durationHours eps sc)
  = fold_left
      (fun total endpoint =>
         (total + ec_DirectCost (calculateEndpointCost c endpoint serviceMetrics durationHours))%float)
      eps (sc_DirectCost sc).
Proof.
  unfold directLoop. revert sc. induction eps as [|endpoint eps IH]; intros sc; [done|].
  cbn [fold_left]. by rewrite IH.
Qed.

Lemma directLoop_keys c serviceMetrics durationHours eps sc k :
  k ∈ sm_keys (sc_Endpoints (directLoop c serviceMetrics durationHours eps sc))
  ↔ k ∈ sm_keys (sc_Endpoints sc) ∨ k ∈ map endpointKey eps.
Proof.
  unfold directLoop. revert sc. induction eps as [|endpoint eps IH]; intros sc; cbn [fold_left map].
  - rewrite elem_of_nil. tauto.
  - rewrite IH, directStep_Endpoints, sm_keys_set, elem_of_cons. case_decide.
    + split; [tauto|]. intros [?|[->|?]]; tauto.
    + rewrite elem_of_app, list_elem_of_singleton. tauto.
Qed.

Lemma attributeLoop_keys callGraph eps endpoints endpoints' :
  attributeLoop callGraph eps endpoints = Some endpoints' →
  sm_keys endpoints' = sm_keys endpoints.
Proof.
  revert endpoints. induction eps as [|endpoint eps IH]; intros endpoints; cbn [attributeLoop].
  - by intros [= ->].
  - destruct (sm_get endpoints _) as [endpointCost|] eqn:Hget; [|done].
    destruct (calculateDownstreamCosts _ _ _ _ _ _) as [[costs ?]|]; [|done].
    intros Hrun. rewrite (IH _ Hrun), sm_keys_set, decide_True; [done|].
    apply (list_elem_of_fmap_2 fst _ (_, endpointCost)). by apply sm_get_Some_elem.
Qed.

(** Every endpoint cost that the second loop leaves has been through
    [finalizeEndpointCost] at least once. *)
Lemma attributeLoop_establishes (P Q : EndpointCost → Prop) callGraph eps endpoints endpoints' :
  (∀ ec costs, P ec → P (finalizeEndpointCost ec costs) ∧ Q (finalizeEndpointCost ec costs)) →
  NoDup (sm_keys endpoints) →
  attributeLoop callGraph eps endpoints = Some endpoints' →
  (∀ k ec, (k, ec) ∈ endpoints → P ec ∧ (Q ec ∨ k ∈ map endpointKey eps)) →
  ∀ k ec, (k, ec) ∈ endpoints' → P ec ∧ Q ec.
Proof.
  intros Hstep. revert endpoints.
  induction eps as [|endpoint eps IH]; intros endpoints Hnd Hrun Hall; cbn [attributeLoop] in Hrun.
  - injection Hrun as <-. intros k ec Hin.
    destruct (Hall k ec Hin) as [HP [HQ|Hk]]; [done|by apply elem_of_nil in Hk].
  - fold (endpointKey endpoint) in Hrun.
    destruct (sm_get endpoints (endpointKey endpoint)) as [endpointCost|] eqn:Hget; [|done].
    destruct (calculateDownstreamCosts _ _ _ _ _ _) as [[costs ?]|]; [|done].
    apply (IH _ (sm_keys_set_NoDup _ _ _ Hnd) Hrun).
    intros k ec Hin. apply sm_set_elem_NoDup in Hin as [[-> ->]|[Hne Hin]]; [| |done].
    + destruct (Hall _ _ (sm_get_Some_elem _ _ _ Hget)) as [HP _].
      destruct (Hstep endpointCost costs HP). by auto.
    + destruct (Hall k ec Hin) as [HP [HQ|Hk]]; (split; [done|]); [by left|].
      right. apply elem_of_cons in Hk as [?|?]; done.
Qed.

Lemma calculateEndpointCost_fresh c endpoint serviceMetrics durationHours :
  CostPerRequest (calculateEndpointCost c endpoint serviceMetrics durationHours) = 0%float.
Proof.
  unfold calculateEndpointCost. destruct serviceMetrics as [sm|]; [|done].
  destruct (sm_Endpoints sm !! _) as [em|]; [|done]. by destruct (Resource em).
Qed.

Lemma finalizeEndpointCost_perRequest ec costs :
  ((0 <? RequestCount ec)%float = false → CostPerRequest ec = 0%float) →
  ((0 <? RequestCount (finalizeEndpointCost ec costs))%float = false →
   CostPerRequest (finalizeEndpointCost ec costs) = 0%float)
  ∧ perRequest (finalizeEndpointCost ec costs).
Proof.
  unfold perRequest, finalizeEndpointCost. cbn. intros Hzero.
  destruct (0 <? RequestCount ec)%float; [done|]. by rewrite Hzero.
Qed.

Lemma calculateServiceCost_totals c callGraph metricsSnapshot durationHours serviceName service sc :
  calculateServiceCost c callGraph metricsSnapshot durationHours serviceName service = Some sc →
  sc_ServiceName sc = serviceName
  ∧ (∀ key, key ∈ sm_keys (sc_Endpoints sc) ↔ key ∈ map endpointKey (Endpoints service))
  ∧ sc_DirectCost sc
    = sumDirect c (GetServiceMetrics metricsSnapshot serviceName) durationHours (Endpoints service)
  ∧ AttributedCost sc = sumAttributed (rangeOrder (sc_Endpoints sc))
  ∧ sc_TotalCost sc = (sc_DirectCost sc + AttributedCost sc)%float
  ∧ ∀ key ec, (key, ec) ∈ sc_Endpoints sc → perRequest ec.
Proof.
  unfold calculateServiceCost.
  set (sc0 := directLoop c (GetServiceMetrics metricsSnapshot serviceName) durationHours
                (Endpoints service) (emptyServiceCost serviceName)).
  destruct (attributeLoop callGraph (Endpoints service) (sc_Endpoints sc0))
    as [endpoints|] eqn:Hattr; [|done].
  intros [= <-]. cbn [sc_ServiceName sc_Endpoints sc_DirectCost AttributedCost sc_TotalCost].
  assert (NoDup (sm_keys (sc_Endpoints sc0))) as Hnd.
  { apply (directLoop_spec c _ durationHours (Endpoints service) (emptyServiceCost serviceName));
      [apply NoDup_nil_2|]. intros k ec Hin. by apply elem_of_nil in Hin. }
  split_and!; [done| |apply directLoop_DirectCost|done|done|].
  - intros key. rewrite (attributeLoop_keys _ _ _ _ Hattr). unfold sc0.
    rewrite directLoop_keys. cbn [emptyServiceCost sc_Endpoints sm_keys map].
    rewrite elem_of_nil. tauto.
  - intros key ec Hin.
    apply (attributeLoop_establishes
             (fun ec => (0 <? RequestCount ec)%float = false → CostPerRequest ec = 0%float)
             perRequest callGraph (Endpoints service) (sc_Endpoints sc0) endpoints
             finalizeEndpointCost_perRequest Hnd Hattr) in Hin; [by destruct Hin|].
    intros k ec' Hin'. split.
    + apply directLoop_origin in Hin' as [Hin'|(endpoint & _ & _ & ->)].
      * by apply elem_of_nil in Hin'.
      * intros _. apply calculateEndpointCost_fresh.
    + right. apply (list_elem_of_fmap_2 fst) in Hin'. cbn [fst] in Hin'.
      apply directLoop_keys in Hin' as [Hnil|?]; [by apply elem_of_nil in Hnil|done].
Qed.



(** X10. Every endpoint cost of a report of [CalculateCosts] has as total
    its direct cost plus the sum of the costs of its downstream entries,
    and as cost per request that total divided by the request count, or 0
    when the request count is not above 0. *)
Theorem endpoint_cost_totals c callGraph metricsSnapshot timeRange report err name sc key ec :
  CalculateCosts c callGraph metricsSnapshot timeRange = Some (report, err) →
  (name, sc) ∈ cr_Services report →
  (key, ec) ∈ sc_Endpoints sc →
  ec_TotalCost ec = (ec_DirectCost ec + sumDownstream (DownstreamCosts ec))%float
  ∧ CostPerRequest ec
    = if (0 <? RequestCount ec)%float then (ec_TotalCost ec / RequestCount ec)%float
      else 0%float.
Proof.
  intros Hrun Hsc Hec. split.
  - by destruct (CalculateCosts_allFinalized _ _ _ _ _ _ Hrun name sc key ec Hsc Hec)
      as [_ [? _]].
  - destruct (CalculateCosts_inv _ _ _ _ _ _ Hrun) as (report0 & Hloop & Hservices & _).
    rewrite Hservices in Hsc.
    destruct (servicesLoop_origin _ _ _ _ _ _ _ _ _ Hloop Hsc) as [Hnil|(service & _ & Hcalc)].
    { by apply elem_of_nil in Hnil. }
    destruct (calculateServiceCost_totals _ _ _ _ _ _ _ Hcalc) as (_ & _ & _ & _ & _ & Hper).
    by apply (Hper key).
Qed.

(** X11. A walk of [calculateDownstreamCosts] that starts at depth [depth]
    nests at most [11 - depth] further calls, so it always returns; when it
    returns, the [visited] map holds the keys it held at the call; and a
    walk that starts at a depth above 10 returns no entry. *)
Theorem downstream_walk_returns fuel endpoint callGraph endpointCosts depth visited :
  Z.max 0 (11 - depth) < Z.of_nat fuel →
  ∃ costs,
    calculateDownstreamCosts fuel endpoint callGraph endpointCosts depth visited
    = Some (costs, visited)
    ∧ (maxDepth < depth → costs = []).
Proof.
  intros Hfuel.
  destruct (calculateDownstreamCosts_fuel fuel endpoint callGraph endpointCosts depth visited Hfuel)
    as [costs Hrun].
  exists costs. split; [done|]. intros Hdeep.
  destruct fuel as [|fuel]; [done|]. cbn [calculateDownstreamCosts] in Hrun.
  rewrite (proj2 (Z.ltb_lt _ _) Hdeep) in Hrun. by injection Hrun as <-.
Qed.

(** ** Every dependency of an endpoint is attributed *)

Lemma downstreamLoop_complete recur endpoint callGraph endpointCosts depth deps acc visited :
  (∀ ep v, ∃ costs, recur ep (depth + 1) v = Some (costs, v)) →
  ∃ costs,
    downstreamLoop recur endpoint callGraph endpointCosts depth deps acc visited
    = Some (costs, visited)
    ∧ (∀ entry, entry ∈ acc → entry ∈ costs)
    ∧ ∀ dep, dep ∈ deps →
        FromService dep = ep_Service endpoint → FromEndpoint dep = ep_Path endpoint →
        colonKey (ToService dep) (ToEndpoint dep) ∉ visited →
        directEntry endpointCosts depth dep ∈ costs.
Proof.
  intros Hrec. revert acc. induction deps as [|dep deps IH]; intros acc; cbn [downstreamLoop].
  { eexists. split_and!; [done|done|]. intros dep Hin. by apply elem_of_nil in Hin. }
  assert (∀ acc' costs : list DownstreamCost,
            (∀ entry, entry ∈ acc' → entry ∈ costs) →
            (∀ entry, entry ∈ acc → entry ∈ acc') →
            (FromService dep = ep_Service endpoint → FromEndpoint dep = ep_Path endpoint →
             colonKey (ToService dep) (ToEndpoint dep) ∉ visited →
             directEntry endpointCosts depth dep ∈ acc') →
            (∀ d, d ∈ deps →
               FromService d = ep_Service endpoint → FromEndpoint d = ep_Path endpoint →
               colonKey (ToService d) (ToEndpoint d) ∉ visited →
               directEntry endpointCosts depth d ∈ costs) →
            (∀ entry, entry ∈ acc → entry ∈ costs)
            ∧ ∀ d, d ∈ dep :: deps →
                FromService d = ep_Service endpoint → FromEndpoint d = ep_Path endpoint →
                colonKey (ToService d) (ToEndpoint d) ∉ visited →
                directEntry endpointCosts depth d ∈ costs) as Hglue.
  { intros acc' costs Hacc' Hacc Hdep Hdeps. split; [by auto|].
    intros d [->|Hd]%elem_of_cons; [|by auto]. intros. by auto. }
  destruct (String.eqb (FromService dep) (ep_Service endpoint)
            && String.eqb (FromEndpoint dep) (ep_Path endpoint)) eqn:Hmatch.
  2:{ destruct (IH acc) as (costs & -> & Hacc & Hdeps). exists costs. split; [done|].
      apply (Hglue acc); [done|done| |done].
      intros Hfs Hfe. apply andb_false_iff in Hmatch as [Hne|Hne]; apply String.eqb_neq in Hne; done. }
  destruct (decide (colonKey (ToService dep) (ToEndpoint dep) ∈ visited)) as [Hin|Hnotin].
  { destruct (IH acc) as (costs & -> & Hacc & Hdeps). exists costs. split; [done|].
    by apply (Hglue acc). }
  fold (targetDirectCost endpointCosts dep). fold (directCostAt endpointCosts (colonKey (ToEndpoint dep) "GET")).
  fold (targetDirectCost endpointCosts dep). fold (directEntry endpointCosts depth dep).
  assert (directEntry endpointCosts depth dep ∈ acc ++ [directEntry endpointCosts depth dep])
    as Hnew by (apply elem_of_app; right; left).
  assert (∀ entry, entry ∈ acc → entry ∈ acc ++ [directEntry endpointCosts depth dep])
    as Hold by (intros; apply elem_of_app; by left).
  destruct (GetService callGraph (ToService dep)) as [targetService|].
  2:{ destruct (IH (acc ++ [directEntry endpointCosts depth dep]))
        as (costs & -> & Hacc & Hdeps).
      exists costs. split; [done|]. by apply (Hglue (acc ++ [directEntry endpointCosts depth dep])). }
  destruct (GetEndpoint targetService (ToEndpoint dep) "GET") as [targetEndpoint|].
  2:{ destruct (IH (acc ++ [directEntry endpointCosts depth dep]))
        as (costs & -> & Hacc & Hdeps).
      exists costs. split; [done|]. by apply (Hglue (acc ++ [directEntry endpointCosts depth dep])). }
  destruct (Hrec targetEndpoint ({[colonKey (ToService dep) (ToEndpoint dep)]} ∪ visited))
    as [nested ->].
  replace (({[colonKey (ToService dep) (ToEndpoint dep)]} ∪ visited)
             ∖ {[colonKey (ToService dep) (ToEndpoint dep)]}) with visited by set_solver.
  destruct (IH ((acc ++ [directEntry endpointCosts depth dep])
                  ++ map (scaleCost (dep_Weight dep)) nested))
    as (costs & -> & Hacc & Hdeps).
  exists costs. split; [done|].
  apply (Hglue ((acc ++ [directEntry endpointCosts depth dep])
                  ++ map (scaleCost (dep_Weight dep)) nested)); [done| | |done].
  - intros entry Hentry. apply elem_of_app. left. by apply Hold.
  - intros _ _ _. apply elem_of_app. by left.
Qed.

Lemma calculateDownstreamCosts_complete fuel endpoint callGraph endpointCosts depth visited dep :
  Z.max 0 (11 - depth) < Z.of_nat fuel → depth ≤ maxDepth →
  dep ∈ Dependencies callGraph →
  FromService dep = ep_Service endpoint → FromEndpoint dep = ep_Path endpoint →
  colonKey (ToService dep) (ToEndpoint dep) ∉ visited →
  ∃ costs,
    calculateDownstreamCosts fuel endpoint callGraph endpointCosts depth visited
    = Some (costs, visited)
    ∧ directEntry endpointCosts depth dep ∈ costs.
Proof.
  intros Hfuel Hdepth Hdep Hfs Hfe Hvisited. destruct fuel as [|fuel]; [lia|].
  cbn [calculateDownstreamCosts]. rewrite (proj2 (Z.ltb_ge maxDepth depth)) by done.
  destruct (downstreamLoop_complete
              (fun ep d v => calculateDownstreamCosts fuel ep callGraph endpointCosts d v)
              endpoint callGraph endpointCosts depth (Dependencies callGraph) [] visited)
    as (costs & Hrun & _ & Hall).
  { intros ep v. apply calculateDownstreamCosts_fuel. unfold maxDepth in Hdepth. lia. }
  exists costs. split; [done|]. by apply Hall.
Qed.

Lemma attributeLoop_get_other callGraph eps endpoints endpoints' k :
  k ∉ map endpointKey eps →
  attributeLoop callGraph eps endpoints = Some endpoints' →
  sm_get endpoints' k = sm_get endpoints k.
Proof.
  revert endpoints. induction eps as [|endpoint eps IH]; intros endpoints Hk Hrun;
    cbn [attributeLoop] in Hrun.
  { by injection Hrun as <-. }
  fold (endpointKey endpoint) in Hrun. cbn [map] in Hk. apply not_elem_of_cons in Hk as [Hne Hk].
  destruct (sm_get endpoints (endpointKey endpoint)) as [ec0|]; [|done].
  destruct (calculateDownstreamCosts _ _ _ _ _ _) as [[costs ?]|]; [|done].
  rewrite (IH _ Hk Hrun). by apply sm_get_set_ne.
Qed.

Lemma attributeLoop_complete callGraph eps endpoints endpoints' :
  NoDup (map endpointKey eps) →
  attributeLoop callGraph eps endpoints = Some endpoints' →
  (∀ k, directCostAt endpoints' k = directCostAt endpoints k)
  ∧ ∀ endpoint dep,
      endpoint ∈ eps → dep ∈ Dependencies callGraph →
      FromService dep = ep_Service endpoint → FromEndpoint dep = ep_Path endpoint →
      ∃ ec, sm_get endpoints' (endpointKey endpoint) = Some ec
            ∧ directEntry endpoints 0 dep ∈ DownstreamCosts ec.
Proof.
  revert endpoints. induction eps as [|endpoint eps IH]; intros endpoints Hnd Hrun;
    cbn [attributeLoop] in Hrun.
  { injection Hrun as <-. split; [done|]. intros endpoint dep Hin. by apply elem_of_nil in Hin. }
  fold (endpointKey endpoint) in Hrun. cbn [map] in Hnd. apply NoDup_cons in Hnd as [Hfresh Hnd].
  destruct (sm_get endpoints (endpointKey endpoint)) as [ec0|] eqn:Hget; [|done].
  destruct (calculateDownstreamCosts 12 endpoint callGraph endpoints 0 ∅)
    as [[costs visited']|] eqn:Hwalk; [|done].
  destruct (IH _ Hnd Hrun) as [Hdirect Hall].
  assert (∀ k, directCostAt endpoints' k = directCostAt endpoints k) as Hdirect'.
  { intros k. by rewrite Hdirect, (directCostAt_finalize _ _ _ _ _ Hget). }
  split; [done|].
  intros endpoint' dep [->|Hin]%elem_of_cons Hdep Hfs Hfe.
  - rewrite (attributeLoop_get_other _ _ _ _ _ Hfresh Hrun), sm_get_set_eq.
    eexists. split; [done|]. cbn [finalizeEndpointCost DownstreamCosts].
    destruct (calculateDownstreamCosts_complete 12 endpoint callGraph endpoints 0 ∅ dep)
      as (costs' & Hwalk' & Hentry); [lia|done|done|done|done|set_solver|].
    rewrite Hwalk in Hwalk'. by injection Hwalk' as <-.
  - destruct (Hall endpoint' dep Hin Hdep Hfs Hfe) as (ec & Hec & Hentry).
    exists ec. split; [done|].
    replace (directEntry endpoints 0 dep)
      with (directEntry (sm_set endpoints (endpointKey endpoint)
                           (finalizeEndpointCost ec0 costs)) 0 dep); [done|].
    unfold directEntry, targetDirectCost. by rewrite (directCostAt_finalize _ _ _ _ _ Hget).
Qed.

(** X21. In a report of [CalculateCosts], every dependency that leaves an
    endpoint of a service is attributed to it: when the endpoints of the
    service have distinct keys, the endpoint cost filed for the endpoint
    has, for each dependency with its service and path as source, a
    downstream entry of depth 1 for the target of the dependency, with its
    weight, whose cost is the direct cost filed under the target path and
    [GET] times the weight. *)
Theorem dependencies_are_attributed c callGraph metricsSnapshot timeRange report err name sc :
  CalculateCosts c callGraph metricsSnapshot timeRange = Some (report, err) →
  (name, sc) ∈ cr_Services report →
  ∃ service,
    (name, service) ∈ cg_Services callGraph
    ∧ (NoDup (map endpointKey (Endpoints service)) →
       ∀ endpoint dep,
         endpoint ∈ Endpoints service → dep ∈ Dependencies callGraph →
         FromService dep = ep_Service endpoint → FromEndpoint dep = ep_Path endpoint →
         ∃ ec, sm_get (sc_Endpoints sc) (endpointKey endpoint) = Some ec
               ∧ directEntry (sc_Endpoints sc) 0 dep ∈ DownstreamCosts ec).
Proof.
  intros (report0 & Hloop & Hservices & _)%CalculateCosts_inv Hsc. rewrite Hservices in Hsc.
  destruct (servicesLoop_origin _ _ _ _ _ _ _ _ _ Hloop Hsc) as [Hnil|(service & Hsvc & Hcalc)].
  { by apply elem_of_nil in Hnil. }
  exists service. split; [done|]. intros Hnd endpoint dep Hep Hdep Hfs Hfe.
  unfold calculateServiceCost in Hcalc.
  destruct (attributeLoop callGraph (Endpoints service) _) as [endpoints|] eqn:Hattr; [|done].
  injection Hcalc as <-. cbn [sc_Endpoints].
  destruct (attributeLoop_complete _ _ _ _ Hnd Hattr) as [Hdirect Hall].
  destruct (Hall endpoint dep Hep Hdep Hfs Hfe) as (ec & Hec & Hentry).
  exists ec. split; [done|].
  replace (directEntry endpoints 0 dep) with
    (directEntry (sc_Endpoints (directLoop c (GetServiceMetrics metricsSnapshot name)
                                  (Hours timeRange) (Endpoints service)
                                  (emptyServiceCost name))) 0 dep); [done|].
  unfold directEntry, targetDirectCost. by rewrite Hdirect.
Qed.

(** X12. In a report of [CalculateCosts], [TopCostly] holds ten endpoint
    costs of the report, or all of them when there are fewer.  With no
    endpoint cost at all there is no recommendation; otherwise the first
    recommendation is the one for the first entry of [TopCostly], whatever
    the costs are. *)
Theorem report_top_costly c callGraph metricsSnapshot timeRange report err :
  CalculateCosts c callGraph metricsSnapshot timeRange = Some (report, err) →
  length (TopCostly report) = Nat.min 10 (length (allEndpointCosts report))
  ∧ (∀ ec, ec ∈ TopCostly report → ec ∈ allEndpointCosts report)
  ∧ match TopCostly report with
    | [] => allEndpointCosts report = [] ∧ Recommendations report = []
    | topEndpoint :: _ => head (Recommendations report) = Some (optimizeMessage topEndpoint)
    end.
Proof.
  intros (report0 & _ & Hservices & _ & Htop & Hrec & _)%CalculateCosts_inv.
  assert (allEndpointCosts report = allEndpointCosts report0) as Hall.
  { unfold allEndpointCosts. by rewrite Hservices. }
  destruct (top_of_sorted (allEndpointCosts report0) 10) as [Hsplit Hlen].
  cbn zeta in Hsplit, Hlen. fold (findTopCostlyEndpoints report0 10) in Hsplit, Hlen.
  rewrite <- Htop, <- Hall in Hsplit, Hlen.
  split_and!; [done| |].
  - intros ec Hec. rewrite Hall, <- (bubbleSort_Permutation (length (allEndpointCosts report0) - 1)).
    rewrite <- Hall, <- Hsplit. apply elem_of_app. by left.
  - rewrite Hrec. unfold generateRecommendations, reviewRecommendations.
    destruct (TopCostly report) as [|topEndpoint rest]; [|done].
    cbn [length] in Hlen. destruct (allEndpointCosts report); [done|]. cbn [length] in Hlen. lia.
Qed.

End service_totals.


Lemma endpoint_cost_totals_witness :
  ∃ report sc ec,
    CalculateCosts (H := exampleLib) testCalculator testCallGraph testSnapshot oneHour
    = Some (report, None)
    ∧ sm_get (cr_Services report) "test-service" = Some sc
    ∧ sm_get (sc_Endpoints sc) "/api/test:GET" = Some ec
    ∧ RequestCount ec = 360000%float
    ∧ ec_TotalCost ec = (ec_DirectCost ec + sumDownstream (DownstreamCosts ec))%float
    ∧ CostPerRequest ec = (ec_TotalCost ec / 360000)%float.
Proof.
  do 3 eexists.
  assert (∀ P Q : Prop, P → (P → Q) → P ∧ Q) as step by tauto.
  apply step; [vm_compute; reflexivity|intros Hrun].
  apply step; [vm_compute; reflexivity|intros Hsc].
  apply step; [vm_compute; reflexivity|intros Hec].
  split; [vm_compute; reflexivity|].
  exact (endpoint_cost_totals (H := exampleLib) _ _ _ _ _ _ _ _ _ _ Hrun
           (sm_get_Some_elem _ _ _ Hsc) (sm_get_Some_elem _ _ _ Hec)).
Defined.

Lemma downstream_walk_returns_witness :
  ∃ costs,
    calculateDownstreamCosts 12 (getEndpoint "a" "/x") pingPong [] 0 ∅ = Some (costs, ∅)
    ∧ (maxDepth < 0 → costs = []).
Proof. apply (downstream_walk_returns 12 (getEndpoint "a" "/x") pingPong [] 0 ∅). lia. Defined.

Lemma report_top_costly_witness :
  ∃ report,
    CalculateCosts (H := exampleLib) cpuOnlyCalculator fanOut fanOutMetrics oneHour
    = Some (report, None)
    ∧ map ec_Endpoint (TopCostly report) = ["/c"; "/a"; "/b"]
    ∧ length (TopCostly report) = Nat.min 10 (length (allEndpointCosts report))
    ∧ ∀ ec, ec ∈ TopCostly report → ec ∈ allEndpointCosts report.
Proof.
  eexists.
  assert (∀ P Q : Prop, P → (P → Q) → P ∧ Q) as step by tauto.
  apply step; [vm_compute; reflexivity|intros Hrun].
  split; [vm_compute; reflexivity|].
  destruct (report_top_costly (H := exampleLib) _ _ _ _ _ _ Hrun) as (Hlen & Hin & _).
  split; [exact Hlen|exact Hin].
Defined.

Lemma dependencies_are_attributed_witness :
  ∃ report sc ec,
    CalculateCosts (H := exampleLib) cpuOnlyCalculator fanOut fanOutMetrics oneHour
    = Some (report, None)
    ∧ sm_get (cr_Services report) "api" = Some sc
    ∧ sm_get (sc_Endpoints sc) "/c:GET" = Some ec
    ∧ {| dc_Service := "api"; dc_Endpoint := "/b"; dc_Cost := 6; CallsPerRequest := 6; Depth := 1 |}
      ∈ DownstreamCosts ec.
Proof.
  do 3 eexists.
  assert (∀ P Q : Prop, P → (P → Q) → P ∧ Q) as step by tauto.
  apply step; [vm_compute; reflexivity|intros Hrun].
  apply step; [vm_compute; reflexivity|intros Hsc].
  apply step; [vm_compute; reflexivity|intros Hec].
  destruct (dependencies_are_attributed (H := exampleLib) _ _ _ _ _ _ _ _ Hrun
              (sm_get_Some_elem _ _ _ Hsc)) as (service & Hservice & Hall).
  apply list_elem_of_singleton in Hservice. injection Hservice as ->.
  destruct (Hall ltac:(apply (bool_decide_unpack _); vm_compute; exact I)
              (getEndpoint "api" "/c") (dependency "api" "/c" "api" "/b" 6))
    as (ec' & Hec' & Hentry).
  - apply (list_elem_of_lookup_2 _ 2%nat). reflexivity.
  - apply (list_elem_of_lookup_2 _ 1%nat). reflexivity.
  - reflexivity.
  - reflexivity.
  - change (endpointKey (getEndpoint "api" "/c")) with "/c:GET" in Hec'.
    rewrite Hec in Hec'. injection Hec' as <-. exact Hentry.
Defined.

(** ** Strings *)

Lemma length_append (a b : string) :
  String.length (a +:+ b) = (String.length a + String.length b)%nat.
Proof. induction a as [|c a IH]; [done|]. simpl. by f_equal. Qed.

Lemma length_substring_0 (m : nat) (s : string) :
  (m ≤ String.length s)%nat → String.length (String.substring 0 m s) = m.
Proof.
  revert m. induction s as [|c s IH]; intros [|m] Hm; cbn in *; try done; try lia.
  rewrite IH; lia.
Qed.

Lemma substring_all (s : string) : String.substring 0 (String.length s) s = s.
Proof. induction s as [|c s IH]; cbn; [done|]. by rewrite IH. Qed.

Lemma substring_append (a b : string) :
  String.substring (String.length a) (String.length b) (a +:+ b) = b.
Proof. induction a as [|c a IH]; cbn; [apply substring_all|done]. Qed.

Lemma HasSuffix_append (stem suffix : string) : HasSuffix (stem +:+ suffix) suffix = true.
Proof.
  unfold HasSuffix. rewrite length_append.
  replace (String.length stem + String.length suffix - String.length suffix)%nat
    with (String.length stem) by lia.
  rewrite substring_append, String.eqb_refl, andb_true_r. apply Nat.leb_le. lia.
Qed.

(** ** Which files the analyzer reads *)

(** X13. With [IncludeTests] off, the scanner leaves out every file whose
    name ends in [_test.go], but the walk of [detectDependencies] leaves
    out no file at all: its comparison of the name with the name cut by
    three bytes and extended by [_test.go] never holds.  With
    [IncludeTests] on, neither leaves out a file. *)
Theorem test_files_are_not_skipped includeTests base stem :
  (3 ≤ String.length base)%nat →
  skipsTestFile includeTests base = Ok false
  ∧ shouldIncludeFile false (stem +:+ "_test.go") = false
  ∧ shouldIncludeFile true (stem +:+ "_test.go") = true.
Proof.
  intros Hlen. split_and!.
  - unfold skipsTestFile. destruct includeTests; [done|]. cbn [negb].
    rewrite (proj2 (Nat.ltb_ge _ _) Hlen). f_equal. apply String.eqb_neq. intros Heq.
    apply (f_equal String.length) in Heq.
    rewrite length_append, length_substring_0 in Heq by lia. cbn in Heq. lia.
  - unfold shouldIncludeFile. by rewrite HasSuffix_append.
  - done.
Qed.

Lemma test_files_are_not_skipped_witness :
  skipsTestFile false "handler_test.go" = Ok false
  ∧ shouldIncludeFile false "handler_test.go" = false
  ∧ shouldIncludeFile true "handler_test.go" = true.
Proof. apply (test_files_are_not_skipped false "handler_test.go" "handler"). cbn. lia. Defined.

(** ** The endpoint of a URL *)

Lemma Split_nonempty s sep : Split s sep ≠ [].
Proof.
  destruct s as [|c s]; cbn [Split]; [done|].
  destruct (Ascii.eqb c sep); [done|]. by destruct (Split s sep).
Qed.

Lemma Split_append (a s : string) :
  slashFree a = true → Split (a +:+ String "/" s) "/" = a :: Split s "/".
Proof.
  induction a as [|c a IH]; cbn [slashFree]; intros Ha.
  - done.
  - apply andb_true_iff in Ha as [Hc Ha]. apply negb_true_iff in Hc.
    change (String c a +:+ String "/" s) with (String c (a +:+ String "/" s)).
    cbn [Split]. by rewrite Hc, IH.
Qed.

Lemma Split_slashFree (a : string) : slashFree a = true → Split a "/" = [a].
Proof.
  induction a as [|c a IH]; cbn [slashFree]; intros Ha; [done|].
  apply andb_true_iff in Ha as [Hc Ha]. apply negb_true_iff in Hc.
  cbn [Split]. by rewrite Hc, IH.
Qed.

Lemma Join_Split (s : string) : Join (Split s "/") "/" = s.
Proof.
  induction s as [|c s IH]; [done|]. cbn [Split].
  destruct (Ascii.eqb c "/") eqn:Hc.
  - apply Ascii.eqb_eq in Hc. subst c. pose proof (Split_nonempty s "/") as Hne.
    destruct (Split s "/") as [|part parts]; [done|].
    change (Join ("" :: part :: parts) "/") with ("" +:+ "/" +:+ Join (part :: parts) "/").
    by rewrite IH.
  - pose proof (Split_nonempty s "/") as Hne.
    destruct (Split s "/") as [|part [|part' parts]]; [done| |].
    + cbn [Join] in *. by rewrite IH.
    + change (Join (String c part :: part' :: parts) "/")
        with (String c (part +:+ "/" +:+ Join (part' :: parts) "/")).
      change (Join (part :: part' :: parts) "/")
        with (part +:+ "/" +:+ Join (part' :: parts) "/") in IH.
      by rewrite IH.
Qed.

Lemma Split_length (s : string) : length (Split s "/") = S (Count s "/").
Proof.
  induction s as [|c s IH]; [done|]. cbn [Split Count].
  destruct (Ascii.eqb c "/"); cbn [length]; [by rewrite IH|].
  pose proof (Split_nonempty s "/") as Hne.
  destruct (Split s "/") as [|part parts]; [done|]. cbn [length] in *. lia.
Qed.

(** X14. [extractEndpointFromURL] returns ["/"] followed by what follows
    the third slash of the URL, so for [scheme://host/path] it returns
    [/path]; for a URL with fewer than three slashes it returns ["/"]. *)
Theorem extractEndpointFromURL_spec :
  (∀ scheme empty host path,
     slashFree scheme = true → slashFree empty = true → slashFree host = true →
     extractEndpointFromURL (scheme +:+ "/" +:+ empty +:+ "/" +:+ host +:+ "/" +:+ path)
     = "/" +:+ path)
  ∧ (∀ url, (Count url "/" < 3)%nat → extractEndpointFromURL url = "/").
Proof.
  unfold extractEndpointFromURL. split.
  - intros scheme empty host path Hscheme Hempty Hhost.
    assert (∀ x, "/" +:+ x = String "/" x) as Hslash by done.
    rewrite !Hslash, !Split_append by done.
    pose proof (Split_nonempty path "/") as Hne.
    destruct (Split path "/") as [|part parts] eqn:Hsplit; [done|].
    cbn [length drop]. by rewrite <- Hsplit, Join_Split.
  - intros url Hcount. rewrite Split_length.
    by rewrite (proj2 (Nat.ltb_ge 3 (S (Count url "/")))) by lia.
Qed.

Lemma extractEndpointFromURL_spec_witness :
  extractEndpointFromURL "http://payment.com/api/v1/pay" = "/api/v1/pay"
  ∧ extractEndpointFromURL "http://service.com" = "/".
Proof.
  destruct extractEndpointFromURL_spec as [Hpath Hroot]. split.
  - apply (Hpath "http:" "" "payment.com" "api/v1/pay"); reflexivity.
  - apply (Hroot "http://service.com"). cbn. lia.
Defined.

(** ** Endpoints of a service *)

Lemma findEndpoint_app eps eps' path method :
  findEndpoint (eps ++ eps') path method
  = match findEndpoint eps path method with
    | Some found => Some found
    | None => findEndpoint eps' path method
    end.
Proof.
  induction eps as [|ep eps IH]; cbn [app findEndpoint]; [done|].
  by destruct (String.eqb (ep_Path ep) path && String.eqb (ep_Method ep) method).
Qed.

(** X15. [GetEndpoint] returns the first endpoint with the path and the
    method.  After [AddEndpoint] every lookup that succeeded before still
    returns what it returned, and the added endpoint, which now points back
    to the service, is returned only for its own path and method and only
    when no earlier endpoint has them. *)
Theorem AddEndpoint_GetEndpoint s endpoint path method :
  GetEndpoint (AddEndpoint s endpoint) path method
  = match GetEndpoint s path method with
    | Some found => Some found
    | None =>
        if String.eqb (ep_Path endpoint) path && String.eqb (ep_Method endpoint) method
        then Some {| ep_Path := ep_Path endpoint; ep_Method := ep_Method endpoint;
                     ep_Service := Name s |}
        else None
    end.
Proof. unfold GetEndpoint, AddEndpoint. cbn [Endpoints]. by rewrite findEndpoint_app. Qed.

(** ** The scanner *)

Section scanner.
Context `{ScanLib}.

Lemma prefix_slash (path : string) : String.prefix "/" ("/" +:+ path) = true.
Proof.
  change ("/" +:+ path) with (String "/" path). cbn [String.prefix].
  destruct (ascii_dec "/" "/") as [_|Hne]; [by destruct path|done].
Qed.

Lemma scanned_nil : scanned [].
Proof.
  split; [apply NoDup_nil_2|]. intros name service Hin. by apply elem_of_nil in Hin.
Qed.

Lemma scanned_registerService services name fileName basePath :
  scanned services → scanned (registerService services name fileName basePath).
Proof.
  intros [Hnd Hall]. unfold registerService.
  destruct (sm_get services (extractServiceName fileName basePath)) eqn:Hget; [done|].
  split; [by apply sm_keys_set_NoDup|].
  intros name' service [[-> ->]|Hin]%sm_set_elem; [|by apply Hall].
  split; [done|]. intros endpoint Hin. by apply elem_of_nil in Hin.
Qed.

Lemma registerEndpoint_scanned services name funcName endpointType fileName basePath :
  scanned services →
  scanned (registerService services name fileName basePath)
  ∧ ∃ services' service,
      registerEndpoint services funcName endpointType fileName basePath = Ok services'
      ∧ scanned services'
      ∧ sm_get services' (extractServiceName fileName basePath) = Some service
      ∧ {| ep_Path := "/" +:+ ToLower funcName; ep_Method := "GET";
           ep_Service := extractServiceName fileName basePath |} ∈ Endpoints service.
Proof.
  intros Hscanned. split; [by apply scanned_registerService|].
  unfold registerEndpoint.
  set (serviceName := extractServiceName fileName basePath).
  set (services1 := match sm_get services serviceName with
                    | Some _ => services
                    | None => registerService services serviceName fileName basePath
                    end).
  assert (scanned services1) as [Hnd Hall].
  { unfold services1. destruct (sm_get services serviceName); [done|].
    by apply scanned_registerService. }
  assert (is_Some (sm_get services1 serviceName)) as [service Hget].
  { unfold services1. destruct (sm_get services serviceName) eqn:Hget; [by rewrite Hget|].
    unfold registerService. fold serviceName. rewrite Hget. by rewrite sm_get_set_eq. }
  rewrite Hget. destruct (Hall _ _ (sm_get_Some_elem _ _ _ Hget)) as [Hname Heps].
  eexists _, _. split; [done|]. split_and!.
  - split; [by apply sm_keys_set_NoDup|].
    intros name' service' [[-> ->]|Hin]%sm_set_elem; [|by apply Hall].
    split; [done|]. cbn [AddEndpoint Endpoints].
    intros endpoint [Hin|Hin%list_elem_of_singleton]%elem_of_app; [by apply Heps|].
    subst endpoint. cbn. split_and!; [done|done|apply prefix_slash].
  - apply sm_get_set_eq.
  - cbn [AddEndpoint Endpoints]. apply elem_of_app. right. rewrite Hname. left.
Qed.


(** X16. The scanner starts with no service, and [registerService] and
    [registerEndpoint] keep its services in order: each is filed under its
    name, and each of its endpoints has method [GET], a path that starts
    with a slash, and the name of the service it is listed under.
    [registerEndpoint] never writes through a nil service, and afterwards
    the service of the file holds the endpoint ["/" + ToLower(funcName)]. *)
Theorem scanner_keeps_services_in_order services name funcName endpointType fileName basePath :
  scanned services →
  scanned (registerService services name fileName basePath)
  ∧ ∃ services' service,
      registerEndpoint services funcName endpointType fileName basePath = Ok services'
      ∧ scanned services'
      ∧ sm_get services' (extractServiceName fileName basePath) = Some service
      ∧ {| ep_Path := "/" +:+ ToLower funcName; ep_Method := "GET";
           ep_Service := extractServiceName fileName basePath |} ∈ Endpoints service.
Proof. apply registerEndpoint_scanned. Qed.

End scanner.

(** ** The configuration *)

(** X17. [Validate] refuses a configuration without analysis paths,
    without a Prometheus URL or without a provider, in this order, and
    leaves it as it is; otherwise it returns no error and replaces a
    [TopN] and a [MaxDepth] below 1 by 10 and nothing else, so that
    afterwards both are at least 1.  A second call changes nothing and
    gives the same answer, and the default configuration passes
    unchanged. *)
Theorem Validate_spec c :
  Validate DefaultConfig = (DefaultConfig, None)
  ∧ let '(c', err) := Validate c in
    Validate c' = (c', err)
    ∧ (err = None ↔
         Paths (Analysis c) ≠ [] ∧ URL (Prometheus c) ≠ ""
         ∧ cfg_Provider (cfg_CostModel c) ≠ "")
    ∧ (err ≠ None → c' = c)
    ∧ (err = None →
         1 ≤ TopN (Output c') ∧ 1 ≤ MaxDepth (Analysis c')
         ∧ (1 ≤ TopN (Output c) → Output c' = Output c)
         ∧ (1 ≤ MaxDepth (Analysis c) → Analysis c' = Analysis c)
         ∧ Prometheus c' = Prometheus c ∧ cfg_CostModel c' = cfg_CostModel c
         ∧ (TopN (Output c) < 1 →
            Output c'
            = {| Format := Format (Output c);
                 OutputPath := OutputPath (Output c);
                 IncludeMetrics := IncludeMetrics (Output c);
                 IncludeCosts := IncludeCosts (Output c);
                 TopN := 10;
                 ColorEnabled := ColorEnabled (Output c) |})
         ∧ (MaxDepth (Analysis c) < 1 →
            Analysis c'
            = {| Paths := Paths (Analysis c);
                 Excludes := Excludes (Analysis c);
                 IncludeTests := IncludeTests (Analysis c);
                 FollowImports := FollowImports (Analysis c);
                 MaxDepth := 10;
                 ServicePatterns := ServicePatterns (Analysis c) |}))
    ∧ (Paths (Analysis c) = [] → err = Some "analysis paths cannot be empty")
    ∧ (Paths (Analysis c) ≠ [] → URL (Prometheus c) = "" →
       err = Some "prometheus URL is required")
    ∧ (Paths (Analysis c) ≠ [] → URL (Prometheus c) ≠ "" →
       cfg_Provider (cfg_CostModel c) = "" →
       err = Some "cost model provider is required").
Proof.
  split; [reflexivity|].
  destruct c as [[paths excludes includeTests followImports maxDepth patterns] [url]
                   [provider region cpu memory network disk request]
                   [format outputPath includeMetrics includeCosts topN color]].
  unfold Validate. cbn.
  destruct paths as [|path paths]; cbn.
  { split_and!; try done. split; [done|]. by intros [? _]. }
  destruct (String.eqb url "") eqn:Hurl; cbn; rewrite ?Hurl; cbn.
  { apply String.eqb_eq in Hurl. split_and!; try done.
    split; [done|]. by intros (_ & ? & _). }
  destruct (String.eqb provider "") eqn:Hprovider; cbn; rewrite ?Hurl, ?Hprovider; cbn.
  { apply String.eqb_eq in Hprovider. apply String.eqb_neq in Hurl. split_and!; try done.
    split; [done|]. by intros (_ & _ & ?). }
  apply String.eqb_neq in Hurl, Hprovider.
  destruct (topN <? 1) eqn:HtopN, (maxDepth <? 1) eqn:HmaxDepth; cbn;
    rewrite ?HtopN, ?HmaxDepth;
    try apply Z.ltb_lt in HtopN; try apply Z.ltb_ge in HtopN;
    try apply Z.ltb_lt in HmaxDepth; try apply Z.ltb_ge in HmaxDepth;
    (split_and!; try done;
     intros _; split_and!; try done; try lia; intros; lia).
Qed.

(** A configuration with [TopN] 0: the call puts 10 in its place and
    keeps the rest of the output section and the analysis section. *)
Lemma Validate_spec_witness :
  let c :=
    {| Analysis := Analysis DefaultConfig;
       Prometheus := Prometheus DefaultConfig;
       cfg_CostModel := cfg_CostModel DefaultConfig;
       Output :=
         {| Format := "json"; OutputPath := "./output"; IncludeMetrics := true;
            IncludeCosts := true; TopN := 0; ColorEnabled := false |} |} in
  ∃ c', Validate c = (c', None)
        ∧ Output c'
          = {| Format := "json"; OutputPath := "./output"; IncludeMetrics := true;
               IncludeCosts := true; TopN := 10; ColorEnabled := false |}
        ∧ Analysis c' = Analysis c
        ∧ Validate c' = (c', None).
Proof.
  cbn zeta. eexists. split; [reflexivity|].
  match goal with |- context [Validate ?c = _] =>
    pose proof (proj2 (Validate_spec
      {| Analysis := Analysis DefaultConfig;
         Prometheus := Prometheus DefaultConfig;
         cfg_CostModel := cfg_CostModel DefaultConfig;
         Output :=
           {| Format := "json"; OutputPath := "./output"; IncludeMetrics := true;
              IncludeCosts := true; TopN := 0; ColorEnabled := false |} |})) as Hspec end.
  cbn in Hspec. destruct Hspec as (Hagain & _ & _ & Hok & _).
  destruct (Hok eq_refl) as (_ & _ & _ & Hanalysis & _ & _ & Houtput & _).
  split; [apply Houtput; lia|]. split; [apply Hanalysis; lia|exact Hagain].
Defined.

Lemma scanner_keeps_services_in_order_witness :
  ∃ services service,
    registerEndpoint (H := exampleScanLib) [] "GetUser" "HTTP" "/path/to/users/handler.go" "/path/to"
    = Ok services
    ∧ scanned services
    ∧ sm_get services "users" = Some service
    ∧ {| ep_Path := "/GetUser"; ep_Method := "GET"; ep_Service := "users" |} ∈ Endpoints service.
Proof.
  destruct (scanner_keeps_services_in_order (H := exampleScanLib) [] "handler" "GetUser" "HTTP"
              "/path/to/users/handler.go" "/path/to" scanned_nil)
    as (_ & services & service & Hrun & Hscanned & Hget & Hin).
  exists services, service. split; [exact Hrun|]. split; [exact Hscanned|].
  split; [exact Hget|exact Hin].
Defined.

(** ** Services of a call graph *)

Lemma fold_AddService_Dependencies services cg :
  Dependencies (fold_left AddService services cg) = Dependencies cg.
Proof. revert cg. induction services as [|s services IH]; intros cg; [done|]. cbn. by rewrite IH. Qed.

Lemma fold_AddService_fresh (services : smap Service) cg :
  NoDup (sm_keys (cg_Services cg) ++ sm_keys services) →
  (∀ name service, (name, service) ∈ services → Name service = name) →
  cg_Services (fold_left AddService (sm_values services) cg) = cg_Services cg ++ services.
Proof.
  revert cg. induction services as [|[name service] services IH]; intros cg Hnd Hnames.
  - by rewrite app_nil_r.
  - cbn [sm_values map snd fold_left]. rewrite IH.
    + cbn [AddService cg_Services]. rewrite (Hnames name service) by left.
      rewrite sm_set_fresh; [by rewrite <- app_assoc|].
      apply NoDup_app in Hnd as (_ & Hdisj & _). intros Hin. apply (Hdisj _ Hin). left.
    + cbn [AddService cg_Services]. rewrite (Hnames name service) by left.
      assert (name ∉ sm_keys (cg_Services cg)) as Hfresh.
      { apply NoDup_app in Hnd as (_ & Hdisj & _). intros Hin. apply (Hdisj _ Hin). left. }
      rewrite sm_keys_set, decide_False by done. rewrite <- app_assoc. exact Hnd.
    + intros name' service' Hin. apply Hnames. by right.
Qed.

(** X18. [AddService] files a service under its own name, in place of an
    earlier service of that name, and touches neither the other services
    nor the dependencies.  So the loop of [Build] that adds the services
    of the scanner to a new call graph leaves exactly those services,
    under the same names and in the same order. *)
Theorem AddService_GetService cg service name services :
  GetService (AddService cg service) name
  = (if decide (name = Name service) then Some service else GetService cg name)
  ∧ Dependencies (AddService cg service) = Dependencies cg
  ∧ (scanned services → addServices services NewCallGraph
                        = {| cg_Services := services; Dependencies := [] |}).
Proof.
  split_and!.
  - unfold GetService, AddService. cbn [cg_Services]. case_decide as Hname.
    + subst. apply sm_get_set_eq.
    + by apply sm_get_set_ne.
  - done.
  - intros [Hnd Hnames]. unfold addServices.
    pose proof (fold_AddService_fresh services NewCallGraph) as Hservices.
    pose proof (fold_AddService_Dependencies (sm_values services) NewCallGraph) as Hdeps.
    destruct (fold_left AddService (sm_values services) NewCallGraph) as [services' deps].
    cbn in Hservices, Hdeps. rewrite Hservices, Hdeps; [done|done|].
    intros name' service' Hin. by apply Hnames.
Qed.

Lemma AddService_GetService_witness :
  ∃ services,
    registerEndpoint (H := exampleScanLib) [] "GetUser" "HTTP" "/path/to/users/handler.go" "/path/to"
    = Ok services
    ∧ addServices services NewCallGraph = {| cg_Services := services; Dependencies := [] |}.
Proof.
  destruct (registerEndpoint_scanned (H := exampleScanLib) [] "handler" "GetUser" "HTTP"
              "/path/to/users/handler.go" "/path/to" scanned_nil)
    as (_ & services & service & Hrun & Hscanned & _).
  exists services. split; [exact Hrun|].
  apply (AddService_GetService NewCallGraph service "users" services). exact Hscanned.
Defined.

(** ** The dependency tree *)

Lemma append_assoc (a b c : string) : (a +:+ b) +:+ c = a +:+ (b +:+ c).
Proof.
  induction a as [|x a IH]; [done|].
  change (String x ((a +:+ b) +:+ c) = String x (a +:+ (b +:+ c))). by f_equal.
Qed.

Lemma append_empty_r (a : string) : a +:+ "" = a.
Proof.
  induction a as [|x a IH]; [done|]. change (String x (a +:+ "") = String x a). by f_equal.
Qed.

Section tree.
Context `{RenderLib}.
Variables (ar : ASCIIRenderer) (cg : CallGraph) (maxDepth : Z).

Lemma treeLoop_spec recur prefix deps out visited :
  (∀ service newPrefix out', ∃ text, recur service newPrefix (out', visited)
                                      = Some (out' +:+ text, visited)) →
  ∃ text, treeLoop recur prefix deps (out, visited) = Some (out +:+ text, visited).
Proof.
  intros Hrec. revert out. induction deps as [|dep deps IH]; intros out; cbn [treeLoop fst snd].
  - exists "". by rewrite append_empty_r.
  - destruct (Hrec (ToService dep)
                (if match deps with [] => true | _ :: _ => false end
                 then prefix +:+ "     " else prefix +:+ "  │  ")
                (out +:+ (if match deps with [] => true | _ :: _ => false end
                          then prefix +:+ "  └─ " else prefix +:+ "  ├─ ")
                     +:+ dependencyLine dep)) as [text ->].
    destruct (IH ((out +:+ (if match deps with [] => true | _ :: _ => false end
                            then prefix +:+ "  └─ " else prefix +:+ "  ├─ ")
                       +:+ dependencyLine dep) +:+ text)) as [text' ->].
    eexists. by rewrite !append_assoc.
Qed.

Lemma treeLoop_branches recur subtree prefix deps out visited :
  (∀ service newPrefix out',
     recur service newPrefix (out', visited) = Some (out' +:+ subtree service newPrefix, visited)) →
  treeLoop recur prefix deps (out, visited)
  = Some (out +:+ branches subtree prefix deps, visited).
Proof.
  intros Hrec. revert out. induction deps as [|dep deps IH]; intros out;
    cbn [treeLoop branches fst snd].
  - by rewrite append_empty_r.
  - rewrite Hrec, IH. by rewrite !append_assoc.
Qed.

Lemma renderTreeNode_spec fuel serviceName prefix depth out visited :
  Z.max 0 (maxDepth + 1 - depth) < Z.of_nat fuel →
  ∃ text,
    renderTreeNode fuel ar cg serviceName prefix depth maxDepth (out, visited)
    = Some (out +:+ text, visited)
    ∧ (serviceName ∈ visited → text = prefix +:+ "  (circular reference)" +:+ String "010" "")
    ∧ (serviceName ∉ visited → maxDepth < depth → text = "")
    ∧ (serviceName ∉ visited → depth ≤ maxDepth →
       ∃ rest, text = prefix +:+ styleServiceName ar serviceName +:+ String "010" rest).
Proof.
  revert serviceName prefix depth out visited.
  induction fuel as [|fuel IH]; intros serviceName prefix depth out visited Hfuel; [lia|].
  cbn [renderTreeNode fst snd].
  destruct (bool_decide (serviceName ∈ visited)) eqn:Hvisited.
  - apply bool_decide_eq_true in Hvisited. rewrite orb_true_r.
    eexists. split; [done|]. split_and!; [done|done..].
  - apply bool_decide_eq_false in Hvisited. rewrite orb_false_r.
    destruct (maxDepth <? depth) eqn:Hdepth.
    + apply Z.ltb_lt in Hdepth. exists "". rewrite append_empty_r.
      split_and!; [done|done|done|]. intros _ ?. lia.
    + apply Z.ltb_ge in Hdepth.
      destruct (treeLoop_spec
                  (fun service newPrefix (st' : treeState) =>
                     renderTreeNode fuel ar cg service newPrefix (depth + 1) maxDepth st')
                  prefix
                  (filter (fun dep => FromService dep = serviceName) (Dependencies cg))
                  (out +:+ prefix +:+ styleServiceName ar serviceName +:+ String "010" "")
                  ({[serviceName]} ∪ visited)) as [text ->].
      { intros service newPrefix out'.
        destruct (IH service newPrefix (depth + 1) out' ({[serviceName]} ∪ visited))
          as (text & Hrun & _); [lia|]. by exists text. }
      replace (({[serviceName]} ∪ visited) ∖ {[serviceName]}) with visited by set_solver.
      exists (prefix +:+ styleServiceName ar serviceName +:+ String "010" text).
      split_and!; [|done|intros _ ?; lia|intros _ _; by eexists].
      by rewrite !append_assoc.
Qed.

(** What a call writes does not depend on the text it finds, and below
    the line of the service come the lines of its dependencies. *)
Lemma renderTreeNode_text fuel serviceName prefix depth visited :
  Z.max 0 (maxDepth + 1 - depth) < Z.of_nat fuel →
  ∃ text,
    (∀ out, renderTreeNode fuel ar cg serviceName prefix depth maxDepth (out, visited)
            = Some (out +:+ text, visited))
    ∧ (serviceName ∉ visited → depth ≤ maxDepth →
       ∃ subtree,
         text = prefix +:+ styleServiceName ar serviceName
                +:+ String "010"
                      (branches subtree prefix
                         (filter (fun dep => FromService dep = serviceName) (Dependencies cg)))
         ∧ ∀ service newPrefix out,
             renderTreeNode (Nat.pred fuel) ar cg service newPrefix (depth + 1) maxDepth
               (out, {[serviceName]} ∪ visited)
             = Some (out +:+ subtree service newPrefix, {[serviceName]} ∪ visited)).
Proof.
  revert serviceName prefix depth visited.
  induction fuel as [|fuel IH]; intros serviceName prefix depth visited Hfuel; [lia|].
  cbn [renderTreeNode fst snd Nat.pred].
  destruct (bool_decide (serviceName ∈ visited)) eqn:Hvisited.
  - apply bool_decide_eq_true in Hvisited. rewrite orb_true_r.
    eexists. split; [done|]. done.
  - apply bool_decide_eq_false in Hvisited. rewrite orb_false_r.
    destruct (maxDepth <? depth) eqn:Hdepth.
    + apply Z.ltb_lt in Hdepth. exists "". split; [|intros _ ?; lia].
      intros out. by rewrite append_empty_r.
    + apply Z.ltb_ge in Hdepth.
      set (subtree := fun service newPrefix =>
             match renderTreeNode fuel ar cg service newPrefix (depth + 1) maxDepth
                     ("", {[serviceName]} ∪ visited) with
             | Some (text, _) => text
             | None => ""
             end).
      assert (∀ service newPrefix out,
                renderTreeNode fuel ar cg service newPrefix (depth + 1) maxDepth
                  (out, {[serviceName]} ∪ visited)
                = Some (out +:+ subtree service newPrefix, {[serviceName]} ∪ visited))
        as Hsubtree.
      { intros service newPrefix out.
        destruct (IH service newPrefix (depth + 1) ({[serviceName]} ∪ visited))
          as (text & Hrun & _); [lia|].
        unfold subtree. by rewrite (Hrun ""), Hrun. }
      exists (prefix +:+ styleServiceName ar serviceName
              +:+ String "010"
                    (branches subtree prefix
                       (filter (fun dep => FromService dep = serviceName) (Dependencies cg)))).
      split; [|intros _ _; by exists subtree].
      intros out.
      rewrite (treeLoop_branches
                 (fun service newPrefix (st' : treeState) =>
                    renderTreeNode fuel ar cg service newPrefix (depth + 1) maxDepth st')
                 subtree prefix _ _ ({[serviceName]} ∪ visited) Hsubtree).
      replace (({[serviceName]} ∪ visited) ∖ {[serviceName]}) with visited by set_solver.
      by rewrite !append_assoc.
Qed.

(** X19. [renderTreeNode] nests at most [maxDepth + 1 - depth] further
    calls, so it returns on every call graph, cyclic or not; it only adds
    to the text, and it leaves the [visited] map as it found it.  For a
    service that is on the path from the root it adds the "circular
    reference" line and nothing else, beyond [maxDepth] it adds nothing, and
    otherwise what it adds starts with the line of the service. *)
Theorem renderTreeNode_returns fuel serviceName prefix depth out visited :
  Z.max 0 (maxDepth + 1 - depth) < Z.of_nat fuel →
  ∃ text,
    renderTreeNode fuel ar cg serviceName prefix depth maxDepth (out, visited)
    = Some (out +:+ text, visited)
    ∧ (serviceName ∈ visited → text = prefix +:+ "  (circular reference)" +:+ String "010" "")
    ∧ (serviceName ∉ visited → maxDepth < depth → text = "")
    ∧ (serviceName ∉ visited → depth ≤ maxDepth →
       ∃ rest, text = prefix +:+ styleServiceName ar serviceName +:+ String "010" rest).
Proof. apply renderTreeNode_spec. Qed.

End tree.

(** X20. [RenderDependencyTree] returns a text on every call graph,
    cyclic or not: the header, an empty line, the line of the root
    service, and then, for each dependency that leaves the root service,
    in the order of the call graph, its branch line (the last one drawn
    with the corner) followed by what [renderTreeNode] writes for the
    target service one level down, with the root marked as visited. *)
Theorem RenderDependencyTree_returns `{RenderLib} ar callGraph rootService :
  ∃ subtree,
    RenderDependencyTree ar callGraph rootService
    = Some (renderHeader ar ("DEPENDENCY TREE: " +:+ rootService)
            +:+ String "010" (String "010"
                  (styleServiceName ar rootService
                   +:+ String "010"
                         (branches subtree ""
                            (filter (fun dep => FromService dep = rootService)
                                    (Dependencies callGraph))))))
    ∧ ∀ service prefix out,
        renderTreeNode 6 ar callGraph service prefix 1 5 (out, {[rootService]})
        = Some (out +:+ subtree service prefix, {[rootService]}).
Proof.
  unfold RenderDependencyTree.
  destruct (renderTreeNode_text ar callGraph 5 7 rootService "" 0 ∅)
    as (text & Hrun & Htext); [lia|].
  destruct Htext as (subtree & -> & Hsubtree); [set_solver|lia|].
  exists subtree. rewrite Hrun. split.
  - f_equal. by rewrite !append_assoc.
  - intros service prefix out. specialize (Hsubtree service prefix out).
    cbn [Nat.pred] in Hsubtree. by rewrite (right_id_L ∅ (∪)) in Hsubtree.
Qed.

(** The tree of [a] in the call graph in which [a] and [b] call each
    other and [a] calls [c]. *)
Lemma RenderDependencyTree_returns_witness :
  RenderDependencyTree (H := exampleRenderLib) plainRenderer pingPong "a"
  = Some (unlines
            [ "=== DEPENDENCY TREE: a ===";
              "";
              "▶ a";
              "  ├─ /y (http, weight: %.1f)";
              "  │  ▶ b";
              "  │    └─ /x (http, weight: %.1f)";
              "  │         (circular reference)";
              "  └─ /z (http, weight: %.1f)";
              "     ▶ c" ]).
Proof.
  destruct (RenderDependencyTree_returns (H := exampleRenderLib) plainRenderer pingPong "a")
    as (subtree & Hrun & Hsubtree).
  pose proof (Hsubtree "b" "  │  " "") as Hb.
  pose proof (Hsubtree "c" "     " "") as Hc.
  vm_compute in Hb. vm_compute in Hc. injection Hb as Hb. injection Hc as Hc.
  rewrite Hrun. vm_compute. rewrite <- Hb, <- Hc. reflexivity.
Defined.

(** The tree of [a] in the call graph in which [a] and [b] call each
    other: the second arrival at [a] is marked and not entered. *)
Lemma renderTreeNode_returns_witness :
  ∃ text,
    renderTreeNode (H := exampleRenderLib) 7 plainRenderer pingPong "a" "" 0 5 ("", ∅)
    = Some ("" +:+ text, ∅)
    ∧ renderTreeNode (H := exampleRenderLib) 7 plainRenderer pingPong "a" "  │  " 2 5 ("", {["a"]})
      = Some ("  │    (circular reference)" +:+ String "010" "", {["a"]}).
Proof.
  destruct (renderTreeNode_returns (H := exampleRenderLib) plainRenderer pingPong 5 7
              "a" "" 0 "" ∅) as (text & Hrun & _); [lia|].
  exists text. split; [exact Hrun|].
  destruct (renderTreeNode_returns (H := exampleRenderLib) plainRenderer pingPong 5 7
              "a" "  │  " 2 "" {["a"]}) as (text' & Hrun' & Hcircular & _); [lia|].
  rewrite Hrun', (Hcircular (proj2 (elem_of_singleton "a" "a") eq_refl)). reflexivity.
Defined.
